(** * File-finder bot: search, disambiguation and session state

    A shallow embedding of the core of [file_finder_bot.py]: the folder
    matcher, the summary and document selection of a folder, the
    disambiguation pager, the mode state machine and the sliding-window rate
    limiter of the AI hand-off.

    Conventions of the embedding.
    - The texts the handlers pass around (messages, callback data, paths)
      are [string]s: a character is a code point below 256.  Within that
      range [str.lower] is character-wise, and [str.isspace], [str.strip],
      [str.split] and the regex class [\s] agree on one set of white-space
      characters.  The em dash of [SHERLOCK_PREFIX_PATTERN] lies outside
      the range, so the pattern's separator class is [_-] there.
    - The names of the data are Cyrillic.  What depends on the alphabet,
      the matcher, the lookup of a name and the reading of the catalog, is
      modelled over all of Unicode in [Unicode]: a [str] is the list of its
      code points, and lower case (with the two code points of U+0130 and
      the final sigma), white space and the two patterns are those of the
      interpreter (CPython 3.11, Unicode 14.0).  On the texts below 256 the
      two models agree ([find_folder_matches_latin1],
      [find_folder_by_fio_dr_latin1]).
    - An [update] carries a callback query or a message, the two kinds the
      bodies of the handlers work on; the checks of the two decorators are
      modelled for an update with neither as well ([access_refusal],
      [admin_refusal]).
    - [os.path] is [posixpath]: the separator is ["/"].
    - [context.user_data] and [context.bot_data] are records with one
      optional field per key the program uses; the handle table
      [bot_data['pdf_map']] and the file system seen through [os.path] are
      finite maps, the white list is a finite set.
    - Sizes in megabytes and timestamps are rationals: a byte count divided
      by 2^20, sums of such quotients and differences of nearby timestamps
      are computed exactly by binary floating point at the magnitudes the
      bot meets, so exact arithmetic is what the program computes.
    - What a handler sends to the chat transport or to the AI service is
      recorded as a list of events, in program order: an event is the call
      the program makes, whatever the transport does with it.  In the jobs
      of the birthday broadcast, whose loops guard their calls with [try],
      a call may raise and the course of the job depends on it
      ([Birthday.transport]).  Logging is not recorded. *)

From Stdlib Require Import ZArith QArith Ascii String DecimalString Lia Lqa.
From stdpp Require Import gmap strings list.

Local Open Scope Z_scope.

(** ** Python strings *)

Module PyStr.

Definition code (c : ascii) : N := N_of_ascii c.

(** [str.isspace] on one character of the range below 256, which is also
    the regex class [\s] there; [Unicode.isspace] is the whole of it
    ([isspace_latin1]). *)
Definition isspace (c : ascii) : bool :=
  let n := code c in
  ((9 <=? n) && (n <=? 13) || (28 <=? n) && (n <=? 32)
   || (n =? 133) || (n =? 160))%N.

(** [str.lower] on one character of the range below 256, where lower case
    is made character by character; [Unicode.lower] is the whole of it
    ([lower_latin1]). *)
Definition lower_char (c : ascii) : ascii :=
  let n := code c in
  if ((65 <=? n) && (n <=? 90)
      || (192 <=? n) && (n <=? 222) && negb (n =? 215))%N
  then ascii_of_N (n + 32) else c.

Fixpoint map_chars (f : ascii -> ascii) (s : string) : string :=
  match s with
  | EmptyString => EmptyString
  | String c r => String (f c) (map_chars f r)
  end.

(** [s.lower()] *)
Definition lower (s : string) : string := map_chars lower_char s.

(** [s.replace('_', ' ')] *)
Definition replace_underscores (s : string) : string :=
  map_chars (fun c => if Ascii.eqb c "_" then " "%char else c) s.

(** The string without its leading characters that satisfy [p]. *)
Fixpoint lstrip_by (p : ascii -> bool) (s : string) : string :=
  match s with
  | EmptyString => EmptyString
  | String c r => if p c then lstrip_by p r else s
  end.

(** The string without its trailing characters that satisfy [p]. *)
Fixpoint rstrip_by (p : ascii -> bool) (s : string) : string :=
  match s with
  | EmptyString => EmptyString
  | String c r =>
      match rstrip_by p r with
      | EmptyString => if p c then EmptyString else String c EmptyString
      | r' => String c r'
      end
  end.

(** [s.lstrip()] *)
Definition lstrip (s : string) : string := lstrip_by isspace s.

(** [s.rstrip()] *)
Definition rstrip (s : string) : string := rstrip_by isspace s.

(** [s.strip()] *)
Definition strip (s : string) : string := rstrip (lstrip s).

Definition cons_word (w : string) (ws : list string) : list string :=
  match w with EmptyString => ws | _ => w :: ws end.

(** The word that starts the string (empty when the string starts with
    white space) and the words after it. *)
Fixpoint split_go (s : string) : string * list string :=
  match s with
  | EmptyString => (EmptyString, [])
  | String c r =>
      let '(w, ws) := split_go r in
      if isspace c then (EmptyString, cons_word w ws) else (String c w, ws)
  end.

(** [s.split()]: the maximal runs of characters that are not white space. *)
Definition split (s : string) : list string :=
  let '(w, ws) := split_go s in cons_word w ws.

(** [s.startswith(p)] *)
Definition startswith (p s : string) : bool := String.prefix p s.

(** [s.endswith(suf)] *)
Fixpoint endswith (suf s : string) : bool :=
  String.eqb s suf ||
  match s with
  | EmptyString => false
  | String _ r => endswith suf r
  end.

(** [w in s] *)
Fixpoint contains (w s : string) : bool :=
  String.prefix w s ||
  match s with
  | EmptyString => false
  | String _ r => contains w r
  end.

Fixpoint has_char (c : ascii) (s : string) : bool :=
  match s with
  | EmptyString => false
  | String d r => Ascii.eqb d c || has_char c r
  end.

(** The class [[\s_]] of the two normalising patterns. *)
Definition isdelim (c : ascii) : bool := isspace c || Ascii.eqb c "_".

(** [re.sub(r'[\s_]+', ' ', s)]: [in_run] holds while the scan is inside a
    run that has already produced its space. *)
Fixpoint collapse_from (in_run : bool) (s : string) : string :=
  match s with
  | EmptyString => EmptyString
  | String c r =>
      if isdelim c
      then (if in_run then collapse_from true r
            else String " " (collapse_from true r))
      else String c (collapse_from false r)
  end.

Definition collapse (s : string) : string := collapse_from false s.

(** Drop [p] from the front of [s], comparing characters after [lower]:
    the literal of a pattern compiled with [re.IGNORECASE]. *)
Fixpoint drop_prefix_ci (p s : string) : option string :=
  match p, s with
  | EmptyString, _ => Some s
  | String a p', String b s' =>
      if Ascii.eqb (lower_char a) (lower_char b) then drop_prefix_ci p' s'
      else None
  | String _ _, EmptyString => None
  end.

(** [SHERLOCK_PREFIX_PATTERN.sub('', s)] on a string of the range below
    256, where the class [[—_-]] of the pattern is [[_-]], the em dash
    lying outside: anchored at the start, so at most one match is removed;
    every quantifier is greedy and none can give a character back to what
    follows it.  [Unicode.sherlock_sub] is the whole of it
    ([sherlock_sub_latin1]). *)
Definition sherlock_sub (s : string) : string :=
  match drop_prefix_ci "sherlock" (lstrip s) with
  | None => s
  | Some s2 =>
      let s3 := lstrip s2 in
      let s4 := match s3 with
                | String c r =>
                    if Ascii.eqb c "_" || Ascii.eqb c "-" then r else s3
                | EmptyString => s3
                end in
      lstrip s4
  end.

(** The first piece of [s.split(c)] and the pieces after it. *)
Fixpoint split_on_go (c : ascii) (s : string) : string * list string :=
  match s with
  | EmptyString => (EmptyString, [])
  | String d r =>
      let '(w, ws) := split_on_go c r in
      if Ascii.eqb d c then (EmptyString, w :: ws) else (String d w, ws)
  end.

(** [s.split(c)] for a one-character separator. *)
Definition split_on (c : ascii) (s : string) : list string :=
  let '(w, ws) := split_on_go c s in w :: ws.

(** [s.split(c, 1)[1]]; [None] is the IndexError of a string without [c]. *)
Fixpoint after_first (c : ascii) (s : string) : option string :=
  match s with
  | EmptyString => None
  | String d r => if Ascii.eqb d c then Some r else after_first c r
  end.

Definition digit (c : ascii) : option Z :=
  let n := code c in
  if ((48 <=? n) && (n <=? 57))%N then Some (Z.of_N n - 48) else None.

(** The digits of an integer literal: at least one, single underscores
    allowed between two digits. *)
Fixpoint digits_value (acc : Z) (after_digit : bool) (s : string) : option Z :=
  match s with
  | EmptyString => if after_digit then Some acc else None
  | String c r =>
      match digit c with
      | Some d => digits_value (10 * acc + d) true r
      | None =>
          if Ascii.eqb c "_" && after_digit then digits_value acc false r
          else None
      end
  end.

(** The white space [int] accepts around a literal: that of [str.isspace]
    without the four separators 28 to 31. *)
Definition int_space (c : ascii) : bool :=
  isspace c && negb ((28 <=? code c) && (code c <=? 31))%N.

(** [int(s)]; [None] is its ValueError.  (The interpreter also refuses
    literals of more than 4300 digits; callback data is far shorter.) *)
Definition int (s : string) : option Z :=
  match rstrip_by int_space (lstrip_by int_space s) with
  | String "+" r => digits_value 0 false r
  | String "-" r => Z.opp <$> digits_value 0 false r
  | t => digits_value 0 false t
  end.

(** [str(n)], as an f-string writes an integer. *)
Definition str (n : Z) : string := NilZero.string_of_int (Z.to_int n).

End PyStr.

(** ** [os.path] on POSIX *)

Module OsPath.

Definition sep : string := "/".

(** [os.path.basename(p)]: what follows the last separator. *)
Fixpoint basename (p : string) : string :=
  match p with
  | EmptyString => EmptyString
  | String c r =>
      if PyStr.has_char "/" r then basename r
      else if Ascii.eqb c "/" then r else p
  end.

(** [os.path.dirname(p)]: what precedes the last separator, without the
    separators that end it unless it is made of separators only. *)
Fixpoint rstrip_sep (s : string) : string :=
  match s with
  | EmptyString => EmptyString
  | String c r =>
      match rstrip_sep r with
      | EmptyString =>
          if Ascii.eqb c "/" then EmptyString else String c EmptyString
      | r' => String c r'
      end
  end.

Fixpoint head_part (p : string) : string :=
  match p with
  | EmptyString => EmptyString
  | String c r =>
      if PyStr.has_char "/" r then String c (head_part r)
      else if Ascii.eqb c "/" then String c EmptyString else EmptyString
  end.

Definition dirname (p : string) : string :=
  let head := head_part p in
  match rstrip_sep head with
  | EmptyString => head
  | stripped => stripped
  end.

(** [os.path.join(a, b)] *)
Definition join (a b : string) : string :=
  if PyStr.startswith "/" b then b
  else if String.eqb a "" || PyStr.endswith "/" a then a +:+ b
  else a +:+ "/" +:+ b.

(** Position of the last [c] in [s], counted from the start; [-1] when
    there is none ([str.rfind]). *)
Fixpoint rfind (c : ascii) (s : string) : Z :=
  match s with
  | EmptyString => -1
  | String d r =>
      let i := rfind c r in
      if 0 <=? i then i + 1 else if Ascii.eqb d c then 0 else -1
  end.

Fixpoint take (n : nat) (s : string) : string :=
  match n, s with
  | S n', String c r => String c (take n' r)
  | _, _ => EmptyString
  end.

Fixpoint drop (n : nat) (s : string) : string :=
  match n, s with
  | S n', String _ r => drop n' r
  | _, _ => s
  end.

Fixpoint all_dots (s : string) : bool :=
  match s with
  | EmptyString => true
  | String c r => Ascii.eqb c "." && all_dots r
  end.

(** [os.path.splitext(p)]: split at the last dot when it comes after the
    last separator and some character of the name before it is not a dot
    (the scan of [filenameIndex] from [sepIndex + 1] up to [dotIndex]). *)
Definition splitext (p : string) : string * string :=
  let sepIndex := rfind "/" p in
  let dotIndex := rfind "." p in
  if (sepIndex <? dotIndex)
     && negb (all_dots (take (Z.to_nat (dotIndex - (sepIndex + 1)))
                          (drop (Z.to_nat (sepIndex + 1)) p)))
  then (take (Z.to_nat dotIndex) p, drop (Z.to_nat dotIndex) p)
  else (p, EmptyString).

End OsPath.

(** ** The matcher *)

Module Matcher.
Import PyStr.

(** [re.sub(r'[\s_]+', ' ', query.lower()).strip().split()] *)
Definition query_words (query : string) : list string :=
  split (strip (collapse (lower query))).

(** The name a folder is matched by: [re.sub(r'[\s_]+', ' ', n).strip()]
    for [n = SHERLOCK_PREFIX_PATTERN.sub('', folder_name).lower()]. *)
Definition folder_name_lower_cleaned (folder_path : string) : string :=
  strip (collapse (lower (sherlock_sub (OsPath.basename folder_path)))).

(** The loop of [find_folder_matches]: [matches] grows at its end. *)
Fixpoint scan_folders (words : list string) (folders matches : list string)
  : list string :=
  match folders with
  | [] => matches
  | folder_path :: rest =>
      let folder_name_lower_cleaned := folder_name_lower_cleaned folder_path in
      let all_words_in_name :=
        forallb (fun word => contains word folder_name_lower_cleaned) words in
      scan_folders words rest
        (if all_words_in_name then matches ++ [folder_path] else matches)
  end.

Definition find_folder_matches (query : string) (folders : list string)
  : list string :=
  match query_words query with
  | [] => []
  | words => scan_folders words folders []
  end.

End Matcher.

(** ** Configuration, file system and what a handler emits *)

(** The module-level constants read from [config.json] and computed at
    start-up. *)
Record config := {
  SCRIPT_DIR : string;
  GEMINI_ENABLED : bool;
  MAX_GEMINI_REQUESTS_PER_MINUTE : Z;
  MAX_PDF_SIZE_MB_AI : Q;
  MAX_PDF_TO_SEND_COUNT : Z;
  MAX_PDF_TOTAL_SIZE_MB_SEND : Q;
  RELATIVE_FILE_PATHS : list string;
  PERSON_FOLDERS : list string
}.

(** What the file system answers for a path that exists. *)
Record file := {
  file_size : option Z;      (* [os.path.getsize]; [None]: OSError *)
  file_text : option string; (* the text read in mode ['r']; [None]: it raises *)
  file_opens : bool          (* [open(path, 'rb')] succeeds *)
}.

Abbreviation filesystem := (gmap string file).

(** [os.path.exists(path)] *)
Definition exists_ (fs : filesystem) (path : string) : bool :=
  bool_decide (is_Some (fs !! path)).

(** [os.path.getsize(path)] *)
Definition getsize (fs : filesystem) (path : string) : option Z :=
  fs !! path ≫= file_size.

(** [f.read()] of [open(path, 'r', encoding='utf-8')] *)
Definition read_text (fs : filesystem) (path : string) : option string :=
  fs !! path ≫= file_text.

(** A byte count in megabytes: [size / (1024 * 1024)]. *)
Definition megabytes (bytes : Z) : Q := (bytes # 1048576)%Q.

(** [a > b] on megabyte quantities. *)
Definition Qgtb (a b : Q) : bool := negb (Qle_bool a b).

(** Truth value of a string. *)
Definition truthy (s : string) : bool := negb (String.eqb s "").

Inductive chat_action := TYPING | UPLOAD_DOCUMENT.

(** The fixed texts of the bot, by what they say. *)
Inductive notice :=
  | AiDisabled
  | RateLimitExceeded (limit : Z)        (* ends: the mode was reset to search *)
  | FileTooBigForAi (size_mb limit : Q)  (* ends: the mode was reset to search *)
  | UploadingToAi
  | AiFailedWithFile
  | AnswerHeaderDocument
  | NoAnswerDocument                     (* ends: the mode was reset to search *)
  | AskingAiGeneral
  | AiFailedGeneral
  | AnswerHeaderGeneral
  | AnswerText (text : string)           (* the answer, chunk after chunk *)
  | NoAnswerGeneral                      (* ends: the mode was reset to search *)
  | CountLimitReached (limit : Z)
  | SizeLimitReached (limit : Q)
  | SummaryReadError
  | DocumentSendError (name : string)
  | EmptyFolder (name : string)
  | FolderNotFound (query : string)
  | DatabaseEmpty
  | AiModeCancelled
  | SearchModeOn
  | AiModeOn (display_name : string)
  | BadFileId
  | FileContextMissing
  | AccessDenied (user_id : Z).

(** The texts of [callback_query.answer]. *)
Inductive alert :=
  | Plain
  | InvalidCardIndex
  | SearchSessionExpired
  | BadCallbackData
  | SessionExpiredOrBadIndex
  | FolderChoiceError
  | ReportLinkExpired
  | ReportFolderMissing (fio_dr : string)
  | LoadingReport (fio_dr : string)
  | ReportDataError
  | AccessDeniedAlert (user_id : Z).

Inductive direction := Prev | Next.

(** The payload of an inline button before it is written as a string. *)
Inductive button :=
  | Blank                                (* a space, callback '_' *)
  | Counter (position total : Z)         (* "i / n", callback '_' *)
  | Navigate (d : direction) (callback_data : string)
  | Find (callback_data : string).

(** What [get_summary_from_folder] returns: the text read, or one of its
    two fixed sentences. *)
Inductive summary :=
  | Brief (text : string)
  | SummaryUnreadable
  | SummaryNotFound.

Record card := {
  card_query : string;
  card_fio_dr : string;
  card_summary : summary;
  card_markup : list (list button)
}.

Inductive exn := OSError.

Inductive event :=
  | ChatAction (a : chat_action)
  | Message (n : notice)
  | Answer (a : alert)
  | SummaryMessage (edit : bool) (folder_name content : string)
  | Document (path : string) (handle : Z)
  | Card (edit : bool) (c : card)
  | RemoveMarkup
  | Menu (data : string)
  | AiUpload (path : string)
  | AiGenerate (document : option string) (question : string)
  | AiDelete
  | Uncaught (e : exn).

(** ** Summary and documents of a folder *)

Module Folder.
Import PyStr.

(** [SHERLOCK_PREFIX_PATTERN.sub('', name).lower().replace('_', ' ')] *)
Definition clean_lower (name : string) : string :=
  replace_underscores (lower (sherlock_sub name)).

(** [file_path_relative.startswith(folder_path + os.sep)] *)
Definition under (folder_path file_path_relative : string) : bool :=
  startswith (folder_path +:+ OsPath.sep) file_path_relative.

(** [names_match] of both loops. *)
Definition names_match (base_file_name_lower file_path_relative : string)
  : bool :=
  let file_name := OsPath.basename file_path_relative in
  let file_name_no_ext := fst (OsPath.splitext file_name) in
  let clean_file_name_no_ext := clean_lower file_name_no_ext in
  startswith base_file_name_lower clean_file_name_no_ext
  || startswith clean_file_name_no_ext base_file_name_lower.

(** [file_ext.endswith(('.txt', '.txt_'))] with [file_ext] the lowered path *)
Definition is_txt (file_path_relative : string) : bool :=
  endswith ".txt" (lower file_path_relative)
  || endswith ".txt_" (lower file_path_relative).

Definition is_pdf (file_path_relative : string) : bool :=
  endswith ".pdf" (lower file_path_relative)
  || endswith ".pdf_" (lower file_path_relative).

(** The search loop of [get_summary_from_folder]; it stops at the first
    entry that qualifies ([break]). *)
Fixpoint find_txt (cfg : config) (folder_path base_file_name_lower : string)
    (paths : list string) : option string :=
  match paths with
  | [] => None
  | file_path_relative :: rest =>
      if negb (under folder_path file_path_relative)
      then find_txt cfg folder_path base_file_name_lower rest
      else if names_match base_file_name_lower file_path_relative
              && is_txt file_path_relative
      then Some (OsPath.join (SCRIPT_DIR cfg) file_path_relative)
      else find_txt cfg folder_path base_file_name_lower rest
  end.

(** [summary = f.read(500).strip()], then the dots when 500 characters
    are left. *)
Definition brief (content : string) : string :=
  let summary := strip (OsPath.take 500 content) in
  if (String.length summary =? 500)%nat then summary +:+ "..." else summary.

Definition get_summary_from_folder (cfg : config) (fs : filesystem)
    (folder_path : string) : summary :=
  let person_folder_name := OsPath.basename folder_path in
  let base_file_name_lower := clean_lower person_folder_name in
  match find_txt cfg folder_path base_file_name_lower
          (RELATIVE_FILE_PATHS cfg) with
  | Some txt_file_path =>
      if truthy txt_file_path && exists_ fs txt_file_path then
        match read_text fs txt_file_path with
        | Some content => Brief (brief content)
        | None => SummaryUnreadable
        end
      else SummaryNotFound
  | None => SummaryNotFound
  end.

(** Step 1 of [send_folder_contents]: one pass over the catalog that keeps
    the summary file in [txt_file_path] and appends the PDF files that
    exist to [pdf_files_to_send]. *)
Fixpoint collect (cfg : config) (fs : filesystem)
    (person_folder_relative_path base_file_name_lower : string)
    (paths : list string) (txt_file_path : option string)
    (pdf_files_to_send : list string) : option string * list string :=
  match paths with
  | [] => (txt_file_path, pdf_files_to_send)
  | file_path_relative :: rest =>
      if negb (under person_folder_relative_path file_path_relative)
      then collect cfg fs person_folder_relative_path base_file_name_lower
             rest txt_file_path pdf_files_to_send
      else
        let full_file_path := OsPath.join (SCRIPT_DIR cfg) file_path_relative in
        if is_txt file_path_relative then
          collect cfg fs person_folder_relative_path base_file_name_lower rest
            (if names_match base_file_name_lower file_path_relative
             then Some full_file_path else txt_file_path)
            pdf_files_to_send
        else if is_pdf file_path_relative then
          collect cfg fs person_folder_relative_path base_file_name_lower rest
            txt_file_path
            (if exists_ fs full_file_path
             then pdf_files_to_send ++ [full_file_path] else pdf_files_to_send)
        else
          collect cfg fs person_folder_relative_path base_file_name_lower rest
            txt_file_path pdf_files_to_send
  end.

(** The limit loop of step 3.  The size is asked for first; a file without
    one is passed over ([except OSError]).  Otherwise the count is compared,
    then the total size; either notice ends the loop ([break]). *)
Fixpoint select_within_limits (cfg : config) (fs : filesystem)
    (pdf_files_to_send files_to_send_final : list string) (total_size_mb : Q)
  : list string * option notice :=
  match pdf_files_to_send with
  | [] => (files_to_send_final, None)
  | pdf_path :: rest =>
      match getsize fs pdf_path with
      | None =>
          select_within_limits cfg fs rest files_to_send_final total_size_mb
      | Some size =>
          let file_size_mb := megabytes size in
          let max_count := MAX_PDF_TO_SEND_COUNT cfg in
          let max_total := MAX_PDF_TOTAL_SIZE_MB_SEND cfg in
          if max_count <=? Z.of_nat (length files_to_send_final)
          then (files_to_send_final, Some (CountLimitReached max_count))
          else if Qgtb (total_size_mb + file_size_mb) max_total
          then (files_to_send_final, Some (SizeLimitReached max_total))
          else select_within_limits cfg fs rest
                 (files_to_send_final ++ [pdf_path])
                 (total_size_mb + file_size_mb)
      end
  end.

End Folder.

(** ** Process-wide and per-user state *)

(** The entries of [context.bot_data] the handlers use.  [None] stands for
    a key that is absent. *)
Record bot_data := {
  id_counter : option Z;
  pdf_map : option (gmap Z string);
  fio_map : option (gmap Z string);
  WHITELISTED_USER_IDS : option (gset Z)
}.

Definition MODE_SEARCH : Z := 0.
Definition MODE_AI : Z := 1.

(** The entries of [context.user_data], one field per key; [None] stands
    for an absent key.  ['pdf_context_path'] can also be present with the
    value [None], which is [Some None] here. *)
Record user_data := {
  pdf_context_path : option (option string);   (* CONTEXT_KEY *)
  current_matches : option (list string);      (* CONTEXT_MATCHES_KEY *)
  current_match_index : option Z;              (* CONTEXT_MATCH_INDEX_KEY *)
  last_query : option string;                  (* 'last_query' *)
  mode : option Z;                             (* 'mode' *)
  gemini_requests : option (list Q);           (* 'gemini_requests' *)
  send_birthday_broadcast : option bool        (* USER_BROADCAST_KEY *)
}.

Definition set_pdf_context_path (v : option (option string)) (ud : user_data) :=
  {| pdf_context_path := v;
     current_matches := current_matches ud;
     current_match_index := current_match_index ud;
     last_query := last_query ud;
     mode := mode ud;
     gemini_requests := gemini_requests ud;
     send_birthday_broadcast := send_birthday_broadcast ud |}.

Definition set_current_matches (v : option (list string)) (ud : user_data) :=
  {| pdf_context_path := pdf_context_path ud;
     current_matches := v;
     current_match_index := current_match_index ud;
     last_query := last_query ud;
     mode := mode ud;
     gemini_requests := gemini_requests ud;
     send_birthday_broadcast := send_birthday_broadcast ud |}.

Definition set_current_match_index (v : option Z) (ud : user_data) :=
  {| pdf_context_path := pdf_context_path ud;
     current_matches := current_matches ud;
     current_match_index := v;
     last_query := last_query ud;
     mode := mode ud;
     gemini_requests := gemini_requests ud;
     send_birthday_broadcast := send_birthday_broadcast ud |}.

Definition set_last_query (v : option string) (ud : user_data) :=
  {| pdf_context_path := pdf_context_path ud;
     current_matches := current_matches ud;
     current_match_index := current_match_index ud;
     last_query := v;
     mode := mode ud;
     gemini_requests := gemini_requests ud;
     send_birthday_broadcast := send_birthday_broadcast ud |}.

Definition set_mode (v : Z) (ud : user_data) :=
  {| pdf_context_path := pdf_context_path ud;
     current_matches := current_matches ud;
     current_match_index := current_match_index ud;
     last_query := last_query ud;
     mode := Some v;
     gemini_requests := gemini_requests ud;
     send_birthday_broadcast := send_birthday_broadcast ud |}.

Definition set_gemini_requests (v : list Q) (ud : user_data) :=
  {| pdf_context_path := pdf_context_path ud;
     current_matches := current_matches ud;
     current_match_index := current_match_index ud;
     last_query := last_query ud;
     mode := mode ud;
     gemini_requests := Some v;
     send_birthday_broadcast := send_birthday_broadcast ud |}.

Definition set_send_birthday_broadcast (v : bool) (ud : user_data) :=
  {| pdf_context_path := pdf_context_path ud;
     current_matches := current_matches ud;
     current_match_index := current_match_index ud;
     last_query := last_query ud;
     mode := mode ud;
     gemini_requests := gemini_requests ud;
     send_birthday_broadcast := Some v |}.

(** [context.user_data.get('mode', MODE_SEARCH)] *)
Definition current_mode (ud : user_data) : Z := default MODE_SEARCH (mode ud).

(** [context.user_data.get(CONTEXT_KEY)] *)
Definition get_context_path (ud : user_data) : option string :=
  default None (pdf_context_path ud).

(** [get_user_broadcast_status] *)
Definition get_user_broadcast_status (ud : user_data) : bool :=
  default true (send_birthday_broadcast ud).

(** A user with no session yet. *)
Definition fresh_user_data : user_data :=
  {| pdf_context_path := None; current_matches := None;
     current_match_index := None; last_query := None; mode := None;
     gemini_requests := None; send_birthday_broadcast := None |}.

Module Sender.
Import PyStr Folder.

(** The handle of a document: [bot_data['pdf_map'][current_id] = path] and
    the counter moved on. *)
Definition register_document (pdf_file_path : string) (bd : bot_data)
  : Z * bot_data :=
  let current_id := default 0 (id_counter bd) in
  (current_id,
   {| id_counter := Some (current_id + 1);
      pdf_map := Some (<[current_id := pdf_file_path]> (default ∅ (pdf_map bd)));
      fio_map := fio_map bd;
      WHITELISTED_USER_IDS := WHITELISTED_USER_IDS bd |}).

(** The sending loop of step 3. *)
Fixpoint send_documents (fs : filesystem) (files_to_send_final : list string)
    (bd : bot_data) : bot_data * list event :=
  match files_to_send_final with
  | [] => (bd, [])
  | pdf_file_path :: rest =>
      match fs !! pdf_file_path with
      | Some f =>
          if file_opens f then
            let '(current_id, bd1) := register_document pdf_file_path bd in
            let '(bd2, evs) := send_documents fs rest bd1 in
            (bd2, Document pdf_file_path current_id :: evs)
          else
            let '(bd2, evs) := send_documents fs rest bd in
            (bd2,
             Message (DocumentSendError (OsPath.basename pdf_file_path)) :: evs)
      | None =>
          let '(bd2, evs) := send_documents fs rest bd in
          (bd2,
           Message (DocumentSendError (OsPath.basename pdf_file_path)) :: evs)
      end
  end.

Definition notice_events (n : option notice) : list event :=
  match n with Some m => [Message m] | None => [] end.

(** [send_folder_contents].  [update] is [None] when the caller passes no
    update, and otherwise tells whether the update carries a callback
    query. *)
Definition send_folder_contents (cfg : config) (fs : filesystem)
    (update : option bool) (person_folder_relative_path : string)
    (bd : bot_data) : bot_data * list event :=
  let person_folder_name := OsPath.basename person_folder_relative_path in
  let base_file_name_lower := clean_lower person_folder_name in
  let '(txt_file_path, pdf_files_to_send) :=
    collect cfg fs person_folder_relative_path base_file_name_lower
      (RELATIVE_FILE_PATHS cfg) None [] in
  let from_callback := default false update in
  let has_txt :=
    match txt_file_path with
    | Some p => truthy p && exists_ fs p
    | None => false
    end in
  let typing := if from_callback then [] else [ChatAction TYPING] in
  let summary_events :=
    match txt_file_path with
    | Some p =>
        if has_txt then
          match read_text fs p with
          | Some content =>
              let summary_content := strip content in
              if truthy summary_content
              then [SummaryMessage from_callback
                      (replace_underscores person_folder_name) summary_content]
              else []
          | None => [Message SummaryReadError]
          end
        else []
    | None => []
    end in
  let '(bd', pdf_events) :=
    match pdf_files_to_send with
    | [] => (bd, [])
    | _ :: _ =>
        let '(files_to_send_final, stopped) :=
          select_within_limits cfg fs pdf_files_to_send [] 0%Q in
        let '(bd1, sent) := send_documents fs files_to_send_final bd in
        (bd1, ChatAction UPLOAD_DOCUMENT :: notice_events stopped ++ sent)
    end in
  let empty_events :=
    match pdf_files_to_send with
    | [] => if has_txt then []
            else [Message (EmptyFolder (replace_underscores person_folder_name))]
    | _ :: _ => []
    end in
  (bd', typing ++ summary_events ++ pdf_events ++ empty_events).

End Sender.

(** ** The AI hand-off *)

(** How the AI service behaves during one request. *)
Record ai_service := {
  upload_ok : bool;                   (* [client.files.upload] returns *)
  generated : option (option string)  (* [None]: [generate_content] raises;
                                         otherwise [response.text] *)
}.

Module Gemini.

(** [a < b] on timestamps. *)
Definition Qltb (a b : Q) : bool := negb (Qle_bool b a).

(** [[t for t in requests if current_time - t < 60]] *)
Definition prune (current_time : Q) (requests : list Q) : list Q :=
  List.filter (fun t => Qltb (current_time - t) 60) requests.

(** [context.user_data['gemini_requests'].pop()] *)
Definition pop_gemini_requests (ud : user_data) : user_data :=
  set_gemini_requests (removelast (default [] (gemini_requests ud))) ud.

(** [response and response.text] *)
Definition usable (text : option string) : bool :=
  match text with Some t => truthy t | None => false end.

(** The request to the service with the document, from the upload to the
    reply built on the response. *)
Definition ask_with_file (ai : ai_service) (pdf_context_path query : string)
  : list event :=
  AiUpload pdf_context_path ::
  if upload_ok ai then
    AiGenerate (Some pdf_context_path) query ::
    match generated ai with
    | None => [Message AiFailedWithFile; AiDelete]
    | Some text =>
        AiDelete ::
        if usable text
        then [Message AnswerHeaderDocument;
              Message (AnswerText (default "" text))]
        else [Message NoAnswerDocument]
    end
  else [Message AiFailedWithFile].

Definition ask_general (ai : ai_service) (query : string) : list event :=
  AiGenerate None query ::
  match generated ai with
  | None => [Message AiFailedGeneral]
  | Some text =>
      if usable text
      then [Message AnswerHeaderGeneral; Message (AnswerText (default "" text))]
      else [Message NoAnswerGeneral]
  end.

(** Step 1 of [gemini_query], the rate limit: the log is pruned to the last
    60 seconds and stored; the request passes when the pruned log is below
    the limit, and only then is [current_time] appended. *)
Definition rate_limit (cfg : config) (current_time : Q) (ud : user_data)
  : bool * user_data :=
  let ud1 :=
    set_gemini_requests
      (prune current_time (default [] (gemini_requests ud))) ud in
  if MAX_GEMINI_REQUESTS_PER_MINUTE cfg
     <=? Z.of_nat (length (default [] (gemini_requests ud1)))
  then (false, ud1)
  else (true,
        set_gemini_requests
          (default [] (gemini_requests ud1) ++ [current_time]) ud1).

Definition gemini_query (cfg : config) (fs : filesystem) (ai : ai_service)
    (current_time : Q) (query : string) (ud : user_data)
  : user_data * list event :=
  if negb (GEMINI_ENABLED cfg)
  then (ud, [ChatAction TYPING; Message AiDisabled])
  else
    let '(allowed, ud2) := rate_limit cfg current_time ud in
    if negb allowed then
      (set_mode MODE_SEARCH (set_pdf_context_path (Some None) ud2),
       [ChatAction TYPING;
        Message (RateLimitExceeded (MAX_GEMINI_REQUESTS_PER_MINUTE cfg))])
    else
      match get_context_path ud2 with
      | Some pdf_context_path =>
          if truthy pdf_context_path && exists_ fs pdf_context_path then
            (* 2. size of the document *)
            match getsize fs pdf_context_path with
            | None => (ud2, [ChatAction TYPING; Uncaught OSError])
            | Some file_size_bytes =>
                let file_size_mb := megabytes file_size_bytes in
                if Qgtb file_size_mb (MAX_PDF_SIZE_MB_AI cfg) then
                  (pop_gemini_requests
                     (set_mode MODE_SEARCH
                        (set_pdf_context_path (Some None) ud2)),
                   [ChatAction TYPING;
                    Message (FileTooBigForAi file_size_mb
                               (MAX_PDF_SIZE_MB_AI cfg))])
                else
                  (ud2,
                   ChatAction TYPING :: Message UploadingToAi ::
                   ask_with_file ai pdf_context_path query)
            end
          else
            (ud2,
             ChatAction TYPING :: Message AskingAiGeneral
             :: ask_general ai query)
      | None =>
          (ud2,
           ChatAction TYPING :: Message AskingAiGeneral :: ask_general ai query)
      end.

End Gemini.

(** ** The disambiguation pager *)

Module Pager.
Import PyStr.

Definition generate_person_card_markup (matches : list string)
    (current_index : Z) : list (list button) :=
  let total_matches := Z.of_nat (length matches) in
  let pagination_buttons :=
    [ if 0 <? current_index
      then Navigate Prev ("card:prev:" +:+ str (current_index - 1))
      else Blank;
      Counter (current_index + 1) total_matches;
      if current_index <? total_matches - 1
      then Navigate Next ("card:next:" +:+ str (current_index + 1))
      else Blank ] in
  let select_button := [ Find ("select_folder:" +:+ str current_index) ] in
  [pagination_buttons; select_button].

(** [send_person_card].  [callback_query] tells whether the update carries
    one.  The edit of the card is taken to return: when the transport
    refuses it with [BadRequest], the answer that follows it has another
    text. *)
Definition send_person_card (cfg : config) (fs : filesystem)
    (callback_query : bool) (matches : list string) (index : Z)
    (query_text : string) (is_edit : bool) (ud : user_data)
  : user_data * list event :=
  if negb ((0 <=? index) && (index <? Z.of_nat (length matches))) then
    (ud, if is_edit && callback_query then [Answer InvalidCardIndex] else [])
  else
    let folder_path := matches !!! Z.to_nat index in
    let folder_name_raw := OsPath.basename folder_path in
    let fio_dr := strip (replace_underscores (sherlock_sub folder_name_raw)) in
    let summary := Folder.get_summary_from_folder cfg fs folder_path in
    let markup := generate_person_card_markup matches index in
    let text := {| card_query := query_text; card_fio_dr := fio_dr;
                   card_summary := summary; card_markup := markup |} in
    let ud' :=
      set_last_query (Some query_text)
        (set_current_match_index (Some index)
           (set_current_matches (Some matches) ud)) in
    (ud',
     if is_edit && callback_query then [Card true text; Answer Plain]
     else [Card false text]).

End Pager.

(** ** Handlers *)

(** What the handlers read of a Telegram update that carries a callback
    query or a message, the two kinds the bodies of the handlers work on.
    The dispatcher also hands the command and message handlers updates
    that carry neither (an edited message, a channel post): of those only
    the decorators are modelled, which read the user and the two kinds. *)
Record update := {
  effective_user : option Z;
  has_callback_query : bool  (* otherwise the update carries a message *)
}.

Abbreviation state := (user_data * bot_data)%type.

Module Handlers.
Import PyStr.

(** The check of [restricted_access], for any update: [None] when the
    handler is to run, otherwise what is sent in its place.  [user] is
    [update.effective_user]; [callback_query] and [message] tell whether
    [update.callback_query] and [update.message] are there.  The refusal is
    an alert for a callback query and a reply to a message; an update with
    neither is refused in silence. *)
Definition access_refusal (user : option Z) (callback_query message : bool)
    (bd : bot_data) : option (list event) :=
  match user with
  | None => Some []
  | Some user_id =>
      let whitelist := default ∅ (WHITELISTED_USER_IDS bd) in
      if bool_decide (whitelist = ∅) then None
      else if bool_decide (user_id ∈ whitelist) then None
      else Some (if callback_query
                 then [Answer (AccessDeniedAlert user_id)]
                 else if message
                 then [Message (AccessDenied user_id)]
                 else [])
  end.

(** The decorator [restricted_access] around a handler, for an update the
    handler works on. *)
Definition restricted_access (handler : update -> state -> state * list event)
    (upd : update) (st : state) : state * list event :=
  match access_refusal (effective_user upd) (has_callback_query upd)
          (negb (has_callback_query upd)) (snd st) with
  | None => handler upd st
  | Some sent => (st, sent)
  end.

(** The body of [start]. *)
Definition start_body (upd : update) (st : state) : state * list event :=
  let ud := fst st in
  ((set_mode MODE_SEARCH
      (set_current_match_index None
         (set_current_matches None (set_pdf_context_path None ud))),
    snd st),
   [Menu "start"]).

(** The body of [search_command]. *)
Definition search_body (upd : update) (st : state) : state * list event :=
  ((set_mode MODE_SEARCH (set_pdf_context_path None (fst st)), snd st),
   [Message SearchModeOn]).

(** The body of [cancel_command]. *)
Definition cancel_body (upd : update) (st : state) : state * list event :=
  let ud := fst st in
  ((set_mode MODE_SEARCH
      (set_current_match_index None
         (set_current_matches None (set_pdf_context_path None ud))),
    snd st),
   [Message AiModeCancelled]).

Definition start := restricted_access start_body.
Definition search_command := restricted_access search_body.
Definition cancel_command := restricted_access cancel_body.

(** [find_folder_by_fio_dr] *)
Definition find_folder_by_fio_dr (fio_dr : string) (folders : list string)
  : option string :=
  let clean_fio_dr :=
    strip (replace_underscores (lower (sherlock_sub fio_dr))) in
  List.find
    (fun folder_path =>
       String.eqb
         (strip (replace_underscores
                   (lower (sherlock_sub (OsPath.basename folder_path)))))
         clean_fio_dr)
    folders.

(** The body of [handle_text_message]; [text] is [update.message.text]. *)
Definition handle_text_body (cfg : config) (fs : filesystem) (ai : ai_service)
    (current_time : Q) (text : string) (upd : update) (st : state)
  : state * list event :=
  let query := strip text in
  let '(ud, bd) := st in
  if current_mode ud =? MODE_AI then
    let '(ud', evs) := Gemini.gemini_query cfg fs ai current_time query ud in
    ((ud', bd), evs)
  else
    match PERSON_FOLDERS cfg with
    | [] => (st, [Message DatabaseEmpty])
    | _ :: _ =>
        let found_folders :=
          Matcher.find_folder_matches query (PERSON_FOLDERS cfg) in
        match found_folders with
        | [] => (st, [Message (FolderNotFound query)])
        | [folder] =>
            let '(bd', evs) :=
              Sender.send_folder_contents cfg fs None folder bd in
            ((ud, bd'), evs)
        | _ :: _ :: _ =>
            let '(ud', evs) :=
              Pager.send_person_card cfg fs (has_callback_query upd)
                found_folders 0 query false ud in
            ((ud', bd), evs)
        end
    end.

Definition handle_text_message cfg fs ai current_time text :=
  restricted_access (handle_text_body cfg fs ai current_time text).

(** The branch [data.startswith(CALLBACK_FULL_REPORT)]. *)
Definition full_report (cfg : config) (fs : filesystem) (data : string)
    (st : state) : state * list event :=
  let '(ud, bd) := st in
  match after_first ":" data ≫= int with
  | None => (st, [Answer ReportDataError])
  | Some fio_id =>
      match default ∅ (fio_map bd) !! fio_id with
      | None => (st, [Answer ReportLinkExpired])
      | Some fio_dr =>
          if negb (truthy fio_dr) then (st, [Answer ReportLinkExpired])
          else
            match find_folder_by_fio_dr fio_dr (PERSON_FOLDERS cfg) with
            | None => (st, [Answer (ReportFolderMissing fio_dr)])
            | Some person_folder_path =>
                if negb (truthy person_folder_path)
                then (st, [Answer (ReportFolderMissing fio_dr)])
                else
                  let '(bd', evs) :=
                    Sender.send_folder_contents cfg fs (Some true)
                      person_folder_path bd in
                  ((ud, bd'), Answer (LoadingReport fio_dr) :: evs)
            end
      end
  end.

(** The branch [data.startswith('ask_ai|')]. *)
Definition ask_ai (fs : filesystem) (data : string) (st : state)
  : state * list event :=
  let '(ud, bd) := st in
  match after_first "|" data ≫= int with
  | None => (st, [Message BadFileId])
  | Some pdf_id =>
      match default ∅ (pdf_map bd) !! pdf_id with
      | None => (st, [Message FileContextMissing])
      | Some pdf_path =>
          if negb (truthy pdf_path) || negb (exists_ fs pdf_path)
          then (st, [Message FileContextMissing])
          else
            let display_name :=
              replace_underscores
                (fst (split_on_go "." (OsPath.basename pdf_path))) in
            ((set_mode MODE_AI
                (set_pdf_context_path (Some (Some pdf_path)) ud), bd),
             [Message (AiModeOn display_name)])
      end
  end.

(** The branch [data.startswith(CALLBACK_PERSON_CARD)].  The update of a
    button press carries the callback query the handler has just answered. *)
Definition card_page (cfg : config) (fs : filesystem) (data : string)
    (st : state) : state * list event :=
  let '(ud, bd) := st in
  match split_on ":" data !! 2%nat ≫= int with
  | None => (st, [Answer BadCallbackData])
  | Some new_index =>
      match current_matches ud with
      | Some (m :: ms) =>
          let '(ud', evs) :=
            Pager.send_person_card cfg fs true (m :: ms)
              new_index (default "" (last_query ud)) true ud in
          ((ud', bd), evs)
      | _ => (st, [Answer SearchSessionExpired])
      end
  end.

(** The branch [data.startswith(CALLBACK_SELECT_FOLDER)]. *)
Definition select_folder (cfg : config) (fs : filesystem) (data : string)
    (st : state) : state * list event :=
  let '(ud, bd) := st in
  match after_first ":" data ≫= int with
  | None => (st, [Answer FolderChoiceError])
  | Some selected_index =>
      let matches := default [] (current_matches ud) in
      if negb ((0 <=? selected_index)
               && (selected_index <? Z.of_nat (length matches)))
      then (st, [Answer SessionExpiredOrBadIndex; RemoveMarkup])
      else
        let folder_path := matches !!! Z.to_nat selected_index in
        let ud' :=
          set_last_query None
            (set_current_match_index None (set_current_matches None ud)) in
        let '(bd', evs) :=
          Sender.send_folder_contents cfg fs (Some true) folder_path bd in
        ((ud', bd'), evs)
  end.

(** The body of [button_handler]: the chain of tests on [query.data], in
    the order of the source.  The menus it shows without touching the
    session are one [Menu] event each. *)
Definition button_body (cfg : config) (fs : filesystem) (data : string)
    (upd : update) (st : state) : state * list event :=
  let '(st', evs) :=
    if String.eqb data "show_surnames" then (st, [Menu data])
    else if String.eqb data "settings" then (st, [Menu data])
    else if String.eqb data "toggle_broadcast" then
      ((set_send_birthday_broadcast
          (negb (get_user_broadcast_status (fst st))) (fst st), snd st),
       [Menu "settings"])
    else if String.eqb data "back_to_start" then (st, [Menu data])
    else if String.eqb data "birthdays" then (st, [Menu data])
    else if startswith "full_report" data then full_report cfg fs data st
    else if startswith "ask_ai|" data then ask_ai fs data st
    else if startswith "card:" data then card_page cfg fs data st
    else if startswith "select_folder:" data then select_folder cfg fs data st
    else (st, []) in
  (st', Answer Plain :: evs).

Definition button_handler cfg fs data :=
  restricted_access (button_body cfg fs data).

End Handlers.

(** ** The specification's wording

    The definitions below follow the specification, not the program; the
    theorems compare the two. *)

Module SelectorSpec.
Import PyStr Folder.

(** "every catalog entry under [folder] whose extension marks it an
    attachable type, in catalog order" (and that exists on disk). *)
Definition attachable (cfg : config) (fs : filesystem) (folder : string)
  : list string :=
  map (OsPath.join (SCRIPT_DIR cfg))
    (List.filter
       (fun f => under folder f && negb (is_txt f) && is_pdf f
                 && exists_ fs (OsPath.join (SCRIPT_DIR cfg) f))
       (RELATIVE_FILE_PATHS cfg)).

(** The documents whose size can be determined, each with its size in
    megabytes: the others are skipped. *)
Definition sized (fs : filesystem) (pdfs : list string) : list (string * Q) :=
  omap (fun p => (fun size => (p, megabytes size)) <$> getsize fs p) pdfs.

(** The cumulative size of a run of documents, added up in order. *)
Definition cumulative (docs : list (string * Q)) : Q :=
  fold_left (fun acc d => (acc + d.2)%Q) docs 0%Q.

(** The outcome of budget enforcement over [docs]: the documents [taken]
    are admitted, both budgets hold for them, and either the catalog is
    exhausted without a notice, or the document after them is the first to breach
    a limit, which the notice names, the count limit being looked at first. *)
Definition Enforced (maxCount : Z) (maxTotalSizeMB : Q)
    (docs : list (string * Q)) (accepted : list string)
    (notice_sent : option notice) : Prop :=
  ∃ taken rest,
    docs = taken ++ rest ∧
    accepted = taken.*1 ∧
    Z.of_nat (length taken) <= maxCount ∧
    (cumulative taken <= maxTotalSizeMB)%Q ∧
    match rest with
    | [] => notice_sent = None
    | doc :: _ =>
        (maxCount <= Z.of_nat (length taken)
         ∧ notice_sent = Some (CountLimitReached maxCount))
        ∨ (Z.of_nat (length taken) < maxCount
           ∧ (maxTotalSizeMB < cumulative taken + doc.2)%Q
           ∧ notice_sent = Some (SizeLimitReached maxTotalSizeMB))
    end.

End SelectorSpec.

Module SummarySpec.
Import PyStr Folder.

(** "the catalog entry under [folder] whose cleaned base filename
    (extension stripped) is a prefix of, or has as a prefix, the folder's
    cleaned display name, and whose extension marks it a summary type" *)
Definition qualifies (folder entry : string) : bool :=
  under folder entry
  && is_txt entry
  && names_match (clean_lower (OsPath.basename folder)) entry.

(** The entries of the catalog that qualify, in catalog order. *)
Definition candidates (cfg : config) (folder : string) : list string :=
  List.filter (qualifies folder) (RELATIVE_FILE_PATHS cfg).

End SummarySpec.

Module LimiterSpec.

(** [t] lies within the trailing 60 seconds of [now]. *)
Definition recent (now t : Q) : Prop := (now - t < 60)%Q.

Definition recent_dec (now t : Q) : Decision (recent now t) :=
  match Qlt_le_dec (now - t) 60 with
  | left H => left H
  | right H => right (Qle_not_lt _ _ H)
  end.
#[global] Existing Instance recent_dec.

(** "[allow(timestampsLog, now, maxPerMinute) -> boolean], with the side
    effect of pruning [timestampsLog] to entries within the trailing 60
    seconds before evaluating, then appending [now] only if allowed":
    the answer and the log left behind. *)
Definition allow (timestampsLog : list Q) (now : Q) (maxPerMinute : Z)
  : bool * list Q :=
  let pruned := filter (recent now) timestampsLog in
  if bool_decide (Z.of_nat (length pruned) < maxPerMinute)
  then (true, pruned ++ [now])
  else (false, pruned).

End LimiterSpec.

Module PagerSpec.

(** The card offers a way to move in direction [d]. *)
Definition offers (d : direction) (markup : list (list button)) : Prop :=
  ∃ row callback_data, row ∈ markup ∧ Navigate d callback_data ∈ row.

(** [index] is a position of [matches]. *)
Definition in_range (matches : list string) (index : Z) : Prop :=
  0 <= index < Z.of_nat (length matches).

End PagerSpec.

(** The caller passes the access check of [restricted_access]. *)
Definition authorized (upd : update) (bd : bot_data) : Prop :=
  ∃ user_id, effective_user upd = Some user_id ∧
    (default ∅ (WHITELISTED_USER_IDS bd) = ∅
     ∨ user_id ∈ default ∅ (WHITELISTED_USER_IDS bd)).

(** An event that reaches the AI service. *)
Definition is_ai_call (e : event) : bool :=
  match e with
  | AiUpload _ | AiGenerate _ _ | AiDelete => true
  | _ => false
  end.

(** Calls of the rate limit one after the other, at the given times: the
    answers, and the session left behind. *)
Fixpoint rate_limit_run (cfg : config) (times : list Q) (ud : user_data)
  : list bool * user_data :=
  match times with
  | [] => ([], ud)
  | current_time :: later =>
      let '(allowed, ud1) := Gemini.rate_limit cfg current_time ud in
      let '(answers, ud2) := rate_limit_run cfg later ud1 in
      (allowed :: answers, ud2)
  end.

(** ** A small catalog to run the program on *)

Module Fixtures.

Fixpoint replicate_char (n : nat) (c : ascii) : string :=
  match n with
  | O => EmptyString
  | S n' => String c (replicate_char n' c)
  end.

Definition catalog : list string :=
  [ "Base/Group/Ivanov_Petr_01.01/Ivanov_Petr.txt";
    "Base/Group/Ivanov_Petr_01.01/CV.pdf";
    "Base/Group/Ivanov_Petr_01.01/Ivanov.txt";
    "Base/Group/Ivanov_Petr_01.01/scan.pdf";
    "Base/Group/Ivanov_Petr_01.01/passport.PDF";
    "Base/Group/Ivanov/cv.pdf";
    "Base/Group/Ivanov/Archive/old.pdf";
    "Base/Group/Ivanov/Archive/Ivanov.txt" ].

Definition cfg : config :=
  {| SCRIPT_DIR := "/srv/bot";
     GEMINI_ENABLED := true;
     MAX_GEMINI_REQUESTS_PER_MINUTE := 5;
     MAX_PDF_SIZE_MB_AI := 15;
     MAX_PDF_TO_SEND_COUNT := 2;
     MAX_PDF_TOTAL_SIZE_MB_SEND := 50;
     RELATIVE_FILE_PATHS := catalog;
     PERSON_FOLDERS :=
       [ "Base/Group/Ivanov"; "Base/Group/Ivanov/Archive";
         "Base/Group/Ivanov_Petr_01.01" ] |}.

Definition pdf_of (bytes : Z) : file :=
  {| file_size := Some bytes; file_text := None; file_opens := true |}.

Definition txt_of (text : string) : file :=
  {| file_size := Some (Z.of_nat (String.length text));
     file_text := Some text; file_opens := true |}.

(** A text of 600 characters: a space, then 599 letters. *)
Definition long_text : string := String " " (replicate_char 599 "a").

Definition fs : filesystem :=
  {[ "/srv/bot/Base/Group/Ivanov_Petr_01.01/Ivanov_Petr.txt" := txt_of long_text;
     "/srv/bot/Base/Group/Ivanov_Petr_01.01/CV.pdf" := pdf_of 1048576;
     "/srv/bot/Base/Group/Ivanov_Petr_01.01/Ivanov.txt" := txt_of "Born 01.01";
     "/srv/bot/Base/Group/Ivanov_Petr_01.01/scan.pdf" := pdf_of 20971520;
     "/srv/bot/Base/Group/Ivanov_Petr_01.01/passport.PDF" := pdf_of 2097152;
     "/srv/bot/Base/Group/Ivanov/cv.pdf" := pdf_of 1048576;
     "/srv/bot/Base/Group/Ivanov/Archive/old.pdf" := pdf_of 1048576;
     "/srv/bot/Base/Group/Ivanov/Archive/Ivanov.txt" := txt_of "Archived" ]}.

Definition bd : bot_data :=
  {| id_counter := None; pdf_map := None; fio_map := None;
     WHITELISTED_USER_IDS := None |}.

(** The process after the document [CV.pdf] was sent with handle 0. *)
Definition bd_sent : bot_data :=
  {| id_counter := Some 1;
     pdf_map := Some {[ 0 := "/srv/bot/Base/Group/Ivanov_Petr_01.01/CV.pdf" ]};
     fio_map := None;
     WHITELISTED_USER_IDS := Some {[ 7 ]} |}.

(** A session in AI mode on [CV.pdf], with the broadcast switched off. *)
Definition ud_ai : user_data :=
  set_send_birthday_broadcast false
    (set_mode MODE_AI
       (set_pdf_context_path
          (Some (Some "/srv/bot/Base/Group/Ivanov_Petr_01.01/CV.pdf"))
          fresh_user_data)).

(** The same session on the 20 MB document [scan.pdf]. *)
Definition ud_ai_big : user_data :=
  set_pdf_context_path
    (Some (Some "/srv/bot/Base/Group/Ivanov_Petr_01.01/scan.pdf")) ud_ai.

(** A service that answers with an empty text. *)
Definition ai_silent : ai_service :=
  {| upload_ok := true; generated := Some (Some "") |}.

Definition user : update :=
  {| effective_user := Some 7; has_callback_query := false |}.

Definition press : update :=
  {| effective_user := Some 7; has_callback_query := true |}.

End Fixtures.

(** ** Long texts cut into messages *)

Module Chunks.
Import PyStr.

(** [len(s)] *)
Definition len (s : string) : Z := Z.of_nat (String.length s).

(** Where the bound [m] of a slice falls in [s]: a negative bound counts
    from the end. *)
Definition slice_bound (m : Z) (s : string) : nat :=
  Z.to_nat (if m <? 0 then len s + m else m).

(** [s[:m]] *)
Definition slice_to (m : Z) (s : string) : string :=
  OsPath.take (slice_bound m s) s.

(** [s[m:]] *)
Definition slice_from (m : Z) (s : string) : string :=
  OsPath.drop (slice_bound m s) s.

Definition newline : ascii := "010".

(** The separator ['\n\n'] of paragraphs. *)
Definition blank : string := String newline (String newline EmptyString).

(** The first piece of [s.split('\n\n')] and the pieces after it: the
    separator is looked for from the left, and the search goes on behind
    each one found. *)
Fixpoint split_blank_go (s : string) : string * list string :=
  match s with
  | EmptyString => (EmptyString, [])
  | String c r =>
      match r with
      | String d r' =>
          if Ascii.eqb c newline && Ascii.eqb d newline
          then let '(w, ws) := split_blank_go r' in (EmptyString, w :: ws)
          else let '(w, ws) := split_blank_go r in (String c w, ws)
      | EmptyString => (String c EmptyString, [])
      end
  end.

(** [s.split('\n\n')] *)
Definition split_blank (s : string) : list string :=
  let '(w, ws) := split_blank_go s in w :: ws.

(** The inner loop [while len(paragraph) > max_length]: the pieces cut off
    the front go to [chunks], what is left of the paragraph is returned.
    [fuel] bounds the number of rounds; [None] when it runs out. *)
Fixpoint cut (fuel : nat) (max_length : Z) (paragraph : string)
    (chunks : list string) : option (list string * string) :=
  if max_length <? len paragraph then
    match fuel with
    | O => None
    | S fuel' =>
        cut fuel' max_length (slice_from max_length paragraph)
          (chunks ++ [slice_to max_length paragraph])
    end
  else Some (chunks, paragraph).

(** The loop over the paragraphs. *)
Fixpoint fill (fuel : nat) (max_length : Z) (paragraphs chunks : list string)
    (current_chunk : string) : option (list string * string) :=
  match paragraphs with
  | [] => Some (chunks, current_chunk)
  | paragraph :: rest =>
      let '(chunks1, current_chunk1) :=
        if (max_length <? len current_chunk + len paragraph + 2)
           && truthy current_chunk
        then (chunks ++ [strip current_chunk], EmptyString)
        else (chunks, current_chunk) in
      match cut fuel max_length paragraph chunks1 with
      | None => None
      | Some (chunks2, paragraph') =>
          fill fuel max_length rest chunks2
            (current_chunk1 +:+ paragraph' +:+ blank)
      end
  end.

(** [split_text_into_chunks(text, max_length)]; each paragraph may take
    [fuel] rounds of the inner loop. *)
Definition split_text_into_chunks (fuel : nat) (text : string)
    (max_length : Z) : option (list string) :=
  match fill fuel max_length (split_blank text) [] EmptyString with
  | None => None
  | Some (chunks, current_chunk) =>
      Some (if truthy current_chunk
            then chunks ++ [strip current_chunk] else chunks)
  end.

(** The characters of a text that are not white space, in order. *)
Fixpoint squeeze (s : string) : string :=
  match s with
  | EmptyString => EmptyString
  | String c r => if isspace c then squeeze r else String c (squeeze r)
  end.

(** The chunks written one after the other. *)
Definition glue (chunks : list string) : string :=
  foldr String.append EmptyString chunks.

(** What [current_chunk] holds between two paragraphs: nothing, or a text
    of at most [max_length] characters followed by the separator. *)
Definition pending (max_length : Z) (current_chunk : string) : Prop :=
  current_chunk = ""
  ∨ ∃ x, current_chunk = x +:+ blank ∧ len x <= max_length.

End Chunks.

(** ** Decimal digits *)

From Stdlib Require DecimalPos.

Module Digits.

(** The number read when the digits [d], most significant first, follow
    the number [acc]. *)
Fixpoint uint_acc (d : Decimal.uint) (acc : Z) : Z :=
  match d with
  | Decimal.Nil => acc
  | Decimal.D0 l => uint_acc l (10 * acc)
  | Decimal.D1 l => uint_acc l (10 * acc + 1)
  | Decimal.D2 l => uint_acc l (10 * acc + 2)
  | Decimal.D3 l => uint_acc l (10 * acc + 3)
  | Decimal.D4 l => uint_acc l (10 * acc + 4)
  | Decimal.D5 l => uint_acc l (10 * acc + 5)
  | Decimal.D6 l => uint_acc l (10 * acc + 6)
  | Decimal.D7 l => uint_acc l (10 * acc + 7)
  | Decimal.D8 l => uint_acc l (10 * acc + 8)
  | Decimal.D9 l => uint_acc l (10 * acc + 9)
  end.

End Digits.

(** ** The table of document handles *)

(** Every handle of [bot_data['pdf_map']] lies below [bot_data['id_counter']],
    the next handle to give out. *)
Definition handles_below_counter (bd : bot_data) : Prop :=
  ∀ handle path,
    default ∅ (pdf_map bd) !! handle = Some path →
    handle < default 0 (id_counter bd).

(** [bd'] extends the table of [bd]: the counter has not moved back, and
    every handle of [bd] names the same document in [bd']. *)
Definition table_extends (bd bd' : bot_data) : Prop :=
  default 0 (id_counter bd) <= default 0 (id_counter bd')
  ∧ ∀ handle path,
      default ∅ (pdf_map bd) !! handle = Some path →
      default ∅ (pdf_map bd') !! handle = Some path.

(** ** The catalog read at start-up *)

From Stdlib Require OrderedTypeEx.

Module Catalog.
Import PyStr.

(** [sep * n] *)
Fixpoint slashes (n : nat) : string :=
  match n with
  | O => EmptyString
  | S n' => String "/" (slashes n')
  end.

(** Whether [load_and_extract_person_folders] takes the directory of a
    catalog entry as the folder of a person. *)
Definition is_person_folder (base_folder_lower person_folder_path : string)
  : bool :=
  negb (String.eqb (lower person_folder_path) base_folder_lower)
  && truthy (OsPath.basename person_folder_path).

(** A string put in its place in an increasing list, unless it is there. *)
Fixpoint insert_sorted (x : string) (l : list string) : list string :=
  match l with
  | [] => [x]
  | y :: r =>
      match String.compare x y with
      | Lt => x :: l
      | Eq => l
      | Gt => y :: insert_sorted x r
      end
  end.

(** [sorted(list(s))] for the set [s] of the strings of [l]: strings are
    compared code point by code point. *)
Definition sorted_set (l : list string) : list string :=
  foldr insert_sorted [] l.

(** [a < b] on strings. *)
Definition before (a b : string) : Prop := String.compare a b = Lt.

(** A list in increasing order: each string comes before all those after
    it, so none occurs twice. *)
Definition increasing (l : list string) : Prop :=
  ∀ i j a b, (i < j)%nat → l !! i = Some a → l !! j = Some b → before a b.

(** What [load_and_extract_person_folders] returns for the catalog
    [relative_file_paths]; the index of surnames it also fills is not
    modelled. *)
Definition person_folders (base_folder_name : string)
    (relative_file_paths : list string) : list string :=
  let base_folder_lower := lower base_folder_name in
  sorted_set
    (List.filter (is_person_folder base_folder_lower)
       (map OsPath.dirname relative_file_paths)).

End Catalog.

(** ** The white list and the commands of the administrator *)

(** The entries of [bot_data] beside those the handlers above use.  The
    value under ['whitelist'], when the key is there, is a set: the program
    stores nothing else under it. *)
Record application_data := {
  handlers_data : bot_data;
  fio_id_counter : option Z;   (* 'fio_id_counter' *)
  whitelist : option (gset Z)  (* 'whitelist' *)
}.

Definition set_handlers_data (v : bot_data) (app : application_data) :=
  {| handlers_data := v;
     fio_id_counter := fio_id_counter app;
     whitelist := whitelist app |}.

Definition set_fio_id_counter (v : Z) (app : application_data) :=
  {| handlers_data := handlers_data app;
     fio_id_counter := Some v;
     whitelist := whitelist app |}.

Definition set_whitelist (v : gset Z) (app : application_data) :=
  {| handlers_data := handlers_data app;
     fio_id_counter := fio_id_counter app;
     whitelist := Some v |}.

(** What [application.bot_data] holds under ['whitelist'] when step 4 of
    [main] looks at it. *)
Inductive stored_whitelist :=
  | NoWhitelist
  | NotASet
  | ASet (ids : gset Z).

Module Admin.
Import PyStr.

(** Step 4 of [main]: the white list, the document table and its counter
    are put in place, and the main administrator is added to the list.
    [stored], [bd] and [stored_fio_id_counter] are what
    [application.bot_data] holds when the step runs.  What the handlers
    find at the first update is another matter: the library loads the
    persistence file when [run_polling] initialises the application, after
    this step. *)
Definition main_init (MAIN_ADMIN_ID : Z)
    (INITIAL_WHITELISTED_USER_IDS : gset Z) (stored : stored_whitelist)
    (bd : bot_data) (stored_fio_id_counter : option Z) : application_data :=
  let whitelist :=
    match stored with
    | NoWhitelist => INITIAL_WHITELISTED_USER_IDS
    | ASet ids => ids ∪ INITIAL_WHITELISTED_USER_IDS
    | NotASet => INITIAL_WHITELISTED_USER_IDS
    end in
  {| handlers_data :=
       {| id_counter := Some (default 0 (id_counter bd));
          pdf_map := Some (default ∅ (pdf_map bd));
          fio_map := fio_map bd;
          WHITELISTED_USER_IDS := WHITELISTED_USER_IDS bd |};
     fio_id_counter := stored_fio_id_counter;
     whitelist := Some (whitelist ∪ {[ MAIN_ADMIN_ID ]}) |}.

(** The replies of the administrator's commands. *)
Inductive admin_reply :=
  | NoRights
  | Added (user_id : Z)
  | Removed (user_id : Z)
  | MainAdminStays
  | AddUsage
  | RemoveUsage
  | CommandFailed
  | AdminList (ids : gset Z).

(** The check of [is_main_admin], for any update: [None] when the command
    is to run, otherwise what is sent in its place.  [user] is
    [update.effective_user] and [message] tells whether [update.message]
    is there: only a message is replied to, so an edited command of
    somebody else is refused in silence. *)
Definition admin_refusal (MAIN_ADMIN_ID : Z) (user : option Z)
    (message : bool) : option (list admin_reply) :=
  match user with
  | Some user_id =>
      if user_id =? MAIN_ADMIN_ID then None
      else Some (if message then [NoRights] else [])
  | None => Some (if message then [NoRights] else [])
  end.

(** The decorator [is_main_admin] around a command, for an update the
    command works on. *)
Definition is_main_admin (MAIN_ADMIN_ID : Z)
    (command : update → application_data → application_data * list admin_reply)
    (upd : update) (app : application_data)
  : application_data * list admin_reply :=
  match admin_refusal MAIN_ADMIN_ID (effective_user upd)
          (negb (has_callback_query upd)) with
  | None => command upd app
  | Some replies => (app, replies)
  end.

(** The body of [add_admin_command]; [args] is [context.args].  The list
    is created before the argument is read. *)
Definition add_admin_body (args : list string) (upd : update)
    (app : application_data) : application_data * list admin_reply :=
  let app1 :=
    match whitelist app with
    | None => set_whitelist ∅ app
    | Some _ => app
    end in
  match args with
  | [] => (app1, [AddUsage])
  | arg :: _ =>
      match int arg with
      | None => (app1, [AddUsage])
      | Some user_id_to_add =>
          (set_whitelist (default ∅ (whitelist app1) ∪ {[ user_id_to_add ]}) app1,
           [Added user_id_to_add])
      end
  end.

(** The body of [remove_admin_command].  Without the key ['whitelist'] the
    lookup raises, which the last handler of the [try] turns into a reply. *)
Definition remove_admin_body (MAIN_ADMIN_ID : Z) (args : list string)
    (upd : update) (app : application_data)
  : application_data * list admin_reply :=
  match args with
  | [] => (app, [RemoveUsage])
  | arg :: _ =>
      match int arg with
      | None => (app, [RemoveUsage])
      | Some user_id_to_remove =>
          if user_id_to_remove =? MAIN_ADMIN_ID then (app, [MainAdminStays])
          else
            match whitelist app with
            | None => (app, [CommandFailed])
            | Some ids =>
                (set_whitelist (ids ∖ {[ user_id_to_remove ]}) app,
                 [Removed user_id_to_remove])
            end
      end
  end.

(** The body of [list_admins_command]: one line for each member. *)
Definition list_admins_body (upd : update) (app : application_data)
  : application_data * list admin_reply :=
  (app, [AdminList (default ∅ (whitelist app))]).

Definition add_admin_command (MAIN_ADMIN_ID : Z) (args : list string) :=
  is_main_admin MAIN_ADMIN_ID (add_admin_body args).

Definition remove_admin_command (MAIN_ADMIN_ID : Z) (args : list string) :=
  is_main_admin MAIN_ADMIN_ID (remove_admin_body MAIN_ADMIN_ID args).

Definition list_admins_command (MAIN_ADMIN_ID : Z) :=
  is_main_admin MAIN_ADMIN_ID list_admins_body.

(** A command of the administrator as it arrives. *)
Inductive admin_command :=
  | AddAdmin (args : list string)
  | RemoveAdmin (args : list string)
  | ListAdmins.

Definition admin_step (MAIN_ADMIN_ID : Z) (request : update * admin_command)
    (app : application_data) : application_data * list admin_reply :=
  match request.2 with
  | AddAdmin args => add_admin_command MAIN_ADMIN_ID args request.1 app
  | RemoveAdmin args => remove_admin_command MAIN_ADMIN_ID args request.1 app
  | ListAdmins => list_admins_command MAIN_ADMIN_ID request.1 app
  end.

(** Commands handled one after the other: the data left behind and the
    replies, in order. *)
Fixpoint admin_run (MAIN_ADMIN_ID : Z) (requests : list (update * admin_command))
    (app : application_data) : application_data * list admin_reply :=
  match requests with
  | [] => (app, [])
  | request :: later =>
      let '(app1, replies) := admin_step MAIN_ADMIN_ID request app in
      let '(app2, replies') := admin_run MAIN_ADMIN_ID later app1 in
      (app2, replies ++ replies')
  end.

(** The request comes from the main administrator. *)
Definition from_main_admin (MAIN_ADMIN_ID : Z)
    (request : update * admin_command) : bool :=
  bool_decide (effective_user request.1 = Some MAIN_ADMIN_ID).

End Admin.

(** ** The birthday broadcast *)

Module Birthday.
Import PyStr.

(** [get_today_birthdays(birthday_data)].  The dictionary is the list of
    its items in their order; [today_date_str] is the day and month of the
    moment of the call in the time zone of the configuration, written
    [%d.%m]. *)
Definition get_today_birthdays (today_date_str : string)
    (birthday_data : list (string * string)) : list (string * string) :=
  List.filter (fun item => String.eqb item.2 today_date_str) birthday_data.

(** What the broadcast sends, and to whom. *)
Inductive delivery :=
  | Typing (chat_id : Z)
  | BirthdayCard (chat_id : Z) (fio_dr callback_data : string)
  | TestNoBirthdays (chat_id : Z)
  | TestFound (chat_id : Z) (count : nat)
  | TestFolderMissing (chat_id : Z) (fio_dr : string)
  | TestFailed (chat_id : Z).

(** Whom a delivery goes to. *)
Definition recipient (d : delivery) : Z :=
  match d with
  | Typing chat_id | BirthdayCard chat_id _ _
  | TestNoBirthdays chat_id | TestFound chat_id _
  | TestFolderMissing chat_id _ | TestFailed chat_id => chat_id
  end.

(** The chat transport as a job meets it: [raises n] tells whether the
    call number [n] of the job, counted from 0, raises.  A call is recorded
    as a delivery whether it raises or not. *)
Definition transport := nat → bool.

(** How a piece of the job ends: it returns, or an exception leaves it. *)
Inductive outcome := Returned | Raised.

(** One call to the transport outside any [try] of its own; [n] is the
    number of the call. *)
Definition call (raises : transport) (d : delivery) (n : nat)
  : list delivery * nat * outcome :=
  ([d], S n, if raises n then Raised else Returned).

(** The middle of [send_birthday_message]: the name is stored under a
    fresh handle, which the button of the message carries. *)
Definition store_name (fio_dr : string) (app : application_data)
  : application_data * string :=
  let bd := handlers_data app in
  let fio_id := default 0 (fio_id_counter app) in
  let callback_data := "full_report" +:+ ":" +:+ str fio_id in
  ({| handlers_data :=
        {| id_counter := id_counter bd;
           pdf_map := pdf_map bd;
           fio_map := Some (<[fio_id := fio_dr]> (default ∅ (fio_map bd)));
           WHITELISTED_USER_IDS := WHITELISTED_USER_IDS bd |};
      fio_id_counter := Some (fio_id + 1);
      whitelist := whitelist app |},
   callback_data).

(** [send_birthday_message].  The typing action comes first and is not
    guarded: when it raises, nothing is stored and the exception goes to
    the caller.  Otherwise the name is stored and the message is sent,
    inside a [try] that swallows what the transport raises. *)
Definition send_birthday_message (raises : transport) (chat_id : Z)
    (fio_dr person_folder_path : string) (app : application_data) (n : nat)
  : application_data * list delivery * nat * outcome :=
  if raises n then (app, [Typing chat_id], S n, Raised)
  else
    let '(app', callback_data) := store_name fio_dr app in
    (app', [Typing chat_id; BirthdayCard chat_id fio_dr callback_data],
     S (S n), Returned).

(** The folder a message is sent for: the one found for the name, when
    its path is not empty. *)
Definition folder_of (cfg : config) (fio_dr : string) : option string :=
  match Handlers.find_folder_by_fio_dr fio_dr (PERSON_FOLDERS cfg) with
  | Some person_folder_path =>
      if truthy person_folder_path then Some person_folder_path else None
  | None => None
  end.

(** Whether the broadcast is switched on for a user of [users]. *)
Definition subscribed (users : gmap Z user_data) (user_id : Z) : bool :=
  get_user_broadcast_status (default fresh_user_data (users !! user_id)).

(** The [else] branch of the loops over today's birthdays: [missing] is
    the message sent for a person without a folder, if the loop has one. *)
Definition report_missing (raises : transport)
    (missing : string → option delivery) (fio_dr : string)
    (app : application_data) (n : nat)
  : application_data * list delivery * nat * outcome :=
  match missing fio_dr with
  | Some d => let '(sent, n1, o) := call raises d n in (app, sent, n1, o)
  | None => (app, [], n, Returned)
  end.

(** The body of the loops over today's birthdays, for one person. *)
Definition send_for (raises : transport) (cfg : config)
    (missing : string → option delivery) (chat_id : Z) (fio_dr : string)
    (app : application_data) (n : nat)
  : application_data * list delivery * nat * outcome :=
  match Handlers.find_folder_by_fio_dr fio_dr (PERSON_FOLDERS cfg) with
  | Some person_folder_path =>
      if truthy person_folder_path
      then send_birthday_message raises chat_id fio_dr person_folder_path
             app n
      else report_missing raises missing fio_dr app n
  | None => report_missing raises missing fio_dr app n
  end.

(** The loop over today's birthdays for one recipient.  It has no [try]
    of its own: the first call that raises ends it. *)
Fixpoint send_birthdays (raises : transport) (cfg : config)
    (missing : string → option delivery) (chat_id : Z)
    (birthdays_today : list (string * string)) (app : application_data)
    (n : nat) : application_data * list delivery * nat * outcome :=
  match birthdays_today with
  | [] => (app, [], n, Returned)
  | (fio_dr, _) :: rest =>
      let '(app1, sent, n1, o) :=
        send_for raises cfg missing chat_id fio_dr app n in
      match o with
      | Raised => (app1, sent, n1, Raised)
      | Returned =>
          let '(app2, sent', n2, o') :=
            send_birthdays raises cfg missing chat_id rest app1 n1 in
          (app2, sent ++ sent', n2, o')
      end
  end.

(** The loop of [birthday_broadcast] over the white list; [users] is
    [application.user_data].  The body of the loop is a [try] whose handler
    logs: an exception ends the turn of the user it was raised for, and the
    loop goes on with the next. *)
Fixpoint broadcast_to (raises : transport) (cfg : config)
    (users : gmap Z user_data) (birthdays_today : list (string * string))
    (user_ids : list Z) (app : application_data) (n : nat)
  : application_data * list delivery * nat :=
  match user_ids with
  | [] => (app, [], n)
  | user_id :: rest =>
      let user_data := default fresh_user_data (users !! user_id) in
      if negb (get_user_broadcast_status user_data)
      then broadcast_to raises cfg users birthdays_today rest app n
      else
        let '(app1, sent, n1, _) :=
          send_birthdays raises cfg (fun _ => None) user_id birthdays_today
            app n in
        let '(app2, sent', n2) :=
          broadcast_to raises cfg users birthdays_today rest app1 n1 in
        (app2, sent ++ sent', n2)
  end.

(** [birthday_broadcast]; the members of the white list are taken in the
    order [elements] gives them. *)
Definition birthday_broadcast (raises : transport) (cfg : config)
    (BIRTHDAYS : list (string * string)) (today_date_str : string)
    (users : gmap Z user_data) (app : application_data)
  : application_data * list delivery :=
  let birthdays_today := get_today_birthdays today_date_str BIRTHDAYS in
  match birthdays_today with
  | [] => (app, [])
  | _ :: _ =>
      let whitelist := default ∅ (whitelist app) in
      if bool_decide (whitelist = ∅) then (app, [])
      else
        (broadcast_to raises cfg users birthdays_today (elements whitelist)
           app 0).1
  end.

(** [birthday_broadcast_test], the job of [/test_broadcast]; [user_id] is
    the chat the command came from.  The count and the loop are inside one
    [try]; its handler sends the message of failure.  An exception of that
    message, or of the message that there is no birthday, leaves the job. *)
Definition birthday_broadcast_test (raises : transport) (cfg : config)
    (BIRTHDAYS : list (string * string)) (today_date_str : string)
    (user_id : Z) (app : application_data) : application_data * list delivery :=
  let birthdays_today := get_today_birthdays today_date_str BIRTHDAYS in
  match birthdays_today with
  | [] => (app, [TestNoBirthdays user_id])
  | _ :: _ =>
      let '(found, n, o) :=
        call raises (TestFound user_id (length birthdays_today)) 0 in
      let '(app', sent, _, o') :=
        match o with
        | Raised => (app, [], n, Raised)
        | Returned =>
            send_birthdays raises cfg
              (fun fio_dr => Some (TestFolderMissing user_id fio_dr))
              user_id birthdays_today app n
        end in
      (app',
       found ++ sent
       ++ match o' with Raised => [TestFailed user_id] | Returned => [] end)
  end.

(** The names on the messages with a button that went to [chat_id], in the
    order of the calls. *)
Definition cards_of (chat_id : Z) (sent : list delivery) : list string :=
  omap (fun d => match d with
                 | BirthdayCard c fio_dr _ =>
                     if c =? chat_id then Some fio_dr else None
                 | _ => None
                 end) sent.

(** The names of [birthdays_today] for which a folder is found, in order. *)
Definition with_folder (cfg : config)
    (birthdays_today : list (string * string)) : list string :=
  List.filter (fun fio_dr => match folder_of cfg fio_dr with
                             | Some _ => true
                             | None => false
                             end) (map fst birthdays_today).

End Birthday.

(** ** What a request to the assistant leaves in the session *)

(** The active document of the session exists and is larger than the
    budget of the assistant. *)
Definition over_budget (cfg : config) (fs : filesystem) (ud : user_data)
  : bool :=
  match get_context_path ud with
  | Some path =>
      truthy path && exists_ fs path
      && match getsize fs path with
         | Some size => Qgtb (megabytes size) (MAX_PDF_SIZE_MB_AI cfg)
         | None => false
         end
  | None => false
  end.

(** A notice that the service failed. *)
Definition is_failure (e : event) : bool :=
  match e with
  | Message AiFailedWithFile | Message AiFailedGeneral => true
  | _ => false
  end.

(** A chunk of an answer of the service. *)
Definition is_answer (e : event) : bool :=
  match e with
  | Message (AnswerText _) => true
  | _ => false
  end.

(** ** Python strings over all of Unicode

    The names the matcher and the catalog work on are Cyrillic in the data
    of the bot.  For the functions whose result depends on the alphabet a
    [str] is here the list of its code points, and [str.lower],
    [str.isspace] and the two patterns are those of the interpreter over
    all of Unicode. *)

Module Unicode.

(** A Python [str]: its code points. *)
Definition str := list N.

(** The code points that well-formed UTF-8 writes as [bytes]. *)
Fixpoint of_utf8 (bytes : list N) : str :=
  match bytes with
  | [] => []
  | b :: r =>
      if (b <? 128)%N then b :: of_utf8 r
      else if (b <? 224)%N then
        match r with
        | b1 :: r' => ((b - 192) * 64 + (b1 - 128))%N :: of_utf8 r'
        | _ => []
        end
      else if (b <? 240)%N then
        match r with
        | b1 :: b2 :: r' =>
            ((b - 224) * 4096 + (b1 - 128) * 64 + (b2 - 128))%N :: of_utf8 r'
        | _ => []
        end
      else
        match r with
        | b1 :: b2 :: b3 :: r' =>
            ((b - 240) * 262144 + (b1 - 128) * 4096 + (b2 - 128) * 64
             + (b3 - 128))%N :: of_utf8 r'
        | _ => []
        end
  end.

(** The code points of a string of the range below 256. *)
Definition of_latin1 (s : string) : str :=
  map N_of_ascii (list_ascii_of_string s).

(** The code points of a literal, which a source file holds in UTF-8. *)
Definition of_string (s : string) : str :=
  of_utf8 (map N_of_ascii (list_ascii_of_string s)).

(** The lower-case mapping of the Unicode database (version 14.0, that of
    CPython 3.11) for the code points whose lower case is one other code
    point: [(first, last, target, step)] maps [first], [first + step], ...
    up to [last] to [target], [target + step], ... *)
Definition lower_ranges : list (N * N * N * N) :=
  [(65, 90, 97, 1); (192, 214, 224, 1); (216, 222, 248, 1);
   (256, 302, 257, 2); (306, 310, 307, 2); (313, 327, 314, 2);
   (330, 374, 331, 2); (376, 376, 255, 1); (377, 381, 378, 2);
   (385, 385, 595, 1); (386, 388, 387, 2); (390, 390, 596, 1);
   (391, 391, 392, 1); (393, 394, 598, 1); (395, 395, 396, 1);
   (398, 398, 477, 1); (399, 399, 601, 1); (400, 400, 603, 1);
   (401, 401, 402, 1); (403, 403, 608, 1); (404, 404, 611, 1);
   (406, 406, 617, 1); (407, 407, 616, 1); (408, 408, 409, 1);
   (412, 412, 623, 1); (413, 413, 626, 1); (415, 415, 629, 1);
   (416, 420, 417, 2); (422, 422, 640, 1); (423, 423, 424, 1);
   (425, 425, 643, 1); (428, 428, 429, 1); (430, 430, 648, 1);
   (431, 431, 432, 1); (433, 434, 650, 1); (435, 437, 436, 2);
   (439, 439, 658, 1); (440, 440, 441, 1); (444, 444, 445, 1);
   (452, 452, 454, 1); (453, 453, 454, 1); (455, 455, 457, 1);
   (456, 456, 457, 1); (458, 458, 460, 1); (459, 475, 460, 2);
   (478, 494, 479, 2); (497, 497, 499, 1); (498, 500, 499, 2);
   (502, 502, 405, 1); (503, 503, 447, 1); (504, 542, 505, 2);
   (544, 544, 414, 1); (546, 562, 547, 2); (570, 570, 11365, 1);
   (571, 571, 572, 1); (573, 573, 410, 1); (574, 574, 11366, 1);
   (577, 577, 578, 1); (579, 579, 384, 1); (580, 580, 649, 1);
   (581, 581, 652, 1); (582, 590, 583, 2); (880, 882, 881, 2);
   (886, 886, 887, 1); (895, 895, 1011, 1); (902, 902, 940, 1);
   (904, 906, 941, 1); (908, 908, 972, 1); (910, 911, 973, 1);
   (913, 929, 945, 1); (931, 939, 963, 1); (975, 975, 983, 1);
   (984, 1006, 985, 2); (1012, 1012, 952, 1); (1015, 1015, 1016, 1);
   (1017, 1017, 1010, 1); (1018, 1018, 1019, 1); (1021, 1023, 891, 1);
   (1024, 1039, 1104, 1); (1040, 1071, 1072, 1); (1120, 1152, 1121, 2);
   (1162, 1214, 1163, 2); (1216, 1216, 1231, 1); (1217, 1229, 1218, 2);
   (1232, 1326, 1233, 2); (1329, 1366, 1377, 1); (4256, 4293, 11520, 1);
   (4295, 4295, 11559, 1); (4301, 4301, 11565, 1); (5024, 5103, 43888, 1);
   (5104, 5109, 5112, 1); (7312, 7354, 4304, 1); (7357, 7359, 4349, 1);
   (7680, 7828, 7681, 2); (7838, 7838, 223, 1); (7840, 7934, 7841, 2);
   (7944, 7951, 7936, 1); (7960, 7965, 7952, 1); (7976, 7983, 7968, 1);
   (7992, 7999, 7984, 1); (8008, 8013, 8000, 1); (8025, 8031, 8017, 2);
   (8040, 8047, 8032, 1); (8072, 8079, 8064, 1); (8088, 8095, 8080, 1);
   (8104, 8111, 8096, 1); (8120, 8121, 8112, 1); (8122, 8123, 8048, 1);
   (8124, 8124, 8115, 1); (8136, 8139, 8050, 1); (8140, 8140, 8131, 1);
   (8152, 8153, 8144, 1); (8154, 8155, 8054, 1); (8168, 8169, 8160, 1);
   (8170, 8171, 8058, 1); (8172, 8172, 8165, 1); (8184, 8185, 8056, 1);
   (8186, 8187, 8060, 1); (8188, 8188, 8179, 1); (8486, 8486, 969, 1);
   (8490, 8490, 107, 1); (8491, 8491, 229, 1); (8498, 8498, 8526, 1);
   (8544, 8559, 8560, 1); (8579, 8579, 8580, 1); (9398, 9423, 9424, 1);
   (11264, 11311, 11312, 1); (11360, 11360, 11361, 1);
   (11362, 11362, 619, 1); (11363, 11363, 7549, 1); (11364, 11364, 637, 1);
   (11367, 11371, 11368, 2); (11373, 11373, 593, 1);
   (11374, 11374, 625, 1); (11375, 11375, 592, 1); (11376, 11376, 594, 1);
   (11378, 11378, 11379, 1); (11381, 11381, 11382, 1);
   (11390, 11391, 575, 1); (11392, 11490, 11393, 2);
   (11499, 11501, 11500, 2); (11506, 11506, 11507, 1);
   (42560, 42604, 42561, 2); (42624, 42650, 42625, 2);
   (42786, 42798, 42787, 2); (42802, 42862, 42803, 2);
   (42873, 42875, 42874, 2); (42877, 42877, 7545, 1);
   (42878, 42886, 42879, 2); (42891, 42891, 42892, 1);
   (42893, 42893, 613, 1); (42896, 42898, 42897, 2);
   (42902, 42920, 42903, 2); (42922, 42922, 614, 1);
   (42923, 42923, 604, 1); (42924, 42924, 609, 1); (42925, 42925, 620, 1);
   (42926, 42926, 618, 1); (42928, 42928, 670, 1); (42929, 42929, 647, 1);
   (42930, 42930, 669, 1); (42931, 42931, 43859, 1);
   (42932, 42946, 42933, 2); (42948, 42948, 42900, 1);
   (42949, 42949, 642, 1); (42950, 42950, 7566, 1);
   (42951, 42953, 42952, 2); (42960, 42960, 42961, 1);
   (42966, 42968, 42967, 2); (42997, 42997, 42998, 1);
   (65313, 65338, 65345, 1); (66560, 66599, 66600, 1);
   (66736, 66771, 66776, 1); (66928, 66938, 66967, 1);
   (66940, 66954, 66979, 1); (66956, 66962, 66995, 1);
   (66964, 66965, 67003, 1); (68736, 68786, 68800, 1);
   (71840, 71871, 71872, 1); (93760, 93791, 93792, 1);
   (125184, 125217, 125218, 1)]%N.

(** The code points with the property [Cased], as ranges. *)
Definition cased_ranges : list (N * N) :=
  [(65, 90); (97, 122); (170, 170); (181, 181); (186, 186); (192, 214);
   (216, 246); (248, 442); (444, 447); (452, 659); (661, 696); (704, 705);
   (736, 740); (837, 837); (880, 883); (886, 887); (890, 893); (895, 895);
   (902, 902); (904, 906); (908, 908); (910, 929); (931, 1013);
   (1015, 1153); (1162, 1327); (1329, 1366); (1376, 1416); (4256, 4293);
   (4295, 4295); (4301, 4301); (4304, 4346); (4349, 4351); (5024, 5109);
   (5112, 5117); (7296, 7304); (7312, 7354); (7357, 7359); (7424, 7615);
   (7680, 7957); (7960, 7965); (7968, 8005); (8008, 8013); (8016, 8023);
   (8025, 8025); (8027, 8027); (8029, 8029); (8031, 8061); (8064, 8116);
   (8118, 8124); (8126, 8126); (8130, 8132); (8134, 8140); (8144, 8147);
   (8150, 8155); (8160, 8172); (8178, 8180); (8182, 8188); (8305, 8305);
   (8319, 8319); (8336, 8348); (8450, 8450); (8455, 8455); (8458, 8467);
   (8469, 8469); (8473, 8477); (8484, 8484); (8486, 8486); (8488, 8488);
   (8490, 8493); (8495, 8500); (8505, 8505); (8508, 8511); (8517, 8521);
   (8526, 8526); (8544, 8575); (8579, 8580); (9398, 9449); (11264, 11492);
   (11499, 11502); (11506, 11507); (11520, 11557); (11559, 11559);
   (11565, 11565); (42560, 42605); (42624, 42653); (42786, 42887);
   (42891, 42894); (42896, 42954); (42960, 42961); (42963, 42963);
   (42965, 42969); (42997, 42998); (43000, 43002); (43824, 43866);
   (43868, 43880); (43888, 43967); (64256, 64262); (64275, 64279);
   (65313, 65338); (65345, 65370); (66560, 66639); (66736, 66771);
   (66776, 66811); (66928, 66938); (66940, 66954); (66956, 66962);
   (66964, 66965); (66967, 66977); (66979, 66993); (66995, 67001);
   (67003, 67004); (67456, 67456); (67459, 67461); (67463, 67504);
   (67506, 67514); (68736, 68786); (68800, 68850); (71840, 71903);
   (93760, 93823); (119808, 119892); (119894, 119964); (119966, 119967);
   (119970, 119970); (119973, 119974); (119977, 119980); (119982, 119993);
   (119995, 119995); (119997, 120003); (120005, 120069); (120071, 120074);
   (120077, 120084); (120086, 120092); (120094, 120121); (120123, 120126);
   (120128, 120132); (120134, 120134); (120138, 120144); (120146, 120485);
   (120488, 120512); (120514, 120538); (120540, 120570); (120572, 120596);
   (120598, 120628); (120630, 120654); (120656, 120686); (120688, 120712);
   (120714, 120744); (120746, 120770); (120772, 120779); (122624, 122633);
   (122635, 122654); (125184, 125251); (127280, 127305); (127312, 127337);
   (127344, 127369)]%N.

(** The code points with the property [Case_Ignorable], as ranges. *)
Definition case_ignorable_ranges : list (N * N) :=
  [(39, 39); (46, 46); (58, 58); (94, 94); (96, 96); (168, 168); (173, 173);
   (175, 175); (180, 180); (183, 184); (688, 879); (884, 885); (890, 890);
   (900, 901); (903, 903); (1155, 1161); (1369, 1369); (1375, 1375);
   (1425, 1469); (1471, 1471); (1473, 1474); (1476, 1477); (1479, 1479);
   (1524, 1524); (1536, 1541); (1552, 1562); (1564, 1564); (1600, 1600);
   (1611, 1631); (1648, 1648); (1750, 1757); (1759, 1768); (1770, 1773);
   (1807, 1807); (1809, 1809); (1840, 1866); (1958, 1968); (2027, 2037);
   (2042, 2042); (2045, 2045); (2070, 2093); (2137, 2139); (2184, 2184);
   (2192, 2193); (2200, 2207); (2249, 2306); (2362, 2362); (2364, 2364);
   (2369, 2376); (2381, 2381); (2385, 2391); (2402, 2403); (2417, 2417);
   (2433, 2433); (2492, 2492); (2497, 2500); (2509, 2509); (2530, 2531);
   (2558, 2558); (2561, 2562); (2620, 2620); (2625, 2626); (2631, 2632);
   (2635, 2637); (2641, 2641); (2672, 2673); (2677, 2677); (2689, 2690);
   (2748, 2748); (2753, 2757); (2759, 2760); (2765, 2765); (2786, 2787);
   (2810, 2815); (2817, 2817); (2876, 2876); (2879, 2879); (2881, 2884);
   (2893, 2893); (2901, 2902); (2914, 2915); (2946, 2946); (3008, 3008);
   (3021, 3021); (3072, 3072); (3076, 3076); (3132, 3132); (3134, 3136);
   (3142, 3144); (3146, 3149); (3157, 3158); (3170, 3171); (3201, 3201);
   (3260, 3260); (3263, 3263); (3270, 3270); (3276, 3277); (3298, 3299);
   (3328, 3329); (3387, 3388); (3393, 3396); (3405, 3405); (3426, 3427);
   (3457, 3457); (3530, 3530); (3538, 3540); (3542, 3542); (3633, 3633);
   (3636, 3642); (3654, 3662); (3761, 3761); (3764, 3772); (3782, 3782);
   (3784, 3789); (3864, 3865); (3893, 3893); (3895, 3895); (3897, 3897);
   (3953, 3966); (3968, 3972); (3974, 3975); (3981, 3991); (3993, 4028);
   (4038, 4038); (4141, 4144); (4146, 4151); (4153, 4154); (4157, 4158);
   (4184, 4185); (4190, 4192); (4209, 4212); (4226, 4226); (4229, 4230);
   (4237, 4237); (4253, 4253); (4348, 4348); (4957, 4959); (5906, 5908);
   (5938, 5939); (5970, 5971); (6002, 6003); (6068, 6069); (6071, 6077);
   (6086, 6086); (6089, 6099); (6103, 6103); (6109, 6109); (6155, 6159);
   (6211, 6211); (6277, 6278); (6313, 6313); (6432, 6434); (6439, 6440);
   (6450, 6450); (6457, 6459); (6679, 6680); (6683, 6683); (6742, 6742);
   (6744, 6750); (6752, 6752); (6754, 6754); (6757, 6764); (6771, 6780);
   (6783, 6783); (6823, 6823); (6832, 6862); (6912, 6915); (6964, 6964);
   (6966, 6970); (6972, 6972); (6978, 6978); (7019, 7027); (7040, 7041);
   (7074, 7077); (7080, 7081); (7083, 7085); (7142, 7142); (7144, 7145);
   (7149, 7149); (7151, 7153); (7212, 7219); (7222, 7223); (7288, 7293);
   (7376, 7378); (7380, 7392); (7394, 7400); (7405, 7405); (7412, 7412);
   (7416, 7417); (7468, 7530); (7544, 7544); (7579, 7679); (8125, 8125);
   (8127, 8129); (8141, 8143); (8157, 8159); (8173, 8175); (8189, 8190);
   (8203, 8207); (8216, 8217); (8228, 8228); (8231, 8231); (8234, 8238);
   (8288, 8292); (8294, 8303); (8305, 8305); (8319, 8319); (8336, 8348);
   (8400, 8432); (11388, 11389); (11503, 11505); (11631, 11631);
   (11647, 11647); (11744, 11775); (11823, 11823); (12293, 12293);
   (12330, 12333); (12337, 12341); (12347, 12347); (12441, 12446);
   (12540, 12542); (40981, 40981); (42232, 42237); (42508, 42508);
   (42607, 42610); (42612, 42621); (42623, 42623); (42652, 42655);
   (42736, 42737); (42752, 42785); (42864, 42864); (42888, 42890);
   (42994, 42996); (43000, 43001); (43010, 43010); (43014, 43014);
   (43019, 43019); (43045, 43046); (43052, 43052); (43204, 43205);
   (43232, 43249); (43263, 43263); (43302, 43309); (43335, 43345);
   (43392, 43394); (43443, 43443); (43446, 43449); (43452, 43453);
   (43471, 43471); (43493, 43494); (43561, 43566); (43569, 43570);
   (43573, 43574); (43587, 43587); (43596, 43596); (43632, 43632);
   (43644, 43644); (43696, 43696); (43698, 43700); (43703, 43704);
   (43710, 43711); (43713, 43713); (43741, 43741); (43756, 43757);
   (43763, 43764); (43766, 43766); (43867, 43871); (43881, 43883);
   (44005, 44005); (44008, 44008); (44013, 44013); (64286, 64286);
   (64434, 64450); (65024, 65039); (65043, 65043); (65056, 65071);
   (65106, 65106); (65109, 65109); (65279, 65279); (65287, 65287);
   (65294, 65294); (65306, 65306); (65342, 65342); (65344, 65344);
   (65392, 65392); (65438, 65439); (65507, 65507); (65529, 65531);
   (66045, 66045); (66272, 66272); (66422, 66426); (67456, 67461);
   (67463, 67504); (67506, 67514); (68097, 68099); (68101, 68102);
   (68108, 68111); (68152, 68154); (68159, 68159); (68325, 68326);
   (68900, 68903); (69291, 69292); (69446, 69456); (69506, 69509);
   (69633, 69633); (69688, 69702); (69744, 69744); (69747, 69748);
   (69759, 69761); (69811, 69814); (69817, 69818); (69821, 69821);
   (69826, 69826); (69837, 69837); (69888, 69890); (69927, 69931);
   (69933, 69940); (70003, 70003); (70016, 70017); (70070, 70078);
   (70089, 70092); (70095, 70095); (70191, 70193); (70196, 70196);
   (70198, 70199); (70206, 70206); (70367, 70367); (70371, 70378);
   (70400, 70401); (70459, 70460); (70464, 70464); (70502, 70508);
   (70512, 70516); (70712, 70719); (70722, 70724); (70726, 70726);
   (70750, 70750); (70835, 70840); (70842, 70842); (70847, 70848);
   (70850, 70851); (71090, 71093); (71100, 71101); (71103, 71104);
   (71132, 71133); (71219, 71226); (71229, 71229); (71231, 71232);
   (71339, 71339); (71341, 71341); (71344, 71349); (71351, 71351);
   (71453, 71455); (71458, 71461); (71463, 71467); (71727, 71735);
   (71737, 71738); (71995, 71996); (71998, 71998); (72003, 72003);
   (72148, 72151); (72154, 72155); (72160, 72160); (72193, 72202);
   (72243, 72248); (72251, 72254); (72263, 72263); (72273, 72278);
   (72281, 72283); (72330, 72342); (72344, 72345); (72752, 72758);
   (72760, 72765); (72767, 72767); (72850, 72871); (72874, 72880);
   (72882, 72883); (72885, 72886); (73009, 73014); (73018, 73018);
   (73020, 73021); (73023, 73029); (73031, 73031); (73104, 73105);
   (73109, 73109); (73111, 73111); (73459, 73460); (78896, 78904);
   (92912, 92916); (92976, 92982); (92992, 92995); (94031, 94031);
   (94095, 94111); (94176, 94177); (94179, 94180); (110576, 110579);
   (110581, 110587); (110589, 110590); (113821, 113822); (113824, 113827);
   (118528, 118573); (118576, 118598); (119143, 119145); (119155, 119170);
   (119173, 119179); (119210, 119213); (119362, 119364); (121344, 121398);
   (121403, 121452); (121461, 121461); (121476, 121476); (121499, 121503);
   (121505, 121519); (122880, 122886); (122888, 122904); (122907, 122913);
   (122915, 122916); (122918, 122922); (123184, 123197); (123566, 123566);
   (123628, 123631); (125136, 125142); (125252, 125259); (127995, 127999);
   (917505, 917505); (917536, 917631); (917760, 917999)]%N.

(** Whether [c] lies in one of the ranges. *)
Definition in_ranges (c : N) (ranges : list (N * N)) : bool :=
  existsb (fun r => (r.1 <=? c) && (c <=? r.2))%N ranges.

(** [_PyUnicode_IsCased] *)
Definition cased (c : N) : bool := in_ranges c cased_ranges.

(** [_PyUnicode_IsCaseIgnorable] *)
Definition case_ignorable (c : N) : bool := in_ranges c case_ignorable_ranges.

(** The pairs of a row of [lower_ranges]. *)
Definition row_pairs (row : N * N * N * N) : list (N * N) :=
  let '(first, last, target, step) := row in
  map (fun k => (first + step * N.of_nat k, target + step * N.of_nat k)%N)
      (seq 0 (S (N.to_nat ((last - first) / step)))).

(** The lower-case mapping as pairs of a code point and its lower case. *)
Definition lower_pairs : list (N * N) :=
  Eval vm_compute in flat_map row_pairs lower_ranges.

(** [_PyUnicode_ToLowercase]: the simple lower case of a code point. *)
Definition to_lower (c : N) : N :=
  if (c =? 304)%N then 105%N
  else match List.find (fun p => (p.1 =? c)%N) lower_pairs with
       | Some p => p.2
       | None => c
       end.

(** [_PyUnicode_ToLowerFull]: the lower case of a code point as [str.lower]
    writes it, which is the simple one but for U+0130, whose lower case is
    an [i] and a combining dot. *)
Definition to_lower_full (c : N) : str :=
  if (c =? 304)%N then [105; 775]%N else [to_lower c].

(** The scans of [handle_capital_sigma] pass over the code points that are
    case-ignorable. *)
Fixpoint skip_case_ignorable (s : str) : str :=
  match s with
  | [] => []
  | c :: r => if case_ignorable c then skip_case_ignorable r else s
  end.

(** The backward scan: a cased code point comes before, case-ignorable
    ones aside.  [before] is what precedes, last code point first. *)
Definition cased_before (before : str) : bool :=
  match skip_case_ignorable before with
  | [] => false
  | c :: _ => cased c
  end.

(** The forward scan: no cased code point comes after, case-ignorable ones
    aside. *)
Definition uncased_after (after : str) : bool :=
  match skip_case_ignorable after with
  | [] => true
  | c :: _ => negb (cased c)
  end.

(** [handle_capital_sigma]: whether a capital sigma is in the context
    [Final_Sigma]; the forward scan is made only when the backward one
    succeeds. *)
Definition final_sigma (before after : str) : bool :=
  cased_before before && uncased_after after.

(** The loop of [do_lower]; [before] is what was passed, last code point
    first. *)
Fixpoint lower_from (before : str) (s : str) : str :=
  match s with
  | [] => []
  | c :: r =>
      (if (c =? 931)%N
       then [if final_sigma before r then 962%N else 963%N]
       else to_lower_full c)
      ++ lower_from (c :: before) r
  end.

(** [s.lower()] *)
Definition lower (s : str) : str := lower_from [] s.

(** The code points [str.isspace] holds of, which are also the regex class
    [\s] of a [str] pattern. *)
Definition whitespace : list N :=
  [9; 10; 11; 12; 13; 28; 29; 30; 31; 32; 133; 160; 5760;
   8192; 8193; 8194; 8195; 8196; 8197; 8198; 8199; 8200; 8201; 8202;
   8232; 8233; 8239; 8287; 12288]%N.

Definition isspace (c : N) : bool := existsb (N.eqb c) whitespace.

(** [s.replace('_', ' ')] *)
Definition replace_underscores (s : str) : str :=
  map (fun c => if (c =? 95)%N then 32%N else c) s.

(** [s.lstrip()] *)
Fixpoint lstrip (s : str) : str :=
  match s with
  | [] => []
  | c :: r => if isspace c then lstrip r else s
  end.

(** [s.rstrip()] *)
Fixpoint rstrip (s : str) : str :=
  match s with
  | [] => []
  | c :: r =>
      match rstrip r with
      | [] => if isspace c then [] else [c]
      | r' => c :: r'
      end
  end.

(** [s.strip()] *)
Definition strip (s : str) : str := rstrip (lstrip s).

Definition cons_word (w : str) (ws : list str) : list str :=
  match w with [] => ws | _ => w :: ws end.

(** The word that starts the string (empty when the string starts with
    white space) and the words after it. *)
Fixpoint split_go (s : str) : str * list str :=
  match s with
  | [] => ([], [])
  | c :: r =>
      let '(w, ws) := split_go r in
      if isspace c then ([], cons_word w ws) else (c :: w, ws)
  end.

(** [s.split()]: the maximal runs of code points that are not white
    space. *)
Definition split (s : str) : list str :=
  let '(w, ws) := split_go s in cons_word w ws.

(** [s.startswith(p)] *)
Fixpoint startswith (p s : str) : bool :=
  match p, s with
  | [], _ => true
  | a :: p', b :: s' => (a =? b)%N && startswith p' s'
  | _ :: _, [] => false
  end.

(** [w in s] *)
Fixpoint contains (w s : str) : bool :=
  startswith w s ||
  match s with
  | [] => false
  | _ :: r => contains w r
  end.

(** The class [[\s_]] of the normalising pattern. *)
Definition isdelim (c : N) : bool := isspace c || (c =? 95)%N.

(** [re.sub(r'[\s_]+', ' ', s)]: [in_run] holds while the scan is inside a
    run that has already produced its space. *)
Fixpoint collapse_from (in_run : bool) (s : str) : str :=
  match s with
  | [] => []
  | c :: r =>
      if isdelim c
      then (if in_run then collapse_from true r
            else 32%N :: collapse_from true r)
      else c :: collapse_from false r
  end.

Definition collapse (s : str) : str := collapse_from false s.

(** Whether the code point [c] matches the lower-case letter [p] of a
    pattern compiled with [re.IGNORECASE]: the simple lower case of [c] is
    [p], or one of the two other code points that the compiler puts beside a
    letter, the long s beside [s] and the Kelvin sign beside [k]. *)
Definition matches_letter (p c : N) : bool :=
  let l := to_lower c in
  ((l =? p) || (p =? 115) && (l =? 383) || (p =? 107) && (l =? 8490))%N.

(** Drop the letters [p] from the front of [s], matching them as a pattern
    compiled with [re.IGNORECASE] does. *)
Fixpoint drop_prefix_ci (p s : str) : option str :=
  match p, s with
  | [], _ => Some s
  | a :: p', b :: s' =>
      if matches_letter a b then drop_prefix_ci p' s' else None
  | _ :: _, [] => None
  end.

(** [SHERLOCK_PREFIX_PATTERN.sub('', s)] for the pattern
    [^\s*Sherlock\s*[—_-]?\s*], whose class holds the em dash U+2014, the
    underscore and the hyphen: anchored at the start, so at most one match
    is removed; every quantifier is greedy and none can give a code point
    back to what follows it. *)
Definition sherlock_sub (s : str) : str :=
  match drop_prefix_ci (of_string "sherlock") (lstrip s) with
  | None => s
  | Some s2 =>
      let s3 := lstrip s2 in
      let s4 := match s3 with
                | c :: r =>
                    if ((c =? 8212) || (c =? 95) || (c =? 45))%N
                    then r else s3
                | [] => s3
                end in
      lstrip s4
  end.

(** [os.path.basename(p)] of [posixpath]: what follows the last
    separator. *)
Fixpoint basename (p : str) : str :=
  match p with
  | [] => []
  | c :: r =>
      if existsb (N.eqb 47) r then basename r
      else if (c =? 47)%N then r else p
  end.

(** [re.sub(r'[\s_]+', ' ', query.lower()).strip().split()] *)
Definition query_words (query : str) : list str :=
  split (strip (collapse (lower query))).

(** The name a folder is matched by: [re.sub(r'[\s_]+', ' ', n).strip()]
    for [n = SHERLOCK_PREFIX_PATTERN.sub('', folder_name).lower()]. *)
Definition folder_name_lower_cleaned (folder_path : str) : str :=
  strip (collapse (lower (sherlock_sub (basename folder_path)))).

(** The loop of [find_folder_matches]: [matches] grows at its end. *)
Fixpoint scan_folders (words : list str) (folders matches : list str)
  : list str :=
  match folders with
  | [] => matches
  | folder_path :: rest =>
      let folder_name_lower_cleaned := folder_name_lower_cleaned folder_path in
      let all_words_in_name :=
        forallb (fun word => contains word folder_name_lower_cleaned) words in
      scan_folders words rest
        (if all_words_in_name then matches ++ [folder_path] else matches)
  end.

(** [find_folder_matches(query, folders)] *)
Definition find_folder_matches (query : str) (folders : list str)
  : list str :=
  match query_words query with
  | [] => []
  | words => scan_folders words folders []
  end.

(** [find_folder_by_fio_dr(fio_dr, folders)] *)
Definition find_folder_by_fio_dr (fio_dr : str) (folders : list str)
  : option str :=
  let clean_fio_dr :=
    strip (replace_underscores (lower (sherlock_sub fio_dr))) in
  List.find
    (fun folder_path =>
       bool_decide
         (strip (replace_underscores
                   (lower (sherlock_sub (basename folder_path))))
          = clean_fio_dr))
    folders.

(** The first piece of [s.split(c)] and the pieces after it. *)
Fixpoint split_on_go (c : N) (s : str) : str * list str :=
  match s with
  | [] => ([], [])
  | d :: r =>
      let '(w, ws) := split_on_go c r in
      if (d =? c)%N then ([], w :: ws) else (d :: w, ws)
  end.

(** [s.split(c)] for a separator of one code point. *)
Definition split_on (c : N) (s : str) : list str :=
  let '(w, ws) := split_on_go c s in w :: ws.

(** [os.path.join(a, b)] of [posixpath] *)
Definition join (a b : str) : str :=
  if startswith [47%N] b then b
  else if bool_decide (a = []) || bool_decide (last a = Some 47%N)
  then a ++ b
  else a ++ [47%N] ++ b.

(** [sep.join(comps)] *)
Fixpoint join_with (sep : str) (comps : list str) : str :=
  match comps with
  | [] => []
  | [comp] => comp
  | comp :: rest => comp ++ sep ++ join_with sep rest
  end.

(** The loop of [posixpath.normpath] over the components of a path;
    [initial_slashes] is 0, 1 or 2. *)
Fixpoint normalize_comps (initial_slashes : nat) (comps new_comps : list str)
  : list str :=
  match comps with
  | [] => new_comps
  | comp :: rest =>
      if bool_decide (comp = []) || bool_decide (comp = [46%N])
      then normalize_comps initial_slashes rest new_comps
      else if negb (bool_decide (comp = [46%N; 46%N]))
              || (Nat.eqb initial_slashes 0
                  && bool_decide (new_comps = []))
              || bool_decide (last new_comps = Some [46%N; 46%N])
      then normalize_comps initial_slashes rest (new_comps ++ [comp])
      else normalize_comps initial_slashes rest (removelast new_comps)
  end.

(** [os.path.normpath(path)] of [posixpath] *)
Definition normpath (path : str) : str :=
  if bool_decide (path = []) then [46%N]
  else
    let initial_slashes :=
      if startswith [47%N] path
      then if startswith [47%N; 47%N] path
              && negb (startswith [47%N; 47%N; 47%N] path)
           then 2%nat else 1%nat
      else 0%nat in
    let comps := normalize_comps initial_slashes (split_on 47 path) [] in
    let path' := replicate initial_slashes 47%N ++ join_with [47%N] comps in
    if bool_decide (path' = []) then [46%N] else path'.

(** [s.index(sub)]: where [sub] first occurs in [s]; [None] is its
    ValueError. *)
Fixpoint index (sub s : str) : option nat :=
  if startswith sub s then Some O
  else match s with
       | [] => None
       | _ :: r => S <$> index sub r
       end.

(** The text files as [open(path, 'r', encoding='utf-8')] reads them: the
    text of the file at a path, when there is one and it can be read and
    decoded; line ends are ['\n']. *)
Definition files := gmap str str.

(** The lines of a text file as the iteration over the file yields them,
    without their line ends. *)
Definition lines (content : str) : list str := split_on 10 content.

(** One round of the loop of [load_file_paths]: the path from the base
    folder on, or nothing when the base folder does not occur in it.  The
    position is looked for in the lower-case path and the cut is made in
    the path itself. *)
Definition relative_to (lower_base_folder path : str) : option str :=
  let normalized_path := normpath path in
  let lower_normalized_path := lower normalized_path in
  match index lower_base_folder lower_normalized_path with
  | Some base_index => Some (drop base_index normalized_path)
  | None => None
  end.

(** [load_file_paths(file_path)] *)
Definition load_file_paths (script_dir base_folder_name : str)
    (fs : files) (file_path : str) : list str :=
  let full_file_path := join script_dir file_path in
  match fs !! full_file_path with
  | None => []
  | Some content =>
      let paths :=
        List.filter (fun line => negb (bool_decide (line = [])))
          (map strip (lines content)) in
      let lower_base_folder := lower base_folder_name in
      omap (relative_to lower_base_folder) paths
  end.

End Unicode.

(** The specification's wording of the matcher, over the same strings. *)
Module MatcherSpec.
Import Unicode.

(** "collapse runs of whitespace/underscore to single spaces, lowercase,
    trim" *)
Definition normalize (s : str) : str := strip (lower (collapse s)).

(** "split into words" *)
Definition words (query : str) : list str := split (normalize query).

(** [w] occurs in [s] as a substring. *)
Definition Substring (w s : str) : Prop :=
  ∃ before after, s = before ++ w ++ after.

(** The cleaned display name of a folder, normalised the same way. *)
Definition display (folder : str) : str :=
  normalize (sherlock_sub (basename folder)).

(** "require every query word to appear as a substring of the cleaned
    name" *)
Definition Matches (query folder : str) : Prop :=
  ∀ w, w ∈ words query → Substring w (display folder).

End MatcherSpec.

(** * Theorems *)

(** ** Facts about strings *)

Section StringFacts.
Import PyStr.

Lemma app_nil_l (s : string) : "" +:+ s = s.
Proof. reflexivity. Qed.

Lemma app_cons (c : ascii) (a b : string) :
  String c a +:+ b = String c (a +:+ b).
Proof. reflexivity. Qed.

Lemma prefix_spec (w s : string) :
  String.prefix w s = true ↔ ∃ rest, s = w +:+ rest.
Proof.
  revert s. induction w as [|a w IH]; intros [|b s]; simpl.
  - split; [intros _; now exists "" | reflexivity].
  - split; [intros _; now exists (String b s) | reflexivity].
  - split; [discriminate|].
    intros [rest H]. rewrite app_cons in H. discriminate.
  - destruct (ascii_dec a b) as [->|Hne].
    + rewrite IH. split; intros [rest H]; exists rest.
      * rewrite app_cons. now f_equal.
      * rewrite app_cons in H. now injection H.
    + split; [discriminate|].
      intros [rest H]. rewrite app_cons in H. injection H as H1 _. congruence.
Qed.

End StringFacts.

(** ** Lower case and the normalising pattern over Unicode *)

Section UnicodeFacts.
Import Unicode.

(** The code points of the class [[\s_]]. *)
Lemma isdelim_elem (c : N) :
  isdelim c = true ↔ c ∈ whitespace ++ [95%N].
Proof.
  unfold isdelim, isspace.
  rewrite orb_true_iff, existsb_exists, elem_of_app, list_elem_of_singleton.
  rewrite N.eqb_eq. split.
  - intros [(x & Hx & Heq)|Heq]; [left|now right].
    apply N.eqb_eq in Heq as ->. now apply list_elem_of_In.
  - intros [H|Heq]; [left|now right].
    exists c. split; [now apply list_elem_of_In|apply N.eqb_refl].
Qed.

(** Lower case leaves the code points of the class as they are, and they
    play no part in the context of a sigma. *)
Lemma delim_lower (c : N) :
  isdelim c = true →
  (c =? 931)%N = false ∧ to_lower_full c = [c]
  ∧ cased c = false ∧ case_ignorable c = false.
Proof.
  intros H%isdelim_elem. revert c H. apply Forall_forall.
  apply (Forall_impl
           (λ c, bool_decide ((c =? 931)%N = false ∧ to_lower_full c = [c]
                 ∧ cased c = false ∧ case_ignorable c = false) = true)).
  2:{ intros c. apply bool_decide_eq_true_1. }
  apply Forall_forall. intros c Hc%list_elem_of_In.
  revert c Hc. apply forallb_forall. vm_compute. reflexivity.
Qed.

(** What the table of lower case holds of a code point. *)
Lemma to_lower_cases (c : N) :
  to_lower c = c
  ∨ (c = 304%N ∧ to_lower c = 105%N)
  ∨ (c, to_lower c) ∈ lower_pairs.
Proof.
  unfold to_lower. destruct (N.eqb_spec c 304) as [->|_]; [right; now left|].
  destruct (List.find _ lower_pairs) as [p|] eqn:E; [|now left].
  apply find_some in E as [Hin Hp]. apply N.eqb_eq in Hp as <-.
  right. right. apply list_elem_of_In. now destruct p.
Qed.

(** No code point has a lower case in the class [[\s_]], the code points of
    the class apart. *)
Lemma nondelim_lower (c : N) :
  isdelim c = false → Forall (λ x, isdelim x = false) (to_lower_full c).
Proof.
  intros Hc. unfold to_lower_full.
  destruct (N.eqb_spec c 304) as [->|_]; [now repeat constructor|].
  constructor; [|constructor].
  destruct (to_lower_cases c) as [->|[[-> _]|Hin]]; [exact Hc|exact Hc|].
  assert (forallb (λ p : N * N, negb (isdelim p.2)) lower_pairs = true) as H
    by (vm_compute; reflexivity).
  rewrite forallb_forall in H.
  apply list_elem_of_In, H in Hin. now apply negb_true_iff in Hin.
Qed.

Lemma uncased_after_collapse (s : str) :
  uncased_after (collapse_from false s) = uncased_after s.
Proof.
  induction s as [|c s IH]; [reflexivity|]. cbn [collapse_from].
  destruct (isdelim c) eqn:Hc.
  - destruct (delim_lower c Hc) as (_ & _ & Hcased & Hign).
    unfold uncased_after. cbn [skip_case_ignorable]. now rewrite Hign, Hcased.
  - unfold uncased_after in *. cbn [skip_case_ignorable].
    now destruct (case_ignorable c).
Qed.

Lemma cased_before_cons (c : N) (before : str) :
  cased_before (c :: before)
  = if case_ignorable c then cased_before before else cased c.
Proof.
  unfold cased_before. cbn [skip_case_ignorable].
  now destruct (case_ignorable c).
Qed.

Lemma cased_before_delim (c : N) (before : str) :
  isdelim c = true → cased_before (c :: before) = false.
Proof.
  intros Hc. destruct (delim_lower c Hc) as (_ & _ & Hcased & Hign).
  now rewrite cased_before_cons, Hign.
Qed.

(** Inside a run the pattern writes nothing; after a code point outside
    the class it starts afresh. *)
Lemma collapse_from_nondelims (in_run : bool) (x s : str) :
  x ≠ [] → Forall (λ c, isdelim c = false) x →
  collapse_from in_run (x ++ s) = x ++ collapse_from false s.
Proof.
  intros Hne Hx. revert in_run Hne.
  induction Hx as [|c x Hc Hx IH]; intros in_run Hne; [congruence|].
  cbn [List.app collapse_from]. rewrite Hc. f_equal.
  destruct x as [|d x]; [reflexivity|]. now apply IH.
Qed.

Lemma to_lower_full_nonempty (c : N) : to_lower_full c ≠ [].
Proof. unfold to_lower_full. now destruct (c =? 304)%N. Qed.

(** Lower case and the normalising pattern commute: a run of the class
    neither changes under lower case nor bears on the context of a sigma
    beside it. *)
Lemma collapse_from_lower (in_run : bool) (s before before' : str) :
  cased_before before = cased_before before' →
  (in_run = true → cased_before before' = false) →
  lower_from before' (collapse_from in_run s)
  = collapse_from in_run (lower_from before s).
Proof.
  revert in_run before before'.
  induction s as [|c s IH]; intros in_run before before' Hctx Hrun;
    [reflexivity|].
  cbn [collapse_from lower_from]. destruct (isdelim c) eqn:Hc.
  - destruct (delim_lower c Hc) as (Hsigma & Hlow & _).
    rewrite Hsigma, Hlow. cbn [List.app collapse_from]. rewrite Hc.
    destruct in_run.
    + apply IH; [|exact Hrun].
      rewrite cased_before_delim by exact Hc. now rewrite Hrun.
    + cbn [lower_from]. change (32 =? 931)%N with false.
      change (to_lower_full 32) with [32%N]. cbn [List.app]. f_equal.
      apply IH; [now rewrite !cased_before_delim|].
      intros _. now apply cased_before_delim.
  - cbn [lower_from].
    assert (final_sigma before' (collapse_from false s) = final_sigma before s)
      as Hfinal
      by (unfold final_sigma; now rewrite Hctx, uncased_after_collapse).
    rewrite Hfinal.
    set (x := if (c =? 931)%N then _ else _).
    assert (x ≠ [] ∧ Forall (λ c, isdelim c = false) x) as [Hne Hx].
    { subst x. destruct (c =? 931)%N.
      - split; [discriminate|]. constructor; [|constructor].
        now destruct (final_sigma before s).
      - split; [apply to_lower_full_nonempty|now apply nondelim_lower]. }
    rewrite collapse_from_nondelims by assumption. f_equal.
    apply IH; [now rewrite !cased_before_cons, Hctx|discriminate].
Qed.

Lemma collapse_lower (s : str) : collapse (lower s) = lower (collapse s).
Proof. symmetry. now apply collapse_from_lower. Qed.

(** A code point that lower case leaves as it is, and that is not the
    capital sigma. *)
Lemma lower_from_fixed (before s : str) :
  Forall (λ c, (c =? 931)%N = false ∧ to_lower_full c = [c]) s →
  lower_from before s = s.
Proof.
  intros H. revert before.
  induction H as [|c s [Hsigma Hc] _ IH]; intros before; [reflexivity|].
  cbn [lower_from]. now rewrite Hsigma, Hc, IH.
Qed.

Lemma to_lower_full_fixed (c : N) :
  (c =? 931)%N = false →
  Forall (λ x, (x =? 931)%N = false ∧ to_lower_full x = [x]) (to_lower_full c).
Proof.
  intros Hsigma. unfold to_lower_full at 2.
  destruct (N.eqb_spec c 304) as [->|Hdot]; [now repeat constructor|].
  constructor; [|constructor].
  destruct (to_lower_cases c) as [Heq|[[-> _]|Hin]]; [|congruence|].
  - rewrite Heq. split; [exact Hsigma|]. unfold to_lower_full.
    rewrite (proj2 (N.eqb_neq _ _) Hdot). now rewrite Heq.
  - assert (forallb (λ p : N * N,
              negb (p.2 =? 931)%N
              && bool_decide (to_lower_full p.2 = [p.2])) lower_pairs = true)
      as H by (vm_compute; reflexivity).
    rewrite forallb_forall in H.
    apply list_elem_of_In, H in Hin. cbn [snd] in Hin.
    apply andb_true_iff in Hin as [H1 H2].
    split; [now apply negb_true_iff in H1|now apply bool_decide_eq_true_1 in H2].
Qed.

Lemma lower_from_is_fixed (before s : str) :
  Forall (λ x, (x =? 931)%N = false ∧ to_lower_full x = [x])
    (lower_from before s).
Proof.
  revert before. induction s as [|c s IH]; intros before; [constructor|].
  cbn [lower_from]. apply Forall_app_2; [|apply IH].
  destruct (c =? 931)%N eqn:Hsigma; [|now apply to_lower_full_fixed].
  constructor; [|constructor]. now destruct (final_sigma before s).
Qed.

(** Lower case twice is lower case once. *)
Lemma lower_idemp (s : str) : lower (lower s) = lower s.
Proof. apply lower_from_fixed, lower_from_is_fixed. Qed.

Lemma collapse_from_underscores (in_run : bool) (s : str) :
  collapse_from in_run (replace_underscores s) = collapse_from in_run s.
Proof.
  unfold replace_underscores. revert in_run.
  induction s as [|c s IH]; intros in_run; [reflexivity|].
  cbn [map collapse_from]. destruct (N.eqb_spec c 95) as [->|Hc].
  - change (isdelim 32) with true. change (isdelim 95) with true.
    destruct in_run; now rewrite IH.
  - destruct (isdelim c); [destruct in_run|]; now rewrite IH.
Qed.

End UnicodeFacts.

(** ** The matcher returns the folders that contain every query word *)

Section MatcherFacts.
Import Unicode.

Lemma startswith_spec (w s : str) :
  startswith w s = true ↔ ∃ rest, s = w ++ rest.
Proof.
  revert s. induction w as [|a w IH]; intros [|b s]; cbn [startswith].
  - split; [intros _; now exists [] | reflexivity].
  - split; [intros _; now exists (b :: s) | reflexivity].
  - split; [discriminate|]. now intros [rest [=]].
  - rewrite andb_true_iff, N.eqb_eq, IH. split.
    + intros [-> [rest ->]]. now exists rest.
    + intros [rest [= -> ->]]. split; [reflexivity|now exists rest].
Qed.

Lemma contains_spec (w s : str) :
  contains w s = true ↔ MatcherSpec.Substring w s.
Proof.
  unfold MatcherSpec.Substring. split.
  - induction s as [|c s IH]; cbn [contains]; rewrite orb_true_iff.
    + intros [H|[=]]. apply startswith_spec in H as [rest H].
      now exists [], rest.
    + intros [H|H].
      * apply startswith_spec in H as [rest H]. now exists [], rest.
      * destruct (IH H) as (before & after & ->).
        now exists (c :: before), after.
  - intros (before & after & ->).
    induction before as [|c before IH].
    + assert (startswith w (w ++ after) = true) as H
        by (apply startswith_spec; now exists after).
      cbn [List.app]. destruct (w ++ after); cbn [contains]; now rewrite H.
    + cbn [List.app contains]. rewrite IH. apply orb_true_r.
Qed.

Lemma query_words_normalize (query : str) :
  query_words query = MatcherSpec.words query.
Proof.
  unfold query_words, MatcherSpec.words, MatcherSpec.normalize.
  now rewrite collapse_lower.
Qed.

Lemma folder_name_display (folder : str) :
  folder_name_lower_cleaned folder = MatcherSpec.display folder.
Proof.
  unfold folder_name_lower_cleaned, MatcherSpec.display, MatcherSpec.normalize.
  now rewrite collapse_lower.
Qed.

Lemma all_words_in_name_spec (query folder : str) :
  forallb (fun word => contains word (folder_name_lower_cleaned folder))
    (MatcherSpec.words query) = true
  ↔ MatcherSpec.Matches query folder.
Proof.
  unfold MatcherSpec.Matches. rewrite forallb_forall, folder_name_display.
  split; intros H w Hw.
  - apply contains_spec, H, list_elem_of_In, Hw.
  - apply contains_spec, H, list_elem_of_In, Hw.
Qed.

#[global] Instance Matches_dec (query folder : str) :
  Decision (MatcherSpec.Matches query folder).
Proof.
  destruct (forallb
              (fun word => contains word (folder_name_lower_cleaned folder))
              (MatcherSpec.words query)) eqn:E.
  - left. now apply all_words_in_name_spec.
  - right. intros H. apply all_words_in_name_spec in H. congruence.
Defined.

Lemma scan_folders_filter (query : str) (folders matches : list str) :
  scan_folders (MatcherSpec.words query) folders matches
  = matches ++ filter (MatcherSpec.Matches query) folders.
Proof.
  revert matches.
  induction folders as [|f folders IH]; intros matches; cbn [scan_folders].
  - now rewrite app_nil_r.
  - rewrite IH.
    destruct (forallb _ (MatcherSpec.words query)) eqn:E.
    + rewrite filter_cons_True by now apply all_words_in_name_spec.
      now rewrite <- app_assoc.
    + rewrite filter_cons_False; [reflexivity|].
      intros H. apply all_words_in_name_spec in H. congruence.
Qed.

Lemma find_folder_matches_filter (query : str) (folders : list str) :
  MatcherSpec.words query ≠ [] →
  find_folder_matches query folders
  = filter (MatcherSpec.Matches query) folders.
Proof.
  intros Hne. unfold find_folder_matches. rewrite query_words_normalize.
  destruct (MatcherSpec.words query) as [|w ws] eqn:E; [congruence|].
  rewrite <- E. apply scan_folders_filter.
Qed.

Lemma collapse_in_run_all_delim (s : str) :
  forallb isdelim s = true → collapse_from true s = [].
Proof.
  induction s as [|c s IH]; cbn [forallb collapse_from]; [reflexivity|].
  rewrite andb_true_iff. intros [-> Hs]. now apply IH.
Qed.

Lemma strip_collapse_all_delim (s : str) :
  forallb isdelim s = true → strip (lower (collapse s)) = [].
Proof.
  destruct s as [|c s]; cbn [forallb]; [reflexivity|].
  rewrite andb_true_iff. intros [Hc Hs].
  unfold collapse. cbn [collapse_from].
  now rewrite Hc, (collapse_in_run_all_delim s Hs).
Qed.

(** C1.  [find_folder_matches] returns exactly the folders whose cleaned,
    lowercased, underscore-normalised basename contains every word of the
    normalised query as a substring, in the order of the folder list; when
    the query normalises to no word the result is empty whatever the
    folders are (the loop is not entered), and a query made of white space
    and underscores only, the empty query included, normalises to no word.
    The function is total: no input makes it fail.  Queries and names are
    strings of any code points, and lower case is that of the interpreter:
    the order in which the specification and the program lower and
    collapse does not matter, since the two commute. *)
Theorem find_folder_matches_exact (query : str) (folders : list str) :
  (MatcherSpec.words query ≠ [] →
     find_folder_matches query folders
     = filter (MatcherSpec.Matches query) folders
     ∧ ∀ folder,
         folder ∈ find_folder_matches query folders
         ↔ folder ∈ folders ∧ MatcherSpec.Matches query folder)
  ∧ (MatcherSpec.words query = [] → find_folder_matches query folders = [])
  ∧ (forallb isdelim query = true → MatcherSpec.words query = []).
Proof.
  split; [|split].
  - intros Hne. rewrite find_folder_matches_filter by assumption.
    split; [reflexivity|].
    intros folder. rewrite list_elem_of_filter. tauto.
  - unfold find_folder_matches. rewrite query_words_normalize. now intros ->.
  - intros H. unfold MatcherSpec.words, MatcherSpec.normalize.
    now rewrite strip_collapse_all_delim.
Qed.

(** The theorem at the query "иванов пётр", which has two words, and at a
    query of spaces and an underscore, which has none. *)
Lemma find_folder_matches_exact_witness :
  let folders :=
    [of_string "Base/Group/Иванов_Пётр_01.01";
     of_string "Base/Group/ИВАНОВА_Анна_02.02"] in
  find_folder_matches (of_string "иванов пётр") folders
  = filter (MatcherSpec.Matches (of_string "иванов пётр")) folders
  ∧ find_folder_matches (of_string "  _ ") folders = [].
Proof.
  intros folders. split.
  - refine (proj1 (proj1 (find_folder_matches_exact
                            (of_string "иванов пётр") _) _)).
    vm_compute. discriminate.
  - refine (proj1 (proj2 (find_folder_matches_exact (of_string "  _ ") _)) _).
    vm_compute. reflexivity.
Defined.

(** The scenario of the specification, with the names of the data: the
    query "иванов" finds both folders, whatever the case of the names, and
    the query "Иванов_Пётр" the first only. *)
Example find_folder_matches_scenario :
  let folders :=
    [of_string "Base/Group/Иванов_Пётр_01.01";
     of_string "Base/Group/Sherlock — ИВАНОВА_Анна_02.02"] in
  find_folder_matches (of_string "иванов") folders = folders
  ∧ find_folder_matches (of_string "Иванов_Пётр") folders
    = [of_string "Base/Group/Иванов_Пётр_01.01"].
Proof. vm_compute. split; reflexivity. Qed.

End MatcherFacts.

(** ** Budget enforcement of the content selector *)

Section SelectorFacts.
Import PyStr Folder Sender.

Lemma Qgtb_true (a b : Q) : Qgtb a b = true ↔ (b < a)%Q.
Proof.
  unfold Qgtb. rewrite negb_true_iff, <- not_true_iff_false, Qle_bool_iff.
  split; [apply Qnot_le_lt | apply Qlt_not_le].
Qed.

Lemma Qgtb_false (a b : Q) : Qgtb a b = false ↔ (a <= b)%Q.
Proof. unfold Qgtb. now rewrite negb_false_iff, Qle_bool_iff. Qed.

Lemma collect_snd (cfg : config) (fs : filesystem) (folder base : string)
    (paths : list string) (txt : option string) (pdfs : list string) :
  (collect cfg fs folder base paths txt pdfs).2
  = pdfs ++ map (OsPath.join (SCRIPT_DIR cfg))
      (List.filter
         (fun f => under folder f && negb (is_txt f) && is_pdf f
                   && exists_ fs (OsPath.join (SCRIPT_DIR cfg) f))
         paths).
Proof.
  revert txt pdfs. induction paths as [|f paths IH]; intros txt pdfs; simpl.
  - now rewrite app_nil_r.
  - destruct (under folder f); simpl; [|apply IH].
    destruct (is_txt f); simpl; [apply IH|].
    destruct (is_pdf f); simpl; [|apply IH].
    rewrite IH. destruct (exists_ fs _); simpl; [|reflexivity].
    now rewrite <- app_assoc.
Qed.

Lemma cumulative_snoc (docs : list (string * Q)) (d : string * Q) :
  SelectorSpec.cumulative (docs ++ [d]) = (SelectorSpec.cumulative docs + d.2)%Q.
Proof. unfold SelectorSpec.cumulative. now rewrite fold_left_app. Qed.

(** The loop keeps the budgets it starts with: [taken0] stands for the
    documents already accepted when the loop reaches [pdfs]. *)
Lemma select_within_limits_enforced (cfg : config) (fs : filesystem)
    (pdfs : list string) :
  ∀ (taken0 : list (string * Q)),
    Z.of_nat (length taken0) <= MAX_PDF_TO_SEND_COUNT cfg →
    (SelectorSpec.cumulative taken0 <= MAX_PDF_TOTAL_SIZE_MB_SEND cfg)%Q →
    let result :=
      select_within_limits cfg fs pdfs taken0.*1
        (SelectorSpec.cumulative taken0) in
    SelectorSpec.Enforced (MAX_PDF_TO_SEND_COUNT cfg)
      (MAX_PDF_TOTAL_SIZE_MB_SEND cfg)
      (taken0 ++ SelectorSpec.sized fs pdfs) result.1 result.2.
Proof.
  induction pdfs as [|p pdfs IH]; intros taken0 Hcount Hsize; simpl.
  - exists taken0, []. now rewrite app_nil_r.
  - destruct (getsize fs p) as [size|] eqn:Esize; simpl; [|now apply IH].
    destruct (MAX_PDF_TO_SEND_COUNT cfg <=? Z.of_nat (length taken0.*1)) eqn:Ec.
    + apply Z.leb_le in Ec. rewrite length_fmap in Ec.
      exists taken0, ((p, megabytes size) :: SelectorSpec.sized fs pdfs).
      simpl. repeat split; auto.
    + apply Z.leb_gt in Ec. rewrite length_fmap in Ec.
      destruct (Qgtb _ _) eqn:Es.
      * apply Qgtb_true in Es.
        exists taken0, ((p, megabytes size) :: SelectorSpec.sized fs pdfs).
        simpl. repeat split; auto.
      * apply Qgtb_false in Es.
        specialize (IH (taken0 ++ [(p, megabytes size)])).
        rewrite fmap_app, cumulative_snoc, <- app_assoc in IH. simpl in IH.
        apply IH; [rewrite length_app; simpl; lia | exact Es].
Qed.

(** Closes a goal whose hypothesis [H] places an event in a list, built by
    case distinctions, that holds no event of that shape. *)
Ltac no_such_event H :=
  repeat match type of H with
    | _ ∈ [] => exfalso; exact (not_elem_of_nil _ H)
    | _ ∈ _ ++ _ => apply elem_of_app in H as [H|H]
    | _ ∈ _ :: _ => apply elem_of_cons in H as [H|H]; [discriminate|]
    | _ ∈ (if ?b then _ else _) => destruct b
    | _ ∈ match ?x with _ => _ end => destruct x
    end.

Lemma send_documents_sent (fs : filesystem) (files : list string) :
  ∀ (bd : bot_data) (p : string) (h : Z),
    Document p h ∈ (send_documents fs files bd).2 → p ∈ files.
Proof.
  induction files as [|f files IH]; intros bd p h; simpl.
  - intros H. inversion H.
  - destruct (fs !! f) as [x|]; [destruct (file_opens x)|];
      match goal with
      | |- context [send_documents fs files ?b] =>
          pose proof (IH b p h) as IHb;
          destruct (send_documents fs files b) as [bd2 evs]
      end;
      simpl in *; intros H; apply elem_of_cons in H as [H|H];
      try discriminate; try (right; now apply IHb).
    injection H as -> _. left.
Qed.

(** C2.  For every folder, with limits that are not negative: the
    documents collected by [send_folder_contents] are the attachable entries
    of the folder in catalog order; a file whose size cannot be determined
    is passed over and the loop goes on; over the others, the admitted
    documents are a leading run that keeps both the count and the
    cumulative-size budget, and admission halts at the first document that
    would breach a limit, with a notice that names the limit, the count
    being compared before the size.  Only admitted documents are sent, and
    the notice is among the messages of the handler. *)
Theorem folder_selector_budget (cfg : config) (fs : filesystem)
    (update : option bool) (folder : string) (bd : bot_data) :
  0 <= MAX_PDF_TO_SEND_COUNT cfg →
  (0 <= MAX_PDF_TOTAL_SIZE_MB_SEND cfg)%Q →
  let pdfs := SelectorSpec.attachable cfg fs folder in
  let events := (send_folder_contents cfg fs update folder bd).2 in
  ∃ txt accepted notice_sent,
    collect cfg fs folder (clean_lower (OsPath.basename folder))
      (RELATIVE_FILE_PATHS cfg) None [] = (txt, pdfs)
    ∧ select_within_limits cfg fs pdfs [] 0%Q = (accepted, notice_sent)
    ∧ SelectorSpec.Enforced (MAX_PDF_TO_SEND_COUNT cfg)
        (MAX_PDF_TOTAL_SIZE_MB_SEND cfg) (SelectorSpec.sized fs pdfs)
        accepted notice_sent
    ∧ (∀ p h, Document p h ∈ events → p ∈ accepted)
    ∧ (∀ n, notice_sent = Some n → Message n ∈ events).
Proof.
  intros Hcount Hsize pdfs events.
  destruct (collect cfg fs folder (clean_lower (OsPath.basename folder))
              (RELATIVE_FILE_PATHS cfg) None []) as [txt pdfs'] eqn:Ecollect.
  assert (pdfs' = pdfs) as ->.
  { pose proof (collect_snd cfg fs folder (clean_lower (OsPath.basename folder))
                  (RELATIVE_FILE_PATHS cfg) None []) as H.
    rewrite Ecollect in H. exact H. }
  destruct (select_within_limits cfg fs pdfs [] 0%Q)
    as [accepted notice_sent] eqn:Eselect.
  exists txt, accepted, notice_sent.
  split; [reflexivity|]. split; [reflexivity|].
  split.
  { replace accepted with (select_within_limits cfg fs pdfs [] 0%Q).1
      by now rewrite Eselect.
    replace notice_sent with (select_within_limits cfg fs pdfs [] 0%Q).2
      by now rewrite Eselect.
    exact (select_within_limits_enforced cfg fs pdfs [] Hcount Hsize). }
  subst events. unfold send_folder_contents. rewrite Ecollect.
  destruct pdfs as [|p0 pdfs0] eqn:Epdfs.
  - simpl in Eselect. injection Eselect as <- <-.
    split; [|discriminate].
    intros p h H. simpl in H. no_such_event H.
  - rewrite Eselect.
    destruct (send_documents fs accepted bd) as [bd1 sent] eqn:Esent.
    split.
    + intros p h H. simpl in H. no_such_event H.
      * destruct notice_sent; simpl in H; no_such_event H.
      * apply (send_documents_sent fs accepted bd p h). rewrite Esent. exact H.
    + intros n ->. simpl. set_solver.
Qed.

(** The theorem on the small catalog, whose limits are 2 documents and
    50 MB. *)
Lemma folder_selector_budget_witness :
  ∃ accepted notice_sent,
    select_within_limits Fixtures.cfg Fixtures.fs
      (SelectorSpec.attachable Fixtures.cfg Fixtures.fs
         "Base/Group/Ivanov_Petr_01.01") [] 0%Q
    = (accepted, notice_sent)
    ∧ SelectorSpec.Enforced 2 50
        (SelectorSpec.sized Fixtures.fs
           (SelectorSpec.attachable Fixtures.cfg Fixtures.fs
              "Base/Group/Ivanov_Petr_01.01"))
        accepted notice_sent.
Proof.
  destruct (folder_selector_budget Fixtures.cfg Fixtures.fs None
              "Base/Group/Ivanov_Petr_01.01" Fixtures.bd)
    as (txt & accepted & notice_sent & _ & Hselect & Henforced & _).
  - vm_compute. discriminate.
  - vm_compute. discriminate.
  - exists accepted, notice_sent. split; assumption.
Defined.

(** On the small catalog the third document meets the count limit of two. *)
Example selection_stops_at_count :
  select_within_limits Fixtures.cfg Fixtures.fs
    (SelectorSpec.attachable Fixtures.cfg Fixtures.fs
       "Base/Group/Ivanov_Petr_01.01") [] 0%Q
  = ([ "/srv/bot/Base/Group/Ivanov_Petr_01.01/CV.pdf";
       "/srv/bot/Base/Group/Ivanov_Petr_01.01/scan.pdf" ],
     Some (CountLimitReached 2)).
Proof. vm_compute. reflexivity. Qed.

End SelectorFacts.

(** ** The sliding-window rate limit *)

Section LimiterFacts.
Import Gemini.

Lemma Qltb_true (a b : Q) : Qltb a b = true ↔ (a < b)%Q.
Proof.
  unfold Qltb. rewrite negb_true_iff, <- not_true_iff_false, Qle_bool_iff.
  split; [apply Qnot_le_lt | apply Qlt_not_le].
Qed.

Lemma Qltb_false (a b : Q) : Qltb a b = false ↔ (b <= a)%Q.
Proof. unfold Qltb. now rewrite negb_false_iff, Qle_bool_iff. Qed.

Lemma prune_recent (now : Q) (log : list Q) :
  prune now log = filter (LimiterSpec.recent now) log.
Proof.
  induction log as [|t log IH]; simpl; [reflexivity|].
  destruct (Qltb (now - t) 60) eqn:E.
  - rewrite filter_cons_True by now apply Qltb_true. now rewrite IH.
  - rewrite filter_cons_False; [exact IH|].
    apply Qltb_false in E. now apply Qle_not_lt.
Qed.

Lemma prune_length (now : Q) (log : list Q) :
  (length (prune now log) <= length log)%nat.
Proof. rewrite prune_recent. apply length_filter. Qed.

Lemma prune_stale (now : Q) (log : list Q) :
  Forall (fun t => (60 <= now - t)%Q) log → prune now log = [].
Proof.
  induction 1 as [|t log Ht _ IH]; simpl; [reflexivity|].
  apply Qltb_false in Ht. now rewrite Ht.
Qed.

Lemma prune_cons_stale (now t : Q) (log : list Q) :
  (60 <= now - t)%Q → prune now (t :: log) = prune now log.
Proof. intros Ht. apply Qltb_false in Ht. simpl. now rewrite Ht. Qed.

Lemma rate_limit_allow (cfg : config) (now : Q) (ud : user_data) :
  rate_limit cfg now ud
  = let answer :=
      LimiterSpec.allow (default [] (gemini_requests ud)) now
        (MAX_GEMINI_REQUESTS_PER_MINUTE cfg) in
    (answer.1, set_gemini_requests answer.2 ud).
Proof.
  unfold rate_limit, LimiterSpec.allow. simpl. rewrite <- prune_recent.
  destruct (Z.leb_spec (MAX_GEMINI_REQUESTS_PER_MINUTE cfg)
              (Z.of_nat (length (prune now (default [] (gemini_requests ud)))))).
  - rewrite bool_decide_eq_false_2 by lia. reflexivity.
  - rewrite bool_decide_eq_true_2 by lia. reflexivity.
Qed.

Lemma rate_limit_unfold (cfg : config) (now : Q) (ud : user_data) :
  rate_limit cfg now ud
  = let pruned := prune now (default [] (gemini_requests ud)) in
    if MAX_GEMINI_REQUESTS_PER_MINUTE cfg <=? Z.of_nat (length pruned)
    then (false, set_gemini_requests pruned ud)
    else (true, set_gemini_requests (pruned ++ [now]) ud).
Proof. reflexivity. Qed.

(** Decides the comparisons [Qltb] of the goal from the hypotheses. *)
Ltac decide_recent :=
  repeat match goal with
    | |- context [Qltb ?a ?b] =>
        first [ rewrite (proj2 (Qltb_true a b)) by lra
              | rewrite (proj2 (Qltb_false a b)) by lra ]
    end.

(** Five requests in ten seconds pass, a sixth within the minute is denied,
    and a request a minute after the first passes again. *)
Lemma rate_limit_scenario (cfg : config) (ud : user_data)
    (t1 t2 t3 t4 t5 t6 t7 : Q) :
  MAX_GEMINI_REQUESTS_PER_MINUTE cfg = 5 →
  Forall (fun t => (60 <= t1 - t)%Q) (default [] (gemini_requests ud)) →
  (t1 <= t2)%Q → (t2 <= t3)%Q → (t3 <= t4)%Q → (t4 <= t5)%Q →
  (t5 <= t1 + 10)%Q → (t5 <= t6)%Q → (t6 < t1 + 60)%Q → (t1 + 60 <= t7)%Q →
  (rate_limit_run cfg [t1; t2; t3; t4; t5; t6; t7] ud).1
  = [true; true; true; true; true; false; true].
Proof.
  intros Hmax Hstale H12 H23 H34 H45 H5 H56 H6 H7.
  unfold rate_limit_run.
  rewrite rate_limit_unfold, Hmax. cbv zeta.
  rewrite (prune_stale t1 _ Hstale). simpl.
  do 5 (rewrite rate_limit_unfold, Hmax; simpl; decide_recent; simpl).
  rewrite rate_limit_unfold, Hmax. cbv zeta.
  change (default [] (gemini_requests (set_gemini_requests ?l _))) with l.
  rewrite (prune_cons_stale t7 t1) by lra.
  pose proof (prune_length t7 [t2; t3; t4; t5]) as Hlen.
  destruct (5 <=? Z.of_nat (length (prune t7 [t2; t3; t4; t5]))) eqn:E.
  - apply Z.leb_le in E.
    change (length [t2; t3; t4; t5]) with 4%nat in Hlen. lia.
  - reflexivity.
Qed.

(** C3.  The rate limit of [gemini_query] is the specification's [allow]:
    it prunes the user's log to the entries within the trailing 60 seconds
    and stores it, lets the request pass exactly when the pruned log holds
    fewer than the limit, and appends the current time only then; a denial
    leaves the pruned log in the session.  With a limit of five, five
    requests within ten seconds all pass, a sixth while the first is still
    within its minute is denied, and a request made once 60 seconds have
    passed since the first passes again. *)
Theorem rate_limit_sliding_window (cfg : config) :
  (∀ now ud,
     rate_limit cfg now ud
     = let answer :=
         LimiterSpec.allow (default [] (gemini_requests ud)) now
           (MAX_GEMINI_REQUESTS_PER_MINUTE cfg) in
       (answer.1, set_gemini_requests answer.2 ud))
  ∧ (∀ now ud,
       let pruned :=
         filter (LimiterSpec.recent now) (default [] (gemini_requests ud)) in
       ((rate_limit cfg now ud).1 = true
        ↔ Z.of_nat (length pruned) < MAX_GEMINI_REQUESTS_PER_MINUTE cfg)
       ∧ gemini_requests (rate_limit cfg now ud).2
         = Some (if (rate_limit cfg now ud).1 then pruned ++ [now] else pruned))
  ∧ (MAX_GEMINI_REQUESTS_PER_MINUTE cfg = 5 →
     ∀ ud t1 t2 t3 t4 t5 t6 t7,
       Forall (fun t => (60 <= t1 - t)%Q) (default [] (gemini_requests ud)) →
       (t1 <= t2)%Q → (t2 <= t3)%Q → (t3 <= t4)%Q → (t4 <= t5)%Q →
       (t5 <= t1 + 10)%Q → (t5 <= t6)%Q → (t6 < t1 + 60)%Q →
       (t1 + 60 <= t7)%Q →
       (rate_limit_run cfg [t1; t2; t3; t4; t5; t6; t7] ud).1
       = [true; true; true; true; true; false; true]).
Proof.
  split; [|split].
  - apply rate_limit_allow.
  - intros now ud pruned. rewrite rate_limit_allow. subst pruned.
    unfold LimiterSpec.allow. cbv zeta.
    case_bool_decide; simpl;
      (split; [split; [intros; lia || done | done] | done]).
  - intros Hmax ud t1 t2 t3 t4 t5 t6 t7. now apply rate_limit_scenario.
Qed.

(** The scenario at the times 100, 102, ..., 108, then 110 and 160. *)
Lemma rate_limit_sliding_window_witness :
  (rate_limit_run Fixtures.cfg [100; 102; 104; 106; 108; 110; 160]%Q
     fresh_user_data).1
  = [true; true; true; true; true; false; true].
Proof.
  refine (proj2 (proj2 (rate_limit_sliding_window Fixtures.cfg)) _
            fresh_user_data 100 102 104 106 108 110 160 _ _ _ _ _ _ _ _ _)%Q;
    try reflexivity; try (vm_compute; discriminate).
  constructor.
Defined.

End LimiterFacts.

(** ** The AI hand-off: rejections and their effect on the session *)

Section GeminiFacts.
Import Gemini.

Variables (cfg : config) (fs : filesystem) (ai : ai_service).
Variables (now : Q) (ud : user_data).

(** The rate limit writes the request log and nothing else. *)
Lemma rate_limit_frame :
  let ud' := (rate_limit cfg now ud).2 in
  pdf_context_path ud' = pdf_context_path ud
  ∧ mode ud' = mode ud
  ∧ send_birthday_broadcast ud' = send_birthday_broadcast ud
  ∧ current_matches ud' = current_matches ud
  ∧ current_match_index ud' = current_match_index ud
  ∧ last_query ud' = last_query ud.
Proof.
  rewrite rate_limit_unfold. cbv zeta. destruct (_ <=? _); simpl; repeat split.
Qed.

Lemma rate_limit_denied_iff :
  (rate_limit cfg now ud).1 = false
  ↔ MAX_GEMINI_REQUESTS_PER_MINUTE cfg
    <= Z.of_nat (length (filter (LimiterSpec.recent now)
                           (default [] (gemini_requests ud)))).
Proof.
  rewrite rate_limit_unfold, <- prune_recent. cbv zeta.
  destruct (Z.leb_spec (MAX_GEMINI_REQUESTS_PER_MINUTE cfg)
              (Z.of_nat (length (prune now (default [] (gemini_requests ud))))));
    simpl; split; intros; try done; lia.
Qed.

(** Pruning at a later time forgets an earlier pruning. *)
Lemma prune_prune (later : Q) (log : list Q) :
  (now <= later)%Q → prune later (prune now log) = prune later log.
Proof.
  intros Hle. induction log as [|t log IH]; simpl; [reflexivity|].
  destruct (Qltb (now - t) 60) eqn:E; simpl.
  - now rewrite IH.
  - rewrite IH. apply Qltb_false in E.
    rewrite (proj2 (Qltb_false (later - t) 60)) by lra. reflexivity.
Qed.

Lemma handle_text_in_ai_mode (text : string) (upd : update) (bd : bot_data) :
  current_mode ud = MODE_AI →
  Handlers.handle_text_body cfg fs ai now text upd (ud, bd)
  = ((gemini_query cfg fs ai now (PyStr.strip text) ud).1, bd,
     (gemini_query cfg fs ai now (PyStr.strip text) ud).2).
Proof.
  intros Hmode. unfold Handlers.handle_text_body. rewrite Hmode. simpl.
  now destruct (gemini_query _ _ _ _ _ _).
Qed.

(** From here on the assistant is enabled. *)
Hypothesis enabled : GEMINI_ENABLED cfg = true.

(** The request is turned away by the rate limit. *)
Lemma gemini_query_denied (query : string) :
  (rate_limit cfg now ud).1 = false →
  gemini_query cfg fs ai now query ud
  = (set_mode MODE_SEARCH
       (set_pdf_context_path (Some None) (rate_limit cfg now ud).2),
     [ChatAction TYPING;
      Message (RateLimitExceeded (MAX_GEMINI_REQUESTS_PER_MINUTE cfg))]).
Proof.
  intros Hdenied. unfold gemini_query. rewrite enabled. simpl.
  destruct (rate_limit cfg now ud) as [allowed ud2]. simpl in *. now subst.
Qed.

Section WithDocument.

(** The request passes the rate limit, the session holds the document
    [path], the file is there and its size can be read. *)
Variables (path : string) (size : Z).
Hypothesis allowed : (rate_limit cfg now ud).1 = true.
Hypothesis active : get_context_path ud = Some path.
Hypothesis named : truthy path = true.
Hypothesis on_disk : exists_ fs path = true.
Hypothesis measured : getsize fs path = Some size.

Lemma gemini_query_with_file (query : string) :
  gemini_query cfg fs ai now query ud
  = let ud2 := (rate_limit cfg now ud).2 in
    if Qgtb (megabytes size) (MAX_PDF_SIZE_MB_AI cfg) then
      (pop_gemini_requests
         (set_mode MODE_SEARCH (set_pdf_context_path (Some None) ud2)),
       [ChatAction TYPING;
        Message (FileTooBigForAi (megabytes size) (MAX_PDF_SIZE_MB_AI cfg))])
    else
      (ud2,
       ChatAction TYPING :: Message UploadingToAi
       :: ask_with_file ai path query).
Proof.
  unfold gemini_query. rewrite enabled. simpl.
  pose proof rate_limit_frame as (Hctx & _). revert allowed Hctx.
  destruct (rate_limit cfg now ud) as [ok ud2]. simpl. intros -> Hctx.
  simpl. unfold get_context_path in *. rewrite Hctx, active.
  now rewrite named, on_disk, measured.
Qed.

(** The service answers with no usable text: the session keeps what the
    rate limit left, so neither the mode nor the document changes. *)
Lemma gemini_query_no_answer (query : string) (text : option string) :
  (megabytes size <= MAX_PDF_SIZE_MB_AI cfg)%Q →
  upload_ok ai = true →
  generated ai = Some text →
  usable text = false →
  gemini_query cfg fs ai now query ud
  = ((rate_limit cfg now ud).2,
     [ChatAction TYPING; Message UploadingToAi; AiUpload path;
      AiGenerate (Some path) query; AiDelete; Message NoAnswerDocument]).
Proof.
  intros Hsmall Hup Hgen Htext. rewrite gemini_query_with_file.
  cbv zeta. rewrite (proj2 (Qgtb_false _ _) Hsmall).
  unfold ask_with_file. now rewrite Hup, Hgen, Htext.
Qed.

(** C9.  When a request that passed the rate limit is rejected because its
    document is larger than the AI budget, the time appended for it is
    taken off again: the session keeps the pruned log as it was before the
    request, and any later rate-limit decision is the one the session would
    have got had the rejected request never been made. *)
Theorem size_rejection_gives_the_slot_back (query : string) :
  (MAX_PDF_SIZE_MB_AI cfg < megabytes size)%Q →
  let pruned :=
    filter (LimiterSpec.recent now) (default [] (gemini_requests ud)) in
  let ud' := (gemini_query cfg fs ai now query ud).1 in
  gemini_requests (rate_limit cfg now ud).2 = Some (pruned ++ [now])
  ∧ gemini_requests ud' = Some pruned
  ∧ (∀ later, (now <= later)%Q →
       (rate_limit cfg later ud').1 = (rate_limit cfg later ud).1
       ∧ gemini_requests (rate_limit cfg later ud').2
         = gemini_requests (rate_limit cfg later ud).2).
Proof.
  intros Hbig pruned ud'.
  assert (gemini_requests (rate_limit cfg now ud).2 = Some (pruned ++ [now]))
    as Happended.
  { pose proof allowed as Hallowed. revert Hallowed.
    rewrite rate_limit_unfold. cbv zeta.
    destruct (_ <=? _); [discriminate|]. intros _. simpl.
    subst pruned. now rewrite prune_recent. }
  assert (gemini_requests ud' = Some pruned) as Hlog.
  { subst ud'. rewrite gemini_query_with_file.
    cbv zeta. rewrite (proj2 (Qgtb_true _ _) Hbig).
    unfold pop_gemini_requests. simpl. rewrite Happended. simpl.
    now rewrite removelast_last. }
  split; [exact Happended|]. split; [exact Hlog|].
  intros later Hlater. rewrite !rate_limit_unfold. cbv zeta.
  rewrite Hlog. simpl. subst pruned.
  rewrite <- prune_recent, prune_prune by assumption.
  destruct (_ <=? _); simpl; split; reflexivity.
Qed.

End WithDocument.

(** C7.  A text message of a session in AI mode, with the assistant
    enabled.  When the pruned log has reached the limit, the session goes to
    search mode with no document, the user gets the rate-limit notice, and
    nothing else happens: no event reaches the AI service.  When the request
    passes the rate limit and the document is larger than the AI budget, the
    session goes to search mode with no document and the user gets the size
    notice.  Hence an AI call in the events of a request means that the rate
    limit let it pass. *)
Theorem policy_rejection_resets_to_search (text : string) (upd : update)
    (bd : bot_data) :
  current_mode ud = MODE_AI →
  let pruned :=
    filter (LimiterSpec.recent now) (default [] (gemini_requests ud)) in
  let result := Handlers.handle_text_body cfg fs ai now text upd (ud, bd) in
  (MAX_GEMINI_REQUESTS_PER_MINUTE cfg <= Z.of_nat (length pruned) →
     current_mode result.1.1 = MODE_SEARCH
     ∧ get_context_path result.1.1 = None
     ∧ result.2
       = [ChatAction TYPING;
          Message (RateLimitExceeded (MAX_GEMINI_REQUESTS_PER_MINUTE cfg))])
  ∧ (Z.of_nat (length pruned) < MAX_GEMINI_REQUESTS_PER_MINUTE cfg →
     ∀ path size,
       get_context_path ud = Some path →
       truthy path = true →
       exists_ fs path = true →
       getsize fs path = Some size →
       (MAX_PDF_SIZE_MB_AI cfg < megabytes size)%Q →
       current_mode result.1.1 = MODE_SEARCH
       ∧ get_context_path result.1.1 = None
       ∧ result.2
         = [ChatAction TYPING;
            Message (FileTooBigForAi (megabytes size)
                       (MAX_PDF_SIZE_MB_AI cfg))])
  ∧ (∀ e, e ∈ result.2 → is_ai_call e = true →
     Z.of_nat (length pruned) < MAX_GEMINI_REQUESTS_PER_MINUTE cfg).
Proof.
  intros Hmode pruned result.
  subst result. rewrite handle_text_in_ai_mode by assumption. simpl.
  assert (MAX_GEMINI_REQUESTS_PER_MINUTE cfg <= Z.of_nat (length pruned) →
          gemini_query cfg fs ai now (PyStr.strip text) ud
          = (set_mode MODE_SEARCH
               (set_pdf_context_path (Some None) (rate_limit cfg now ud).2),
             [ChatAction TYPING;
              Message
                (RateLimitExceeded (MAX_GEMINI_REQUESTS_PER_MINUTE cfg))]))
    as Hdenied.
  { intros Hfull. apply gemini_query_denied.
    now apply rate_limit_denied_iff. }
  split; [|split].
  - intros Hfull. rewrite (Hdenied Hfull). repeat split.
  - intros Hroom path size Hpath Htruthy Hexists Hsize Hbig.
    assert ((rate_limit cfg now ud).1 = true) as Hallowed.
    { destruct (rate_limit cfg now ud).1 eqn:E; [reflexivity|].
      apply rate_limit_denied_iff in E. fold pruned in E. lia. }
    rewrite (gemini_query_with_file path size) by assumption.
    cbv zeta. rewrite (proj2 (Qgtb_true _ _) Hbig). repeat split.
  - intros e He Hcall.
    destruct (Z.lt_ge_cases (Z.of_nat (length pruned))
                (MAX_GEMINI_REQUESTS_PER_MINUTE cfg)) as [Hroom|Hfull];
      [exact Hroom|].
    rewrite (Hdenied Hfull) in He. simpl in He.
    apply elem_of_cons in He as [->|He]; [discriminate|].
    apply elem_of_cons in He as [->|He]; [discriminate|].
    exfalso. exact (not_elem_of_nil _ He).
Qed.

End GeminiFacts.

(** The theorem at a session whose document, of 20 MB, is over the AI
    budget of 15 MB. *)
Lemma policy_rejection_resets_to_search_witness :
  let result :=
    Handlers.handle_text_body Fixtures.cfg Fixtures.fs Fixtures.ai_silent
      100%Q "What does the scan say?" Fixtures.user
      (Fixtures.ud_ai_big, Fixtures.bd_sent) in
  current_mode result.1.1 = MODE_SEARCH
  ∧ get_context_path result.1.1 = None
  ∧ result.2
    = [ChatAction TYPING;
       Message (FileTooBigForAi (megabytes 20971520) 15)].
Proof.
  refine (proj1 (proj2 (policy_rejection_resets_to_search Fixtures.cfg
                          Fixtures.fs Fixtures.ai_silent 100%Q
                          Fixtures.ud_ai_big _ "What does the scan say?"
                          Fixtures.user Fixtures.bd_sent _))
            _ "/srv/bot/Base/Group/Ivanov_Petr_01.01/scan.pdf" 20971520
            _ _ _ _ _); vm_compute; reflexivity.
Defined.

(** The theorem at the same document, with a log of one stale and one
    recent request: the recent one alone is left. *)
Lemma size_rejection_gives_the_slot_back_witness :
  gemini_requests
    (Gemini.gemini_query Fixtures.cfg Fixtures.fs Fixtures.ai_silent 100%Q
       "What does the scan say?"
       (set_gemini_requests [30; 95]%Q Fixtures.ud_ai_big)).1
  = Some (filter (LimiterSpec.recent 100%Q) [30; 95]%Q).
Proof.
  refine (proj1 (proj2 (size_rejection_gives_the_slot_back Fixtures.cfg
                          Fixtures.fs Fixtures.ai_silent 100%Q
                          (set_gemini_requests [30; 95]%Q Fixtures.ud_ai_big)
                          _ "/srv/bot/Base/Group/Ivanov_Petr_01.01/scan.pdf"
                          20971520 _ _ _ _ _ "What does the scan say?" _)));
    vm_compute; reflexivity.
Defined.

(** C4.  The program at a session in AI mode whose document the service
    answers with an empty text: the handler tells the user that the mode
    was reset to search, yet the session is still in AI mode and still
    holds the document. *)
Theorem no_answer_keeps_ai_mode :
  let result :=
    Handlers.handle_text_body Fixtures.cfg Fixtures.fs Fixtures.ai_silent
      100%Q "When was he born?" Fixtures.user
      (Fixtures.ud_ai, Fixtures.bd_sent) in
  current_mode result.1.1 = MODE_AI
  ∧ get_context_path result.1.1
    = Some "/srv/bot/Base/Group/Ivanov_Petr_01.01/CV.pdf"
  ∧ result.2
    = [ChatAction TYPING; Message UploadingToAi;
       AiUpload "/srv/bot/Base/Group/Ivanov_Petr_01.01/CV.pdf";
       AiGenerate (Some "/srv/bot/Base/Group/Ivanov_Petr_01.01/CV.pdf")
         "When was he born?";
       AiDelete; Message NoAnswerDocument].
Proof. vm_compute. repeat split. Qed.

(** ** The pager and the mode transitions *)

Section HandlerFacts.
Import PyStr Pager Handlers.

Lemma restricted_access_authorized
    (handler : update → state → state * list event) (upd : update)
    (ud : user_data) (bd : bot_data) :
  authorized upd bd →
  restricted_access handler upd (ud, bd) = handler upd (ud, bd).
Proof.
  intros (user_id & Huser & Hlist).
  unfold restricted_access, access_refusal. rewrite Huser.
  simpl. destruct Hlist as [Hempty|Hin].
  - now rewrite bool_decide_eq_true_2.
  - case_bool_decide; [reflexivity|]. now rewrite bool_decide_eq_true_2.
Qed.

Lemma startswith_app (p s : string) :
  startswith p s = true → ∃ rest, s = p +:+ rest.
Proof. apply prefix_spec. Qed.

Lemma startswith_nil (s : string) : startswith "" s = true.
Proof. now destruct s. Qed.

Lemma button_body_card (cfg : config) (fs : filesystem) (data : string)
    (upd : update) (st : state) :
  startswith "card:" data = true →
  button_body cfg fs data upd st
  = ((card_page cfg fs data st).1, Answer Plain :: (card_page cfg fs data st).2).
Proof.
  intros H. apply startswith_app in H as [rest ->].
  unfold button_body. simpl. rewrite startswith_nil.
  now destruct (card_page _ _ _ _).
Qed.

Lemma button_body_ask_ai (cfg : config) (fs : filesystem) (data : string)
    (upd : update) (st : state) :
  startswith "ask_ai|" data = true →
  button_body cfg fs data upd st
  = ((ask_ai fs data st).1, Answer Plain :: (ask_ai fs data st).2).
Proof.
  intros H. apply startswith_app in H as [rest ->].
  unfold button_body. simpl. rewrite startswith_nil.
  now destruct (ask_ai _ _ _).
Qed.

Lemma button_body_select_folder (cfg : config) (fs : filesystem)
    (data : string) (upd : update) (st : state) :
  startswith "select_folder:" data = true →
  button_body cfg fs data upd st
  = ((select_folder cfg fs data st).1,
     Answer Plain :: (select_folder cfg fs data st).2).
Proof.
  intros H. apply startswith_app in H as [rest ->].
  unfold button_body. simpl. rewrite startswith_nil.
  now destruct (select_folder _ _ _ _).
Qed.

Lemma in_range_test (matches : list string) (index : Z) :
  (0 <=? index) && (index <? Z.of_nat (length matches)) = true
  ↔ PagerSpec.in_range matches index.
Proof. unfold PagerSpec.in_range. rewrite andb_true_iff. lia. Qed.

Lemma markup_navigation (matches : list string) (index : Z) (d : direction)
    (callback_data : string) :
  (∃ row, row ∈ generate_person_card_markup matches index
          ∧ Navigate d callback_data ∈ row)
  ↔ match d with
    | Prev => 0 < index ∧ callback_data = "card:prev:" +:+ str (index - 1)
    | Next => index < Z.of_nat (length matches) - 1
              ∧ callback_data = "card:next:" +:+ str (index + 1)
    end.
Proof.
  unfold generate_person_card_markup. split.
  - intros (row & Hrow & Hnav).
    apply elem_of_cons in Hrow as [->|Hrow].
    + apply elem_of_cons in Hnav as [Hnav|Hnav].
      { destruct (Z.ltb_spec 0 index); [|discriminate].
        injection Hnav as -> ->. now split. }
      apply elem_of_cons in Hnav as [Hnav|Hnav]; [discriminate|].
      apply elem_of_cons in Hnav as [Hnav|Hnav].
      { destruct (Z.ltb_spec index (Z.of_nat (length matches) - 1));
          [|discriminate].
        injection Hnav as -> ->. now split. }
      exfalso. exact (not_elem_of_nil _ Hnav).
    + apply elem_of_cons in Hrow as [->|Hrow].
      * apply elem_of_cons in Hnav as [Hnav|Hnav]; [discriminate|].
        exfalso. exact (not_elem_of_nil _ Hnav).
      * exfalso. exact (not_elem_of_nil _ Hrow).
  - destruct d; intros [Hlt ->]; eexists; (split; [left|]).
    + apply Z.ltb_lt in Hlt. rewrite Hlt. left.
    + apply Z.ltb_lt in Hlt. rewrite Hlt. right. right. left.
Qed.

(** C6.  For a match list and an index within it, the card that
    [send_person_card] renders offers the way back exactly when the index
    is above 0 and the way forward exactly when it is below the last
    position, each with its target written in the callback, and a target
    that is offered is again a position of the list: the pager does not
    wrap around.  For an index outside the list, [send_person_card] changes
    nothing in the session, whatever the way it is called, and raises the
    invalid-index alert when it is called for a button press; a page
    request, which arrives through [button_handler] with the matches of the
    session, is answered with that alert and nothing else, and a request to
    open the folder at such an index is refused as well, the session
    unchanged. *)
Theorem pager_affordances_and_bounds (cfg : config) (fs : filesystem)
    (matches : list string) (index : Z) (query_text : string)
    (ud : user_data) :
  let markup := generate_person_card_markup matches index in
  (PagerSpec.in_range matches index →
     (PagerSpec.offers Prev markup ↔ 0 < index)
     ∧ (PagerSpec.offers Next markup
        ↔ index < Z.of_nat (length matches) - 1)
     ∧ (∀ d row callback_data,
          row ∈ markup → Navigate d callback_data ∈ row →
          match d with
          | Prev => callback_data = "card:prev:" +:+ str (index - 1)
                    ∧ PagerSpec.in_range matches (index - 1)
          | Next => callback_data = "card:next:" +:+ str (index + 1)
                    ∧ PagerSpec.in_range matches (index + 1)
          end)
     ∧ (∃ c, (send_person_card cfg fs true matches index query_text true ud).2
             = [Card true c; Answer Plain]
             ∧ card_markup c = markup))
  ∧ (¬ PagerSpec.in_range matches index →
     (∀ callback_query is_edit,
        send_person_card cfg fs callback_query matches index query_text
          is_edit ud
        = (ud, if is_edit && callback_query
               then [Answer InvalidCardIndex] else []))
     ∧ (∀ data upd bd,
          current_matches ud = Some matches →
          matches ≠ [] →
          startswith "card:" data = true →
          split_on ":" data !! 2%nat ≫= int = Some index →
          button_body cfg fs data upd (ud, bd)
          = ((ud, bd), [Answer Plain; Answer InvalidCardIndex]))
     ∧ (∀ data upd bd,
          current_matches ud = Some matches →
          startswith "select_folder:" data = true →
          after_first ":" data ≫= int = Some index →
          button_body cfg fs data upd (ud, bd)
          = ((ud, bd),
             [Answer Plain; Answer SessionExpiredOrBadIndex; RemoveMarkup]))).
Proof.
  intros markup. split.
  - intros Hrange. split; [|split; [|split]].
    + unfold PagerSpec.offers. split.
      * intros (row & cb & Hrow & Hnav).
        apply (markup_navigation matches index Prev cb). eauto.
      * intros Hlt.
        destruct (proj2 (markup_navigation matches index Prev _) (conj Hlt eq_refl))
          as (row & Hrow & Hnav). eauto.
    + unfold PagerSpec.offers. split.
      * intros (row & cb & Hrow & Hnav).
        apply (markup_navigation matches index Next cb). eauto.
      * intros Hlt.
        destruct (proj2 (markup_navigation matches index Next _) (conj Hlt eq_refl))
          as (row & Hrow & Hnav). eauto.
    + intros d row cb Hrow Hnav.
      pose proof (proj1 (markup_navigation matches index d cb)
                    (ex_intro _ row (conj Hrow Hnav))) as H.
      unfold PagerSpec.in_range in *. destruct d; destruct H as [Hlt ->];
        (split; [reflexivity | lia]).
    + unfold send_person_card.
      rewrite (proj2 (in_range_test matches index) Hrange). simpl.
      eexists. split; reflexivity.
  - intros Hout.
    assert ((0 <=? index) && (index <? Z.of_nat (length matches)) = false)
      as Htest.
    { apply not_true_iff_false. intros H. now apply in_range_test in H. }
    split; [|split].
    + intros callback_query is_edit. unfold send_person_card.
      now rewrite Htest.
    + intros data upd bd Hmatches Hne Hdata Hindex.
      rewrite button_body_card by assumption.
      unfold card_page. rewrite Hindex, Hmatches.
      destruct matches as [|m ms]; [congruence|].
      unfold send_person_card. now rewrite Htest.
    + intros data upd bd Hmatches Hdata Hindex.
      rewrite button_body_select_folder by assumption.
      unfold select_folder. rewrite Hindex, Hmatches. simpl default.
      now rewrite Htest.
Qed.

(** The theorem at a request for the card at position 2 of two matches. *)
Lemma pager_affordances_and_bounds_witness :
  button_body Fixtures.cfg Fixtures.fs "card:next:2" Fixtures.press
    (set_current_matches
       (Some ["Base/Group/Ivanov"; "Base/Group/Ivanov_Petr_01.01"])
       fresh_user_data,
     Fixtures.bd_sent)
  = ((set_current_matches
        (Some ["Base/Group/Ivanov"; "Base/Group/Ivanov_Petr_01.01"])
        fresh_user_data,
      Fixtures.bd_sent),
     [Answer Plain; Answer InvalidCardIndex]).
Proof.
  refine (proj1 (proj2 (proj2 (pager_affordances_and_bounds Fixtures.cfg
                                 Fixtures.fs
                                 ["Base/Group/Ivanov";
                                  "Base/Group/Ivanov_Petr_01.01"]
                                 2 "" _) _)) "card:next:2" Fixtures.press
            Fixtures.bd_sent _ _ _ _);
    try reflexivity; try discriminate.
  unfold PagerSpec.in_range. simpl. lia.
Defined.

(** The card at the first of two matches: no way back, a way forward to
    position 1, and pressing it shows the second card. *)
Example first_card_markup :
  generate_person_card_markup
    ["Base/Group/Ivanov"; "Base/Group/Ivanov_Petr_01.01"] 0
  = [[Blank; Counter 1 2; Navigate Next "card:next:1"];
     [Find "select_folder:0"]].
Proof. reflexivity. Qed.

(** C8.  For a caller who passes the access check: pressing the AI button
    of a document whose handle is known and whose file exists puts the
    session in AI mode with that document's path as the active document,
    from search mode as from any other; [/cancel] puts the session in
    search mode without an active document, whatever the mode was; neither
    touches the broadcast setting of the user. *)
Theorem mode_transitions (cfg : config) (fs : filesystem) (upd : update)
    (ud : user_data) (bd : bot_data) :
  authorized upd bd →
  (∀ data pdf_id pdf_path,
     startswith "ask_ai|" data = true →
     after_first "|" data ≫= int = Some pdf_id →
     default ∅ (pdf_map bd) !! pdf_id = Some pdf_path →
     truthy pdf_path = true →
     exists_ fs pdf_path = true →
     let ud' := (button_handler cfg fs data upd (ud, bd)).1.1 in
     current_mode ud' = MODE_AI
     ∧ get_context_path ud' = Some pdf_path
     ∧ send_birthday_broadcast ud' = send_birthday_broadcast ud)
  ∧ (let ud' := (cancel_command upd (ud, bd)).1.1 in
     current_mode ud' = MODE_SEARCH
     ∧ pdf_context_path ud' = None
     ∧ get_context_path ud' = None
     ∧ send_birthday_broadcast ud' = send_birthday_broadcast ud).
Proof.
  intros Hauth. split.
  - intros data pdf_id pdf_path Hdata Hid Hmap Htruthy Hexists ud'.
    subst ud'. unfold button_handler.
    rewrite restricted_access_authorized by assumption.
    rewrite button_body_ask_ai by assumption.
    unfold ask_ai. rewrite Hid, Hmap, Htruthy, Hexists. simpl.
    repeat split.
  - unfold cancel_command.
    rewrite restricted_access_authorized by assumption.
    simpl. repeat split.
Qed.

(** The theorem at the button of the document with handle 0, pressed by
    the one user of the white list. *)
Lemma mode_transitions_witness :
  let ud' :=
    (button_handler Fixtures.cfg Fixtures.fs "ask_ai|0" Fixtures.press
       (set_send_birthday_broadcast false fresh_user_data,
        Fixtures.bd_sent)).1.1 in
  current_mode ud' = MODE_AI
  ∧ get_context_path ud' = Some "/srv/bot/Base/Group/Ivanov_Petr_01.01/CV.pdf"
  ∧ send_birthday_broadcast ud' = Some false.
Proof.
  refine (proj1 (mode_transitions Fixtures.cfg Fixtures.fs Fixtures.press
                   (set_send_birthday_broadcast false fresh_user_data)
                   Fixtures.bd_sent _)
            "ask_ai|0" 0 "/srv/bot/Base/Group/Ivanov_Petr_01.01/CV.pdf"
            _ _ _ _ _); try (vm_compute; reflexivity).
  exists 7. split; [reflexivity|]. right. vm_compute. reflexivity.
Defined.

End HandlerFacts.

(** ** Which files belong to a folder, and which one is its summary *)

Section FolderFacts.
Import PyStr Folder.

Lemma app_assoc_string (a b c : string) : (a +:+ b) +:+ c = a +:+ (b +:+ c).
Proof. induction a as [|x a IH]; [reflexivity|]. rewrite !app_cons. now f_equal. Qed.

Lemma under_spec (folder entry : string) :
  under folder entry = true ↔ ∃ rest, entry = folder +:+ "/" +:+ rest.
Proof.
  unfold under, startswith, OsPath.sep. rewrite prefix_spec.
  split; intros [rest ->]; exists rest; [apply app_assoc_string|].
  symmetry. apply app_assoc_string.
Qed.

(** A folder whose path continues another's without a separator shares no
    file with it. *)
Lemma under_sibling (A B entry : string) :
  A ≠ B → startswith A B = true → under A B = false →
  under B entry = true → under A entry = false.
Proof.
  intros Hne Hprefix Hnot HB. apply not_true_iff_false. intros HA.
  apply prefix_spec in Hprefix as [s ->].
  apply under_spec in HB as [r ->].
  apply under_spec in HA as [r' HA].
  rewrite app_assoc_string in HA. apply (inj (String.app A)) in HA.
  destruct s as [|c s].
  - apply Hne. clear. induction A as [|x A IH]; [reflexivity|].
    rewrite app_cons. now f_equal.
  - rewrite !app_cons, app_nil_l in HA. injection HA as -> _.
    assert (under A (A +:+ String "/" s) = true) as Hyes
      by (apply under_spec; now exists s).
    congruence.
Qed.

Lemma find_txt_first (cfg : config) (folder : string) (paths : list string) :
  find_txt cfg folder (clean_lower (OsPath.basename folder)) paths
  = OsPath.join (SCRIPT_DIR cfg)
      <$> head (List.filter (SummarySpec.qualifies folder) paths).
Proof.
  induction paths as [|f paths IH]; simpl; [reflexivity|].
  unfold SummarySpec.qualifies at 1.
  destruct (under folder f); simpl; [|exact IH].
  rewrite (andb_comm (is_txt f)).
  destruct (names_match _ f && is_txt f); simpl; [reflexivity | exact IH].
Qed.

Lemma collect_fst (cfg : config) (fs : filesystem) (folder : string)
    (paths : list string) (txt : option string) (pdfs : list string) :
  (collect cfg fs folder (clean_lower (OsPath.basename folder)) paths txt pdfs).1
  = match last (List.filter (SummarySpec.qualifies folder) paths) with
    | Some f => Some (OsPath.join (SCRIPT_DIR cfg) f)
    | None => txt
    end.
Proof.
  revert txt pdfs. induction paths as [|f paths IH]; intros txt pdfs; simpl;
    [reflexivity|].
  unfold SummarySpec.qualifies at 1.
  destruct (under folder f); simpl; [|apply IH].
  destruct (is_txt f); simpl.
  - rewrite IH. destruct (names_match _ f); simpl; [|reflexivity].
    rewrite last_cons. now destruct (last _).
  - destruct (is_pdf f); apply IH.
Qed.

Lemma filter_under (folder : string) (q : string → bool) (paths : list string)
    (f : string) :
  f ∈ List.filter (fun e => under folder e && q e) paths →
  f ∈ paths ∧ under folder f = true.
Proof.
  rewrite list_elem_of_In, filter_In, andb_true_iff, <- list_elem_of_In. tauto.
Qed.

(** C10 as stated fails on nested folders.  In the small catalog
    [Base/Group/Ivanov] and [Base/Group/Ivanov/Archive] are both folders of
    files, the first path is a proper prefix of the second, and yet the
    documents and the summary found for the first are files of the second. *)
Lemma nested_folder_files_reach_the_parent :
  let A := "Base/Group/Ivanov" in
  let B := "Base/Group/Ivanov/Archive" in
  let collected :=
    collect Fixtures.cfg Fixtures.fs A (clean_lower (OsPath.basename A))
      Fixtures.catalog None [] in
  (A ≠ B ∧ startswith A B = true)
  ∧ (OsPath.dirname "Base/Group/Ivanov/cv.pdf" = A
     ∧ OsPath.dirname "Base/Group/Ivanov/Archive/old.pdf" = B)
  ∧ (under B "Base/Group/Ivanov/Archive/old.pdf" = true
     ∧ under B "Base/Group/Ivanov/Archive/Ivanov.txt" = true)
  ∧ collected.2 = [ "/srv/bot/Base/Group/Ivanov/cv.pdf";
                    "/srv/bot/Base/Group/Ivanov/Archive/old.pdf" ]
  ∧ collected.1 = Some "/srv/bot/Base/Group/Ivanov/Archive/Ivanov.txt"
  ∧ get_summary_from_folder Fixtures.cfg Fixtures.fs A = Brief "Archived".
Proof. vm_compute. repeat split; discriminate. Qed.

(** C10, amended.  A catalog entry is attributed to a folder exactly when
    the folder's path followed by the separator is a prefix of the entry.
    Hence, for two distinct folders where the path of [A] is a prefix of the
    path of [B] and is not followed there by the separator (so [B] does not
    lie inside [A]), no entry under [B] is under [A], and every document
    enumerated for [A] and every summary file resolved for [A], by either
    variant, is a catalog entry under [A] that is not under [B]. *)
Theorem attribution_needs_separator (cfg : config) (fs : filesystem)
    (A B : string) :
  A ≠ B → startswith A B = true → under A B = false →
  let base := clean_lower (OsPath.basename A) in
  let collected := collect cfg fs A base (RELATIVE_FILE_PATHS cfg) None [] in
  (∀ entry, under A entry = true ↔ ∃ rest, entry = A +:+ "/" +:+ rest)
  ∧ (∀ entry, under B entry = true → under A entry = false)
  ∧ (∀ p,
       p ∈ collected.2 ∨ collected.1 = Some p
       ∨ find_txt cfg A base (RELATIVE_FILE_PATHS cfg) = Some p →
       ∃ entry,
         entry ∈ RELATIVE_FILE_PATHS cfg
         ∧ p = OsPath.join (SCRIPT_DIR cfg) entry
         ∧ under A entry = true
         ∧ under B entry = false).
Proof.
  intros Hne Hprefix Hnot base collected.
  split; [intros entry; apply under_spec|].
  assert (∀ entry, under B entry = true → under A entry = false) as Hsibling
    by (intros entry; now apply under_sibling).
  split; [exact Hsibling|].
  assert (∀ entry, entry ∈ RELATIVE_FILE_PATHS cfg → under A entry = true →
          ∀ p, p = OsPath.join (SCRIPT_DIR cfg) entry →
          ∃ e, e ∈ RELATIVE_FILE_PATHS cfg
               ∧ p = OsPath.join (SCRIPT_DIR cfg) e
               ∧ under A e = true ∧ under B e = false) as Hfound.
  { intros entry Hin HA p ->. exists entry. repeat split; try assumption.
    destruct (under B entry) eqn:HB; [|reflexivity].
    specialize (Hsibling entry HB). congruence. }
  intros p [Hpdf|[Htxt|Htxt]].
  - subst collected. rewrite collect_snd in Hpdf. simpl in Hpdf.
    apply list_elem_of_In, in_map_iff in Hpdf as (entry & <- & Hin).
    apply filter_In in Hin as [Hin Hq].
    rewrite !andb_true_iff in Hq. destruct Hq as [[[HA _] _] _].
    apply (Hfound entry); [now apply list_elem_of_In | assumption | reflexivity].
  - subst collected base. rewrite collect_fst in Htxt.
    destruct (last _) as [entry|] eqn:Hlast; [|discriminate].
    injection Htxt as <-.
    apply last_Some_elem_of, list_elem_of_In, filter_In in Hlast as [Hin Hq].
    unfold SummarySpec.qualifies in Hq. rewrite !andb_true_iff in Hq.
    destruct Hq as [[HA _] _].
    apply (Hfound entry); [now apply list_elem_of_In | assumption | reflexivity].
  - subst base. rewrite find_txt_first in Htxt.
    destruct (head _) as [entry|] eqn:Hhead; [|discriminate].
    injection Htxt as <-.
    apply head_Some_elem_of, list_elem_of_In, filter_In in Hhead as [Hin Hq].
    unfold SummarySpec.qualifies in Hq. rewrite !andb_true_iff in Hq.
    destruct Hq as [[HA _] _].
    apply (Hfound entry); [now apply list_elem_of_In | assumption | reflexivity].
Qed.

(** The theorem at the folders [Ivanov] and [Ivanov_Petr_01.01], which
    stand side by side. *)
Lemma attribution_needs_separator_witness :
  under "Base/Group/Ivanov" "Base/Group/Ivanov_Petr_01.01/CV.pdf" = false.
Proof.
  refine (proj1 (proj2 (attribution_needs_separator Fixtures.cfg Fixtures.fs
                          "Base/Group/Ivanov" "Base/Group/Ivanov_Petr_01.01"
                          _ _ _))
            "Base/Group/Ivanov_Petr_01.01/CV.pdf" _);
    try reflexivity. discriminate.
Defined.

(** C5.  The program on a folder with two entries that qualify as its
    summary.  The short form takes the first of them in catalog order; the
    full form, sent by [send_folder_contents], takes the last.  The first
    file holds 600 characters that start with a space: the short form reads
    500 of them, strips the space, and returns 499 characters without the
    dots that mark a cut. *)
Theorem summary_variants_disagree :
  let folder := "Base/Group/Ivanov_Petr_01.01" in
  let base := clean_lower (OsPath.basename folder) in
  SummarySpec.candidates Fixtures.cfg folder
  = [ "Base/Group/Ivanov_Petr_01.01/Ivanov_Petr.txt";
      "Base/Group/Ivanov_Petr_01.01/Ivanov.txt" ]
  ∧ find_txt Fixtures.cfg folder base Fixtures.catalog
    = Some "/srv/bot/Base/Group/Ivanov_Petr_01.01/Ivanov_Petr.txt"
  ∧ (collect Fixtures.cfg Fixtures.fs folder base Fixtures.catalog None []).1
    = Some "/srv/bot/Base/Group/Ivanov_Petr_01.01/Ivanov.txt"
  ∧ (Sender.send_folder_contents Fixtures.cfg Fixtures.fs None folder
       Fixtures.bd).2 !! 1%nat
    = Some (SummaryMessage false "Ivanov Petr 01.01" "Born 01.01")
  ∧ String.length Fixtures.long_text = 600%nat
  ∧ String.length (OsPath.take 500 Fixtures.long_text) = 500%nat
  ∧ get_summary_from_folder Fixtures.cfg Fixtures.fs folder
    = Brief (Fixtures.replicate_char 499 "a").
Proof. vm_compute. repeat split. Qed.

End FolderFacts.

(** ** Long texts cut into messages *)

Section ChunkFacts.
Import PyStr Chunks.

Lemma string_length_app (a b : string) :
  String.length (a +:+ b) = (String.length a + String.length b)%nat.
Proof. induction a as [|c a IH]; [easy|]. rewrite app_cons. simpl. now rewrite IH. Qed.

Lemma string_take_drop (n : nat) (s : string) : OsPath.take n s +:+ OsPath.drop n s = s.
Proof.
  revert s. induction n as [|n IH]; intros [|c s]; try easy.
  simpl. rewrite app_cons. now rewrite IH.
Qed.

Lemma string_length_take (n : nat) (s : string) :
  String.length (OsPath.take n s) = Nat.min n (String.length s).
Proof.
  revert s. induction n as [|n IH]; intros [|c s]; try easy.
  simpl. now rewrite IH.
Qed.

Lemma string_length_drop (n : nat) (s : string) :
  String.length (OsPath.drop n s) = (String.length s - n)%nat.
Proof.
  revert s. induction n as [|n IH]; intros [|c s]; try easy.
  simpl. now rewrite IH.
Qed.

Lemma length_lstrip_by (p : ascii → bool) (s : string) :
  (String.length (lstrip_by p s) <= String.length s)%nat.
Proof.
  induction s as [|c s IH]; [easy|]. simpl. destruct (p c); simpl; lia.
Qed.

Lemma length_rstrip_by (p : ascii → bool) (s : string) :
  (String.length (rstrip_by p s) <= String.length s)%nat.
Proof.
  induction s as [|c s IH]; [easy|]. simpl.
  destruct (rstrip_by p s); [destruct (p c)|]; simpl in *; lia.
Qed.

Lemma length_strip (s : string) :
  (String.length (strip s) <= String.length s)%nat.
Proof.
  unfold strip, rstrip, lstrip.
  etrans; [apply length_rstrip_by|apply length_lstrip_by].
Qed.

Lemma string_ind2 (P : string → Prop) :
  P "" → (∀ c, P (String c "")) →
  (∀ c d r, P r → P (String d r) → P (String c (String d r))) →
  ∀ s, P s.
Proof.
  intros H0 H1 H2.
  assert (∀ s, P s ∧ ∀ c, P (String c s)) as H; [|intros s; apply H].
  induction s as [|d r [IH1 IH2]]; split; auto.
Qed.

Lemma squeeze_app (a b : string) : squeeze (a +:+ b) = squeeze a +:+ squeeze b.
Proof.
  induction a as [|c a IH]; [easy|]. rewrite app_cons. simpl.
  destruct (isspace c); [easy|]. now rewrite app_cons, IH.
Qed.

Lemma squeeze_lstrip (s : string) : squeeze (lstrip s) = squeeze s.
Proof.
  unfold lstrip. induction s as [|c s IH]; [easy|]. simpl.
  destruct (isspace c) eqn:E; [easy|]. simpl. now rewrite E.
Qed.

Lemma squeeze_rstrip (s : string) : squeeze (rstrip s) = squeeze s.
Proof.
  unfold rstrip. induction s as [|c s IH]; [easy|]. simpl.
  destruct (rstrip_by isspace s) eqn:E.
  - destruct (isspace c) eqn:Ec; simpl; rewrite ?Ec, <- IH; easy.
  - simpl in *. now rewrite IH.
Qed.

Lemma squeeze_strip (s : string) : squeeze (strip s) = squeeze s.
Proof. unfold strip. now rewrite squeeze_rstrip, squeeze_lstrip. Qed.

Lemma glue_app (a b : list string) : glue (a ++ b) = glue a +:+ glue b.
Proof.
  induction a as [|x a IH]; [easy|]. simpl. unfold glue in *. simpl.
  now rewrite IH, app_assoc_string.
Qed.

Lemma split_blank_go_cons (c d : ascii) (r : string) :
  split_blank_go (String c (String d r))
  = if Ascii.eqb c newline && Ascii.eqb d newline
    then let '(w, ws) := split_blank_go r in (EmptyString, w :: ws)
    else let '(w, ws) := split_blank_go (String d r) in (String c w, ws).
Proof. reflexivity. Qed.

Lemma split_blank_go_squeeze (s : string) :
  squeeze ((split_blank_go s).1 +:+ glue (split_blank_go s).2) = squeeze s.
Proof.
  induction s as [| c | c d r IH1 IH2] using string_ind2; [easy|easy|].
  rewrite split_blank_go_cons.
  destruct (Ascii.eqb c newline && Ascii.eqb d newline) eqn:E.
  - apply andb_true_iff in E as [->%Ascii.eqb_eq ->%Ascii.eqb_eq].
    destruct (split_blank_go r) as [w ws]. exact IH1.
  - destruct (split_blank_go (String d r)) as [w ws].
    cbn [fst snd] in *. rewrite app_cons.
    change (squeeze (String c ?x))
      with (if isspace c then squeeze x else String c (squeeze x)).
    now rewrite IH2.
Qed.

Lemma split_blank_squeeze (s : string) :
  squeeze (glue (split_blank s)) = squeeze s.
Proof.
  rewrite <- (split_blank_go_squeeze s). unfold split_blank.
  now destruct (split_blank_go s).
Qed.

Lemma split_blank_go_length (s : string) :
  (String.length ((split_blank_go s).1 +:+ glue (split_blank_go s).2)
   <= String.length s)%nat.
Proof.
  induction s as [| c | c d r IH1 IH2] using string_ind2; [easy|easy|].
  rewrite split_blank_go_cons.
  destruct (Ascii.eqb c newline && Ascii.eqb d newline) eqn:E.
  - destruct (split_blank_go r) as [w ws]. cbn [fst snd String.length] in *.
    rewrite app_nil_l in *. change (glue (w :: ws)) with (w +:+ glue ws). lia.
  - destruct (split_blank_go (String d r)) as [w ws].
    cbn [fst snd] in *. rewrite app_cons. cbn [String.length] in *. lia.
Qed.

Lemma glue_length (chunks : list string) (c : string) :
  c ∈ chunks → (String.length c <= String.length (glue chunks))%nat.
Proof.
  induction chunks as [|x l IH]; [now intros ?%not_elem_of_nil|].
  intros [->|H]%elem_of_cons; unfold glue in *; simpl;
    rewrite string_length_app; [lia|]. specialize (IH H). lia.
Qed.

Lemma split_blank_length (s p : string) :
  p ∈ split_blank s → (String.length p <= String.length s)%nat.
Proof.
  intros H. etrans; [apply (glue_length _ _ H)|].
  unfold split_blank. pose proof (split_blank_go_length s) as L.
  destruct (split_blank_go s). exact L.
Qed.

Lemma split_blank_cons (s : string) : ∃ p ps, split_blank s = p :: ps.
Proof. unfold split_blank. destruct (split_blank_go s). eauto. Qed.

Lemma cut_short (fuel : nat) (m : Z) (p : string) (chunks : list string) :
  len p <= m → cut fuel m p chunks = Some (chunks, p).
Proof.
  intros H. destruct fuel; simpl; now rewrite (proj2 (Z.ltb_ge _ _) H).
Qed.

Lemma cut_returns (fuel : nat) (m : Z) (p : string) (chunks : list string) :
  1 <= m → (String.length p <= fuel)%nat →
  ∃ pieces rest,
    cut fuel m p chunks = Some (chunks ++ pieces, rest)
    ∧ Forall (λ c, len c <= m) pieces
    ∧ len rest <= m
    ∧ glue pieces +:+ rest = p.
Proof.
  intros Hm. revert p chunks.
  induction fuel as [|fuel IH]; intros p chunks Hp.
  - exists [], p. rewrite cut_short, app_nil_r; unfold len; repeat split; auto; lia.
  - destruct (Z.ltb_spec m (len p)) as [Hlt|Hge].
    + destruct (IH (slice_from m p) (chunks ++ [slice_to m p]))
        as (pieces & rest & E & Hs & Hr & Hg).
      { unfold slice_from, slice_bound, len in *.
        rewrite (proj2 (Z.ltb_ge m 0)) by lia. rewrite string_length_drop. lia. }
      exists (slice_to m p :: pieces), rest.
      simpl. rewrite (proj2 (Z.ltb_lt _ _) Hlt), E, <- app_assoc.
      repeat split; auto.
      * constructor; [|exact Hs].
        unfold slice_to, slice_bound, len in *.
        rewrite (proj2 (Z.ltb_ge m 0)) by lia. rewrite string_length_take. lia.
      * change (glue (slice_to m p :: pieces))
          with (slice_to m p +:+ glue pieces).
        rewrite app_assoc_string, Hg. apply string_take_drop.
    + exists [], p. rewrite cut_short, app_nil_r by easy. repeat split; auto.
Qed.

Lemma cut_fuel (fuel fuel' : nat) (m : Z) (p : string) (chunks : list string)
    (r : list string * string) :
  cut fuel m p chunks = Some r → (fuel <= fuel')%nat →
  cut fuel' m p chunks = Some r.
Proof.
  revert fuel' p chunks. induction fuel as [|fuel IH]; intros fuel' p chunks.
  - simpl. destruct (m <? len p) eqn:E; [easy|]. intros [= <-] _.
    apply cut_short. now apply Z.ltb_ge.
  - simpl. destruct (m <? len p) eqn:E.
    + intros H Hf. destruct fuel' as [|fuel']; [lia|]. simpl. rewrite E.
      apply IH; [exact H|lia].
    + intros [= <-] _. apply cut_short. now apply Z.ltb_ge.
Qed.

Lemma lstrip_by_app (p : ascii → bool) (x z : string) :
  lstrip_by p (x +:+ z)
  = match lstrip_by p x with
    | EmptyString => lstrip_by p z
    | y => y +:+ z
    end.
Proof.
  induction x as [|c x IH]; [now rewrite app_nil_l|].
  rewrite app_cons. simpl. destruct (p c); [exact IH|now rewrite app_cons].
Qed.

Lemma rstrip_by_app (p : ascii → bool) (y z : string) :
  rstrip_by p z = "" → rstrip_by p (y +:+ z) = rstrip_by p y.
Proof.
  intros Hz. induction y as [|c y IH]; [now rewrite app_nil_l|].
  rewrite app_cons. simpl. now rewrite IH.
Qed.

Lemma length_strip_blank (x : string) :
  (String.length (strip (x +:+ blank))
   <= String.length x)%nat.
Proof.
  unfold strip, lstrip, rstrip. rewrite lstrip_by_app.
  pose proof (length_lstrip_by isspace x) as L.
  destruct (lstrip_by isspace x) as [|c y]; [simpl; lia|].
  rewrite rstrip_by_app by reflexivity.
  etrans; [apply length_rstrip_by|exact L].
Qed.

Lemma pending_strip (m : Z) (current_chunk : string) :
  0 <= m → pending m current_chunk → len (strip current_chunk) <= m.
Proof.
  intros Hm [->|(x & -> & Hx)]; [exact Hm|].
  pose proof (length_strip_blank x). unfold len in *. lia.
Qed.

Lemma app_nil_r_string (s : string) : s +:+ "" = s.
Proof. induction s as [|c s IH]; [easy|]. now rewrite app_cons, IH. Qed.

Lemma blank_ne (x : string) : x +:+ blank ≠ "".
Proof. destruct x; [easy|]. now rewrite app_cons. Qed.

Lemma fill_returns (fuel : nat) (m : Z) (paragraphs chunks : list string)
    (current_chunk : string) :
  1 <= m →
  Forall (λ p, (String.length p <= fuel)%nat) paragraphs →
  pending m current_chunk →
  Forall (λ c, len c <= m) chunks →
  ∃ chunks' current_chunk',
    fill fuel m paragraphs chunks current_chunk = Some (chunks', current_chunk')
    ∧ Forall (λ c, len c <= m) chunks'
    ∧ pending m current_chunk'
    ∧ (paragraphs ≠ [] ∨ current_chunk ≠ "" → current_chunk' ≠ "")
    ∧ squeeze (glue chunks' +:+ current_chunk')
      = squeeze (glue chunks +:+ current_chunk +:+ glue paragraphs).
Proof.
  intros Hm Hfuel. revert chunks current_chunk.
  induction Hfuel as [|p paragraphs Hp _ IH]; intros chunks cc Hcc Hchunks.
  - exists chunks, cc. simpl. repeat split; auto.
    + now intros [?|?].
    + change (glue []) with "". now rewrite app_nil_r_string.
  - cbn [fill].
    set (flush := (m <? len cc + len p + 2) && truthy cc).
    assert (∃ chunks1 cc1,
      (if flush then (chunks ++ [strip cc], "") else (chunks, cc))
      = (chunks1, cc1)
      ∧ Forall (λ c, len c <= m) chunks1
      ∧ squeeze (glue chunks1 +:+ cc1) = squeeze (glue chunks +:+ cc)
      ∧ (cc1 = "" ∨ (len cc1 + len p + 2 <= m ∧ cc1 = cc)))
      as (chunks1 & cc1 & -> & Hchunks1 & Hsq & Hcc1).
    { destruct flush eqn:E.
      - exists (chunks ++ [strip cc]), "". repeat split; auto.
        + apply Forall_app. split; [exact Hchunks|].
          constructor; [|constructor]. apply pending_strip; [lia|exact Hcc].
        + rewrite glue_app, !squeeze_app.
          change (glue [strip cc]) with (strip cc +:+ "").
          rewrite !squeeze_app, squeeze_strip.
          change (squeeze "") with "". now rewrite !app_nil_r_string.
      - exists chunks, cc. repeat split; auto.
        subst flush. apply andb_false_iff in E as [E|E].
        + right. apply Z.ltb_ge in E. split; [lia|easy].
        + left. unfold truthy in E. apply negb_false_iff in E.
          now apply String.eqb_eq in E. }
    assert (∃ pieces rest,
      cut fuel m p chunks1 = Some (chunks1 ++ pieces, rest)
      ∧ Forall (λ c, len c <= m) pieces
      ∧ glue pieces +:+ rest = p
      ∧ pending m (cc1 +:+ rest +:+ blank)
      ∧ (cc1 = "" ∨ pieces = []))
      as (pieces & rest & -> & Hpieces & Hglue & Hnext & Horder).
    { destruct Hcc1 as [->|[Hlen ->]].
      - destruct (cut_returns fuel m p chunks1 Hm Hp)
          as (pieces & rest & -> & Hpieces & Hrest & Hglue).
        exists pieces, rest. repeat split; auto.
        right. exists rest. now rewrite app_nil_l.
      - exists [], p. rewrite cut_short, app_nil_r by (unfold len in *; lia).
        repeat split; auto. right. exists (cc +:+ p).
        split; [now rewrite app_assoc_string|].
        unfold len in *. rewrite string_length_app. lia. }
    destruct (IH (chunks1 ++ pieces)
                (cc1 +:+ rest +:+ blank))
      as (chunks' & cc' & -> & H1 & H2 & H3 & H4); [exact Hnext| |].
    { apply Forall_app. now split. }
    exists chunks', cc'. repeat split; auto.
    + intros _. apply H3. right.
      rewrite <- app_assoc_string. apply blank_ne.
    + rewrite H4. change (glue (p :: paragraphs)) with (p +:+ glue paragraphs).
      rewrite glue_app, <- Hglue, !squeeze_app.
      change (squeeze (blank)) with "".
      rewrite app_nil_r_string. rewrite !squeeze_app in Hsq.
      destruct Horder as [->| ->].
      * change (squeeze "") with "" in *.
        rewrite app_nil_r_string in Hsq. rewrite app_nil_l, Hsq.
        now rewrite !app_assoc_string.
      * change (squeeze (glue [])) with "".
        rewrite app_nil_r_string, app_nil_l.
        rewrite <- (app_assoc_string (squeeze (glue chunks))), <- Hsq.
        now rewrite !app_assoc_string.
Qed.

Lemma fill_fuel (fuel fuel' : nat) (m : Z) (paragraphs chunks : list string)
    (current_chunk : string) (r : list string * string) :
  fill fuel m paragraphs chunks current_chunk = Some r → (fuel <= fuel')%nat →
  fill fuel' m paragraphs chunks current_chunk = Some r.
Proof.
  intros H Hf. revert chunks current_chunk H.
  induction paragraphs as [|p paragraphs IH]; intros chunks cc; [easy|].
  cbn [fill].
  destruct (if (m <? len cc + len p + 2) && truthy cc
            then (chunks ++ [strip cc], "") else (chunks, cc)) as [chunks1 cc1].
  destruct (cut fuel m p chunks1) as [[chunks2 p']|] eqn:E; [|easy].
  rewrite (cut_fuel _ _ _ _ _ _ E Hf). apply IH.
Qed.

Lemma fill_short (fuel : nat) (m : Z) (paragraphs chunks : list string)
    (current_chunk : string) :
  len current_chunk + len (glue (map (λ p, p +:+ blank) paragraphs)) <= m →
  fill fuel m paragraphs chunks current_chunk
  = Some (chunks,
          current_chunk +:+ glue (map (λ p, p +:+ blank) paragraphs)).
Proof.
  revert current_chunk.
  induction paragraphs as [|p paragraphs IH]; intros cc H.
  - simpl. change (glue []) with "". now rewrite app_nil_r_string.
  - cbn [fill map] in *.
    change (glue (?x :: ?l)) with (x +:+ glue l) in *.
    unfold len in *. rewrite !string_length_app in H.
    change (String.length blank) with 2%nat in H.
    rewrite (proj2 (Z.ltb_ge _ _)) by lia. cbn [andb].
    rewrite cut_short by (unfold len; lia).
    rewrite IH; [now rewrite !app_assoc_string|].
    rewrite !string_length_app. change (String.length blank) with 2%nat. lia.
Qed.

Lemma split_blank_go_join (s : string) :
  (split_blank_go s).1 +:+ blank
    +:+ glue (map (λ p, p +:+ blank) (split_blank_go s).2)
  = s +:+ blank.
Proof.
  induction s as [| c | c d r IH1 IH2] using string_ind2; [easy|easy|].
  rewrite split_blank_go_cons.
  destruct (Ascii.eqb c newline && Ascii.eqb d newline) eqn:E.
  - apply andb_true_iff in E as [->%Ascii.eqb_eq ->%Ascii.eqb_eq].
    destruct (split_blank_go r) as [w ws]. cbn [fst snd map] in *.
    change (glue (?x :: ?l)) with (x +:+ glue l).
    rewrite app_nil_l. unfold blank at 1. rewrite !app_cons, app_nil_l.
    rewrite app_assoc_string. do 2 f_equal. exact IH1.
  - destruct (split_blank_go (String d r)) as [w ws]. cbn [fst snd] in *.
    rewrite !app_cons. now rewrite IH2.
Qed.

Lemma split_blank_join (s : string) :
  glue (map (λ p, p +:+ blank) (split_blank s)) = s +:+ blank.
Proof.
  rewrite <- (split_blank_go_join s). unfold split_blank.
  destruct (split_blank_go s) as [w ws]. cbn [map fst snd].
  change (glue (?x :: ?l)) with (x +:+ glue l).
  now rewrite app_assoc_string.
Qed.

Lemma strip_blank (s : string) : strip (s +:+ blank) = strip s.
Proof.
  unfold strip, lstrip, rstrip. rewrite lstrip_by_app.
  destruct (lstrip_by isspace s) as [|c y]; [easy|].
  now rewrite rstrip_by_app.
Qed.

Lemma cut_diverges (fuel : nat) (m : Z) (p : string) (chunks : list string) :
  m <= 0 → m < len p → cut fuel m p chunks = None.
Proof.
  intros Hm. revert p chunks. induction fuel as [|fuel IH]; intros p chunks Hp;
    simpl; rewrite (proj2 (Z.ltb_lt _ _) Hp); [easy|].
  apply IH. unfold slice_from, slice_bound.
  destruct (Z.ltb_spec m 0); [unfold len; lia|].
  replace m with 0 in * by lia. exact Hp.
Qed.

Lemma fill_diverges (fuel : nat) (m : Z) (paragraphs chunks : list string)
    (current_chunk p : string) :
  m <= 0 → p ∈ paragraphs → m < len p →
  fill fuel m paragraphs chunks current_chunk = None.
Proof.
  intros Hm Hin Hp. revert chunks current_chunk.
  induction paragraphs as [|q paragraphs IH]; intros chunks cc;
    [now apply not_elem_of_nil in Hin|].
  cbn [fill].
  destruct (if (m <? len cc + len q + 2) && truthy cc
            then (chunks ++ [strip cc], "") else (chunks, cc)) as [chunks1 cc1].
  apply elem_of_cons in Hin as [<-|Hin].
  - now rewrite cut_diverges.
  - destruct (cut fuel m q chunks1) as [[chunks2 q']|]; [|easy]. now apply IH.
Qed.

Lemma squeeze_glue_nil (chunks : list string) :
  (∀ c, c ∈ chunks → c = "") → squeeze (glue chunks) = "".
Proof.
  induction chunks as [|x l IH]; [easy|]. intros H.
  change (glue (x :: l)) with (x +:+ glue l).
  rewrite squeeze_app, IH, (H x) by set_solver. easy.
Qed.

Lemma fill_text (text : string) (max_length : Z) :
  1 <= max_length →
  ∃ chunks current_chunk,
    fill (String.length text) max_length (split_blank text) [] ""
    = Some (chunks, current_chunk)
    ∧ Forall (λ c, len c <= max_length) chunks
    ∧ pending max_length current_chunk
    ∧ current_chunk ≠ ""
    ∧ squeeze (glue chunks +:+ current_chunk) = squeeze text.
Proof.
  intros Hm.
  destruct (fill_returns (String.length text) max_length (split_blank text)
              [] "" Hm) as (chunks & cc & E & H1 & H2 & H3 & H4).
  - apply Forall_forall. intros p Hp. now apply split_blank_length.
  - now left.
  - constructor.
  - exists chunks, cc. repeat split; auto.
    + apply H3. left. destruct (split_blank_cons text) as (p & ps & ->). easy.
    + rewrite H4. change (glue []) with "".
      rewrite !app_nil_l. apply split_blank_squeeze.
Qed.

(** X1. [split_text_into_chunks] with a limit of at least one character
    returns, whatever the text, once each paragraph may take as many rounds
    as the text has characters; the list it returns is never empty, and no
    chunk is longer than the limit. *)
Theorem split_text_into_chunks_fits (text : string) (max_length : Z) :
  1 <= max_length →
  ∃ chunks,
    (∀ fuel, (String.length text <= fuel)%nat →
       split_text_into_chunks fuel text max_length = Some chunks)
    ∧ chunks ≠ []
    ∧ Forall (λ chunk, len chunk <= max_length) chunks.
Proof.
  intros Hm.
  destruct (fill_text text max_length Hm) as (chunks & cc & E & H1 & H2 & H3 & _).
  exists (chunks ++ [strip cc]). repeat split.
  - intros fuel Hfuel. unfold split_text_into_chunks.
    rewrite (fill_fuel _ _ _ _ _ _ _ E Hfuel).
    unfold truthy. now rewrite (proj2 (String.eqb_neq _ _) H3).
  - now destruct chunks.
  - apply Forall_app. split; [exact H1|].
    constructor; [|constructor]. apply pending_strip; [lia|exact H2].
Qed.

Lemma split_text_into_chunks_fits_witness :
  ∃ chunks,
    (∀ fuel, (String.length "ab" <= fuel)%nat →
       split_text_into_chunks fuel "ab" 1 = Some chunks)
    ∧ chunks ≠ []
    ∧ Forall (λ chunk, len chunk <= 1) chunks.
Proof. apply (split_text_into_chunks_fits "ab" 1). lia. Defined.

(** X2. The chunks keep the text: written one after the other they hold
    the characters of the text that are not white space, all of them and in
    the order of the text.  Only white space is dropped, where a chunk is
    stripped. *)
Theorem split_text_into_chunks_keeps_the_text (fuel : nat) (text : string)
    (max_length : Z) :
  1 <= max_length → (String.length text <= fuel)%nat →
  ∃ chunks,
    split_text_into_chunks fuel text max_length = Some chunks
    ∧ squeeze (glue chunks) = squeeze text.
Proof.
  intros Hm Hfuel.
  destruct (fill_text text max_length Hm) as (chunks & cc & E & _ & _ & H3 & H4).
  exists (chunks ++ [strip cc]). split.
  - unfold split_text_into_chunks.
    rewrite (fill_fuel _ _ _ _ _ _ _ E Hfuel).
    unfold truthy. now rewrite (proj2 (String.eqb_neq _ _) H3).
  - rewrite <- H4, glue_app, !squeeze_app.
    change (glue [strip cc]) with (strip cc +:+ "").
    now rewrite app_nil_r_string, squeeze_strip.
Qed.

Lemma split_text_into_chunks_keeps_the_text_witness :
  ∃ chunks,
    split_text_into_chunks 2 "ab" 1 = Some chunks
    ∧ squeeze (glue chunks) = squeeze "ab".
Proof.
  apply (split_text_into_chunks_keeps_the_text 2 "ab" 1); simpl; lia.
Defined.

(** X3. A text that leaves room for one separator below the limit comes
    back as one chunk, the text stripped; the inner loop is not entered, so
    this holds for any number of rounds allowed. *)
Theorem short_text_is_one_chunk (fuel : nat) (text : string) (max_length : Z) :
  len text + 2 <= max_length →
  split_text_into_chunks fuel text max_length = Some [strip text].
Proof.
  intros H. unfold split_text_into_chunks.
  rewrite fill_short; rewrite split_blank_join.
  - rewrite app_nil_l. unfold truthy.
    rewrite (proj2 (String.eqb_neq _ _) (blank_ne text)).
    cbn [negb app]. now rewrite strip_blank.
  - unfold len in *. rewrite string_length_app.
    change (String.length blank) with 2%nat. simpl. lia.
Qed.

Lemma short_text_is_one_chunk_witness :
  split_text_into_chunks 0 " Born 01.01 " 4000 = Some [strip " Born 01.01 "].
Proof. apply short_text_is_one_chunk. vm_compute. discriminate. Defined.

(** X4. With a limit of zero or less the inner loop never ends on a
    paragraph longer than the limit, which is any paragraph when the limit
    is negative and any paragraph with a character when it is zero: no
    number of rounds lets the function return. *)
Theorem split_text_into_chunks_never_ends (text paragraph : string)
    (max_length : Z) :
  max_length <= 0 →
  paragraph ∈ split_blank text →
  max_length < len paragraph →
  ∀ fuel, split_text_into_chunks fuel text max_length = None.
Proof.
  intros Hm Hin Hp fuel. unfold split_text_into_chunks.
  now rewrite (fill_diverges fuel max_length _ [] "" paragraph Hm Hin Hp).
Qed.

Lemma split_text_into_chunks_never_ends_witness :
  split_text_into_chunks 1000 "a" 0 = None.
Proof.
  apply (split_text_into_chunks_never_ends "a" "a" 0);
    [lia|constructor|unfold len; simpl; lia].
Defined.

End ChunkFacts.

(** ** Numbers in callback data *)

Section NumberFacts.
Import PyStr Digits.

Lemma uint_acc_pos (d : Decimal.uint) (acc : positive) :
  uint_acc d (Z.pos acc) = Z.pos (Pos.of_uint_acc d acc).
Proof.
  revert acc. induction d; intros acc; simpl; [easy|..];
    rewrite <- IHd; f_equal; lia.
Qed.

Lemma uint_acc_zero (d : Decimal.uint) : uint_acc d 0 = Z.of_N (Pos.of_uint d).
Proof.
  induction d; simpl; [easy|exact IHd|..]; now rewrite <- uint_acc_pos.
Qed.

Lemma digits_value_digit (c : ascii) (v acc : Z) (after_digit : bool)
    (r : string) :
  digit c = Some v →
  digits_value acc after_digit (String c r) = digits_value (10 * acc + v) true r.
Proof. intros H. cbn [digits_value]. now rewrite H. Qed.

Lemma digits_value_after_digit (d : Decimal.uint) (acc : Z) :
  digits_value acc true (NilEmpty.string_of_uint d) = Some (uint_acc d acc).
Proof.
  revert acc. induction d; intros acc; [easy|..];
    cbn [NilEmpty.string_of_uint uint_acc];
    erewrite digits_value_digit by reflexivity; rewrite IHd;
    now rewrite ?Z.add_0_r.
Qed.

Lemma digits_value_uint (d : Decimal.uint) (acc : Z) (after_digit : bool) :
  d ≠ Decimal.Nil →
  digits_value acc after_digit (NilEmpty.string_of_uint d)
  = Some (uint_acc d acc).
Proof.
  intros H. rewrite <- digits_value_after_digit. now destruct d.
Qed.

(** The digits of a number hold no character [int] strips, and start with
    no sign. *)
Lemma digits_kept (d : Decimal.uint) :
  d ≠ Decimal.Nil →
  rstrip_by int_space (NilEmpty.string_of_uint d) = NilEmpty.string_of_uint d
  ∧ ∃ c r, NilEmpty.string_of_uint d = String c r
           ∧ int_space c = false ∧ c ≠ "+"%char ∧ c ≠ "-"%char.
Proof.
  intros H. split.
  - clear H. induction d; [easy|..];
      cbn [NilEmpty.string_of_uint rstrip_by]; rewrite IHd;
      now destruct (NilEmpty.string_of_uint d).
  - destruct d; [easy|..]; eexists _, _; (split; [reflexivity|]);
      repeat split; discriminate.
Qed.

Lemma int_digits (d : Decimal.uint) :
  d ≠ Decimal.Nil →
  int (NilEmpty.string_of_uint d) = Some (uint_acc d 0).
Proof.
  intros H. destruct (digits_kept d H) as (Hr & c & r & E & Hc & Hplus & Hminus).
  unfold int. rewrite <- (digits_value_uint d 0 false H).
  rewrite E in *. cbn [lstrip_by]. rewrite Hc, Hr.
  destruct c as [[] [] [] [] [] [] [] []]; try reflexivity; congruence.
Qed.

Lemma int_minus_digits (d : Decimal.uint) :
  d ≠ Decimal.Nil →
  int (String "-" (NilEmpty.string_of_uint d)) = Some (- uint_acc d 0).
Proof.
  intros H. destruct (digits_kept d H) as (Hr & _).
  unfold int. cbn [lstrip_by]. change (int_space "-") with false. cbn iota.
  cbn [rstrip_by]. rewrite Hr.
  destruct (NilEmpty.string_of_uint d) eqn:E; [now destruct d|].
  rewrite <- E, (digits_value_uint d 0 false H). reflexivity.
Qed.

(** Reading back what was written: [int(str(n))] is [n]. *)
Lemma int_of_str (n : Z) : int (str n) = Some n.
Proof.
  destruct n as [|p|p]; [reflexivity|..]; unfold str;
    cbn [Z.to_int NilZero.string_of_int];
    pose proof (DecimalPos.Unsigned.to_uint_nonnil p) as Hnil;
    pose proof (DecimalPos.Unsigned.of_to p) as Hof.
  - unfold NilZero.string_of_uint.
    destruct (Pos.to_uint p) eqn:E; [easy|..]; rewrite <- E in *;
      rewrite int_digits, uint_acc_zero, Hof by easy; reflexivity.
  - unfold NilZero.string_of_uint.
    destruct (Pos.to_uint p) eqn:E; [easy|..]; rewrite <- E in *;
      rewrite int_minus_digits, uint_acc_zero, Hof by easy; reflexivity.
Qed.

End NumberFacts.

Section CallbackFacts.
Import PyStr Pager Handlers Digits.

Lemma digits_no_char (c : ascii) (d : Decimal.uint) :
  digit c = None → has_char c (NilEmpty.string_of_uint d) = false.
Proof.
  intros H. induction d; [easy|..]; cbn [NilEmpty.string_of_uint has_char];
    rewrite IHd, orb_false_r; apply Ascii.eqb_neq; now intros <-.
Qed.

Lemma nilzero_no_char (c : ascii) (d : Decimal.uint) :
  digit c = None → has_char c (NilZero.string_of_uint d) = false.
Proof.
  intros H. destruct d; try exact (digits_no_char c _ H).
  unfold NilZero.string_of_uint. cbn [has_char].
  rewrite orb_false_r. apply Ascii.eqb_neq. now intros <-.
Qed.

Lemma str_no_char (c : ascii) (n : Z) :
  digit c = None → c ≠ "-"%char → has_char c (str n) = false.
Proof.
  intros H Hminus. unfold str.
  destruct n as [|p|p]; cbn [Z.to_int NilZero.string_of_int];
    try exact (nilzero_no_char c _ H).
  cbn [has_char]. rewrite (proj2 (Ascii.eqb_neq _ _)) by congruence.
  exact (nilzero_no_char c _ H).
Qed.

Lemma split_on_go_none (c : ascii) (s : string) :
  has_char c s = false → split_on_go c s = (s, []).
Proof.
  induction s as [|d s IH]; [easy|]. cbn [has_char split_on_go].
  intros [H1 H2]%orb_false_iff. now rewrite IH, H1.
Qed.

Lemma page_data_index (way : string) (n : Z) :
  has_char ":" way = false →
  split_on ":" ("card:" +:+ way +:+ ":" +:+ str n) !! 2%nat ≫= int = Some n.
Proof.
  intros Hway.
  assert (∀ a b, has_char ":" a = false →
            split_on_go ":" (a +:+ ":" +:+ b)
            = (a, (split_on_go ":" b).1 :: (split_on_go ":" b).2)) as step.
  { intros a b. induction a as [|x a IH]; intros H.
    - rewrite app_nil_l, app_cons, app_nil_l. cbn [split_on_go].
      now destruct (split_on_go ":" b).
    - cbn [has_char] in H. apply orb_false_iff in H as [H1 H2].
      rewrite app_cons. cbn [split_on_go]. now rewrite (IH H2), H1. }
  unfold split_on.
  change ("card:" +:+ way +:+ ":" +:+ str n)
    with ("card" +:+ ":" +:+ (way +:+ ":" +:+ str n)).
  rewrite (step "card") by reflexivity. rewrite (step way) by assumption.
  rewrite split_on_go_none by now apply str_no_char.
  cbn. apply int_of_str.
Qed.

Lemma after_first_app (c : ascii) (p s : string) :
  has_char c p = false → after_first c (p +:+ String c s) = Some s.
Proof.
  induction p as [|d p IH]; intros H.
  - rewrite app_nil_l. cbn. now rewrite Ascii.eqb_refl.
  - cbn [has_char] in H. apply orb_false_iff in H as [H1 H2].
    rewrite app_cons. cbn [after_first]. now rewrite H1, IH.
Qed.

(** X5. What the program writes in the callback data of a button, it reads
    back when the button is pressed: the position of a card behind
    [card:prev:] and [card:next:], the position to open behind
    [select_folder:], the handle of a document behind [ask_ai|] and the
    handle of a birthday behind [full_report:], for every integer, negative
    ones included. *)
Theorem callback_data_round_trip (n : Z) :
  split_on ":" ("card:prev:" +:+ str n) !! 2%nat ≫= int = Some n
  ∧ split_on ":" ("card:next:" +:+ str n) !! 2%nat ≫= int = Some n
  ∧ after_first ":" ("select_folder:" +:+ str n) ≫= int = Some n
  ∧ after_first "|" ("ask_ai|" +:+ str n) ≫= int = Some n
  ∧ after_first ":" ("full_report" +:+ ":" +:+ str n) ≫= int = Some n.
Proof.
  repeat split.
  - exact (page_data_index "prev" n eq_refl).
  - exact (page_data_index "next" n eq_refl).
  - change ("select_folder:" +:+ str n)
      with ("select_folder" +:+ String ":" (str n)).
    rewrite after_first_app by reflexivity. apply int_of_str.
  - change ("ask_ai|" +:+ str n) with ("ask_ai" +:+ String "|" (str n)).
    rewrite after_first_app by reflexivity. apply int_of_str.
  - change ("full_report" +:+ ":" +:+ str n)
      with ("full_report" +:+ String ":" (str n)).
    rewrite after_first_app by reflexivity. apply int_of_str.
Qed.

End CallbackFacts.

(** ** The session of the pager *)

Section SessionFacts.
Import PyStr Pager Handlers.

Variables (cfg : config) (fs : filesystem).

Lemma startswith_prefix (p s : string) : startswith p (p +:+ s) = true.
Proof. apply prefix_spec. now exists s. Qed.

Lemma markup_find (matches : list string) (index : Z) (row : list button)
    (callback_data : string) :
  row ∈ generate_person_card_markup matches index →
  Find callback_data ∈ row →
  callback_data = "select_folder:" +:+ str index.
Proof.
  unfold generate_person_card_markup. intros Hrow Hfind.
  apply elem_of_cons in Hrow as [->|Hrow].
  - apply elem_of_cons in Hfind as [Hfind|Hfind];
      [destruct (0 <? index); discriminate|].
    apply elem_of_cons in Hfind as [Hfind|Hfind]; [discriminate|].
    apply elem_of_cons in Hfind as [Hfind|Hfind];
      [destruct (index <? _); discriminate|].
    exfalso. exact (not_elem_of_nil _ Hfind).
  - apply elem_of_cons in Hrow as [->|Hrow];
      [|exfalso; exact (not_elem_of_nil _ Hrow)].
    apply elem_of_cons in Hfind as [Hfind|Hfind]; [congruence|].
    exfalso. exact (not_elem_of_nil _ Hfind).
Qed.

Lemma card_page_index (way : string) (n : Z) (st : state) (upd : update) :
  has_char ":" way = false →
  button_body cfg fs ("card:" +:+ way +:+ ":" +:+ str n) upd st
  = match current_matches st.1 with
    | Some (m :: ms) =>
        let '(ud', evs) :=
          send_person_card cfg fs true (m :: ms) n
            (default "" (last_query st.1)) true st.1 in
        ((ud', st.2), Answer Plain :: evs)
    | _ => (st, [Answer Plain; Answer SearchSessionExpired])
    end.
Proof.
  intros Hway. rewrite button_body_card by apply startswith_prefix.
  unfold card_page. destruct st as [ud bd].
  rewrite (page_data_index way n Hway). cbn [fst snd].
  destruct (current_matches ud) as [[|m ms]|]; try reflexivity.
  now destruct (send_person_card _ _ _ _ _ _ _ _).
Qed.

(** X6. The buttons of a card lead where they say: with the match list
    and the query of the card in the session, pressing the button back or
    forward of the card at [index] shows the card of the neighbour position,
    which is a position of the same list, for the same query, as an edit of
    the message, and moves the cursor of the session there; nothing else of
    the session changes. *)
Theorem page_button_round_trip (upd : update) (ud : user_data) (bd : bot_data)
    (matches : list string) (index : Z) (query_text : string)
    (d : direction) (row : list button) (callback_data : string) :
  PagerSpec.in_range matches index →
  current_matches ud = Some matches →
  last_query ud = Some query_text →
  row ∈ generate_person_card_markup matches index →
  Navigate d callback_data ∈ row →
  let target := match d with Prev => index - 1 | Next => index + 1 end in
  let folder_path := matches !!! Z.to_nat target in
  PagerSpec.in_range matches target
  ∧ button_body cfg fs callback_data upd (ud, bd)
    = ((set_current_match_index (Some target) ud, bd),
       [Answer Plain;
        Card true
          {| card_query := query_text;
             card_fio_dr :=
               strip (replace_underscores
                        (sherlock_sub (OsPath.basename folder_path)));
             card_summary := Folder.get_summary_from_folder cfg fs folder_path;
             card_markup := generate_person_card_markup matches target |};
        Answer Plain]).
Proof.
  intros Hrange Hmatches Hquery Hrow Hnav target folder_path.
  pose proof (proj1 (markup_navigation matches index d callback_data)
                (ex_intro _ row (conj Hrow Hnav))) as H.
  assert (PagerSpec.in_range matches target
          ∧ ∃ way, has_char ":" way = false
                   ∧ callback_data = "card:" +:+ way +:+ ":" +:+ str target)
    as (Htarget & way & Hway & ->).
  { unfold PagerSpec.in_range in *. subst target.
    destruct d; destruct H as [Hlt ->]; (split; [lia|]);
      [exists "prev"|exists "next"]; split; reflexivity. }
  split; [exact Htarget|].
  rewrite card_page_index by assumption. cbn [fst snd].
  rewrite Hmatches, Hquery. destruct matches as [|m ms].
  { unfold PagerSpec.in_range in Htarget. simpl in Htarget. lia. }
  unfold send_person_card.
  rewrite (proj2 (in_range_test _ _) Htarget). cbn [negb andb default].
  destruct ud. simpl in *. now subst.
Qed.

Lemma select_at (upd : update) (ud : user_data) (bd : bot_data)
    (matches : list string) (index : Z) :
  PagerSpec.in_range matches index →
  current_matches ud = Some matches →
  button_body cfg fs ("select_folder:" +:+ str index) upd (ud, bd)
  = ((set_last_query None
        (set_current_match_index None (set_current_matches None ud)),
      (Sender.send_folder_contents cfg fs (Some true)
         (matches !!! Z.to_nat index) bd).1),
     Answer Plain
     :: (Sender.send_folder_contents cfg fs (Some true)
           (matches !!! Z.to_nat index) bd).2).
Proof.
  intros Hrange Hmatches.
  rewrite button_body_select_folder by apply startswith_prefix.
  unfold select_folder.
  change ("select_folder:" +:+ str index)
    with ("select_folder" +:+ String ":" (str index)).
  rewrite after_first_app by reflexivity. cbn [mbind option_bind].
  rewrite int_of_str, Hmatches. cbn [default from_option id].
  rewrite (proj2 (in_range_test _ _) Hrange). cbn [negb].
  now destruct (Sender.send_folder_contents _ _ _ _ _).
Qed.

(** X7. The button that opens a folder opens the folder of its card: with
    the match list in the session, pressing the find button of the card at
    [index] sends the contents of the folder at that position of the list,
    as an edit of the card, and forgets the match list, the cursor and the
    query; the mode and the active document stay as they are. *)
Theorem find_button_round_trip (upd : update) (ud : user_data) (bd : bot_data)
    (matches : list string) (index : Z) (row : list button)
    (callback_data : string) :
  PagerSpec.in_range matches index →
  current_matches ud = Some matches →
  row ∈ generate_person_card_markup matches index →
  Find callback_data ∈ row →
  let folder_path := matches !!! Z.to_nat index in
  let sent := Sender.send_folder_contents cfg fs (Some true) folder_path bd in
  button_body cfg fs callback_data upd (ud, bd)
  = ((set_last_query None
        (set_current_match_index None (set_current_matches None ud)),
      sent.1),
     Answer Plain :: sent.2).
Proof.
  intros Hrange Hmatches Hrow Hfind folder_path sent.
  rewrite (markup_find _ _ _ _ Hrow Hfind). now apply select_at.
Qed.

(** X8. A session whose match list was closed refuses the pager: after
    [/start], after [/cancel], and after a folder was opened from a card,
    a page request is answered with the alert that the search session has
    expired and changes nothing.  [/search] does not close the list: a page
    request after it is answered as it was before. *)
Theorem closed_session_refuses_pager (upd : update) (st : state)
    (data : string) (index : Z) :
  startswith "card:" data = true →
  split_on ":" data !! 2%nat ≫= int = Some index →
  (∀ closed,
     closed ∈ [(start_body upd st).1; (cancel_body upd st).1] →
     button_body cfg fs data upd closed
     = (closed, [Answer Plain; Answer SearchSessionExpired]))
  ∧ (∀ matches position row callback_data,
       PagerSpec.in_range matches position →
       current_matches st.1 = Some matches →
       row ∈ generate_person_card_markup matches position →
       Find callback_data ∈ row →
       let closed := (button_body cfg fs callback_data upd st).1 in
       button_body cfg fs data upd closed
       = (closed, [Answer Plain; Answer SearchSessionExpired]))
  ∧ (button_body cfg fs data upd (search_body upd st).1).2
    = (button_body cfg fs data upd st).2.
Proof.
  intros Hdata Hindex.
  assert (∀ closed : state,
            current_matches closed.1 = None →
            button_body cfg fs data upd closed
            = (closed, [Answer Plain; Answer SearchSessionExpired])) as Hclosed.
  { intros [ud bd] Hnone. rewrite button_body_card by assumption.
    unfold card_page. rewrite Hindex. cbn [fst] in Hnone. now rewrite Hnone. }
  split; [|split].
  - intros closed [->|[->|H]%elem_of_cons]%elem_of_cons;
      [now apply Hclosed..|].
    exfalso. exact (not_elem_of_nil _ H).
  - intros matches position row cb Hrange Hmatches Hrow Hfind closed.
    apply Hclosed. subst closed. destruct st as [ud bd].
    rewrite (markup_find _ _ _ _ Hrow Hfind).
    now rewrite (select_at upd ud bd matches position).
  - rewrite !button_body_card by assumption. destruct st as [ud bd].
    unfold card_page, search_body. rewrite Hindex. cbn [fst snd].
    change (current_matches (set_mode _ (set_pdf_context_path _ ud)))
      with (current_matches ud).
    change (last_query (set_mode _ (set_pdf_context_path _ ud)))
      with (last_query ud).
    destruct (current_matches ud) as [[|m ms]|]; try reflexivity.
    unfold send_person_card.
    now destruct (negb ((0 <=? index) && (index <? _))).
Qed.

End SessionFacts.

(** The theorem at the first of the two cards of a search for [ivanov]:
    the way forward leads to the second card. *)
Lemma page_button_round_trip_witness :
  let matches := ["Base/Group/Ivanov"; "Base/Group/Ivanov_Petr_01.01"] in
  let ud :=
    set_last_query (Some "ivanov")
      (set_current_match_index (Some 0)
         (set_current_matches (Some matches) fresh_user_data)) in
  PagerSpec.in_range matches 1
  ∧ Handlers.button_body Fixtures.cfg Fixtures.fs "card:next:1" Fixtures.press
      (ud, Fixtures.bd)
    = ((set_current_match_index (Some 1) ud, Fixtures.bd),
       [Answer Plain;
        Card true
          {| card_query := "ivanov";
             card_fio_dr :=
               PyStr.strip
                 (PyStr.replace_underscores
                    (PyStr.sherlock_sub
                       (OsPath.basename "Base/Group/Ivanov_Petr_01.01")));
             card_summary :=
               Folder.get_summary_from_folder Fixtures.cfg Fixtures.fs
                 "Base/Group/Ivanov_Petr_01.01";
             card_markup := Pager.generate_person_card_markup matches 1 |};
        Answer Plain]).
Proof.
  intros matches ud.
  refine (page_button_round_trip Fixtures.cfg Fixtures.fs Fixtures.press ud
            Fixtures.bd matches 0 "ivanov" Next
            [Blank; Counter 1 2; Navigate Next "card:next:1"] "card:next:1"
            _ _ _ _ _); try reflexivity.
  - unfold PagerSpec.in_range. simpl. lia.
  - left.
  - right. right. left.
Defined.

(** The theorem at the find button of the second card. *)
Lemma find_button_round_trip_witness :
  let matches := ["Base/Group/Ivanov"; "Base/Group/Ivanov_Petr_01.01"] in
  let ud := set_current_matches (Some matches) fresh_user_data in
  let sent :=
    Sender.send_folder_contents Fixtures.cfg Fixtures.fs (Some true)
      "Base/Group/Ivanov_Petr_01.01" Fixtures.bd in
  Handlers.button_body Fixtures.cfg Fixtures.fs "select_folder:1"
    Fixtures.press (ud, Fixtures.bd)
  = ((set_last_query None
        (set_current_match_index None (set_current_matches None ud)),
      sent.1),
     Answer Plain :: sent.2).
Proof.
  intros matches ud sent.
  refine (find_button_round_trip Fixtures.cfg Fixtures.fs Fixtures.press ud
            Fixtures.bd matches 1 [Find "select_folder:1"] "select_folder:1"
            _ _ _ _); try reflexivity.
  - unfold PagerSpec.in_range. simpl. lia.
  - right. left.
  - left.
Defined.

(** The theorem at a page request that follows [/cancel]. *)
Lemma closed_session_refuses_pager_witness :
  let closed :=
    (Handlers.cancel_body Fixtures.press
       (set_current_matches (Some ["Base/Group/Ivanov"]) fresh_user_data,
        Fixtures.bd)).1 in
  Handlers.button_body Fixtures.cfg Fixtures.fs "card:next:1" Fixtures.press
    closed
  = (closed, [Answer Plain; Answer SearchSessionExpired]).
Proof.
  intros closed.
  refine (proj1 (closed_session_refuses_pager Fixtures.cfg Fixtures.fs
                   Fixtures.press _ "card:next:1" 1 _ _) closed _);
    try reflexivity.
  right. left.
Defined.

(** ** The handles of the documents sent *)

Section SendingFacts.
Import PyStr Folder Sender Handlers.

Variables (cfg : config) (fs : filesystem).

(** What the sending loop does to the process data. *)
Lemma send_documents_table (files : list string) (bd : bot_data) :
  let bd' := (send_documents fs files bd).1 in
  let counter := default 0 (id_counter bd) in
  let counter' := default 0 (id_counter bd') in
  counter <= counter'
  ∧ (∀ p h, Document p h ∈ (send_documents fs files bd).2 →
       counter <= h < counter'
       ∧ default ∅ (pdf_map bd') !! h = Some p
       ∧ exists_ fs p = true)
  ∧ (∀ k, k < counter ∨ counter' <= k →
       default ∅ (pdf_map bd') !! k = default ∅ (pdf_map bd) !! k)
  ∧ fio_map bd' = fio_map bd
  ∧ WHITELISTED_USER_IDS bd' = WHITELISTED_USER_IDS bd
  ∧ (counter = counter' → bd' = bd).
Proof.
  revert bd. induction files as [|f files IH]; intros bd; cbn zeta.
  - simpl. split; [lia|]. split; [intros p h H; inversion H|]. now repeat split.
  - cbn [send_documents].
    assert (∀ e,
      let r := send_documents fs files bd in
      let counter := default 0 (id_counter bd) in
      let counter' := default 0 (id_counter r.1) in
      counter <= counter'
      ∧ (∀ p h, Document p h ∈ Message e :: r.2 →
           counter <= h < counter'
           ∧ default ∅ (pdf_map r.1) !! h = Some p
           ∧ exists_ fs p = true)
      ∧ (∀ k, k < counter ∨ counter' <= k →
           default ∅ (pdf_map r.1) !! k = default ∅ (pdf_map bd) !! k)
      ∧ fio_map r.1 = fio_map bd
      ∧ WHITELISTED_USER_IDS r.1 = WHITELISTED_USER_IDS bd
      ∧ (counter = counter' → r.1 = bd)) as Hskip.
    { intros e. destruct (IH bd) as (H1 & H2 & H3 & H4 & H5 & H6).
      cbn zeta. split; [exact H1|]. split; [|now repeat split].
      intros p h [H|H]%elem_of_cons; [discriminate|now apply H2]. }
    destruct (fs !! f) as [x|] eqn:Ef; [destruct (file_opens x)|].
    + clear Hskip. cbn [register_document].
      set (c := default 0 (id_counter bd)).
      set (bd1 := {| id_counter := Some (c + 1);
                     pdf_map := Some (<[c:=f]> (default ∅ (pdf_map bd)));
                     fio_map := fio_map bd;
                     WHITELISTED_USER_IDS := WHITELISTED_USER_IDS bd |}).
      destruct (IH bd1) as (H1 & H2 & H3 & H4 & H5 & H6).
      destruct (send_documents fs files bd1) as [bd2 evs].
      cbn [fst snd default from_option id id_counter pdf_map bd1] in *.
      split; [lia|]. split; [|split; [|split; [|split]]].
      * intros p h [H|H]%elem_of_cons.
        -- injection H as -> ->. split; [lia|]. split.
           ++ rewrite H3 by lia. apply lookup_insert_eq.
           ++ unfold exists_. rewrite Ef. now apply bool_decide_eq_true_2.
        -- apply H2 in H as (? & ? & ?). split; [lia|]. now split.
      * intros k Hk. rewrite H3 by lia. apply lookup_insert_ne. lia.
      * exact H4.
      * exact H5.
      * lia.
    + specialize (Hskip (DocumentSendError (OsPath.basename f))).
      now destruct (send_documents fs files bd).
    + specialize (Hskip (DocumentSendError (OsPath.basename f))).
      now destruct (send_documents fs files bd).
Qed.

Lemma select_within_limits_subset (pdfs accepted : list string) (total : Q)
    (p : string) :
  p ∈ (select_within_limits cfg fs pdfs accepted total).1 →
  p ∈ accepted ∨ p ∈ pdfs.
Proof.
  revert accepted total. induction pdfs as [|f pdfs IH]; intros accepted total;
    cbn [select_within_limits]; [now left|].
  destruct (getsize fs f) as [size|].
  - cbn zeta. destruct (_ <=? _); [now left|].
    destruct (Qgtb _ _); [now left|].
    intros [[H|H]%elem_of_app|H]%IH; [now left|right|right].
    + apply list_elem_of_singleton in H as ->. left.
    + now right.
  - intros [H|H]%IH; [now left|right; now right].
Qed.

Lemma join_truthy (a b : string) : truthy b = true → truthy (OsPath.join a b) = true.
Proof.
  unfold truthy. rewrite !negb_true_iff, !String.eqb_neq. intros Hb.
  assert (∀ x, x +:+ b ≠ "") as Happ.
  { intros x E. apply (f_equal String.length) in E.
    rewrite string_length_app in E. destruct b; [easy|simpl in E; lia]. }
  unfold OsPath.join. destruct (startswith "/" b); [exact Hb|].
  destruct (_ || _); [apply Happ|].
  rewrite <- app_assoc_string. apply Happ.
Qed.

Lemma under_truthy (folder entry : string) :
  under folder entry = true → truthy entry = true.
Proof.
  intros [rest ->]%under_spec. unfold truthy.
  rewrite negb_true_iff, String.eqb_neq. intros E.
  apply (f_equal String.length) in E. rewrite !string_length_app in E.
  simpl in E. lia.
Qed.

Ltac only_documents H :=
  repeat match type of H with
    | _ ∈ [] => exfalso; exact (not_elem_of_nil _ H)
    | _ ∈ _ ++ _ => apply elem_of_app in H as [H|H]
    | _ ∈ _ :: _ => apply elem_of_cons in H as [H|H]; [discriminate|]
    | _ ∈ (if ?b then _ else _) => destruct b
    | _ ∈ match ?x with _ => _ end => destruct x
    | _ ∈ notice_events ?n => destruct n; cbn [notice_events] in H
    end.

(** The documents of [send_folder_contents] are those of its sending loop,
    run on files of the folder. *)
Lemma send_folder_contents_table (update : option bool) (folder : string)
    (bd : bot_data) :
  ∃ files,
    (send_folder_contents cfg fs update folder bd).1
    = (send_documents fs files bd).1
    ∧ (∀ p h, Document p h ∈ (send_folder_contents cfg fs update folder bd).2 →
         Document p h ∈ (send_documents fs files bd).2)
    ∧ (∀ p, p ∈ files →
         ∃ f, p = OsPath.join (SCRIPT_DIR cfg) f
              ∧ f ∈ RELATIVE_FILE_PATHS cfg ∧ under folder f = true).
Proof.
  unfold send_folder_contents.
  pose proof (collect_snd cfg fs folder (clean_lower (OsPath.basename folder))
                (RELATIVE_FILE_PATHS cfg) None []) as Hpdfs.
  destruct (collect _ _ _ _ _ _ _) as [txt pdfs]. cbn [snd app] in Hpdfs.
  assert (∀ p, p ∈ pdfs →
            ∃ f, p = OsPath.join (SCRIPT_DIR cfg) f
                 ∧ f ∈ RELATIVE_FILE_PATHS cfg ∧ under folder f = true)
    as Hunder.
  { intros p Hp. rewrite Hpdfs in Hp.
    apply list_elem_of_fmap in Hp as (f & -> & Hf). exists f. split; [easy|].
    apply list_elem_of_In, filter_In in Hf as [Hin Hf].
    rewrite !andb_true_iff in Hf. split; [now apply list_elem_of_In|tauto]. }
  clear Hpdfs. destruct pdfs as [|pdf pdfs].
  - exists []. cbn [send_documents fst snd]. split; [reflexivity|].
    split; [|intros p H; inversion H].
    intros p h H. only_documents H.
  - destruct (select_within_limits _ _ _ _ _) as [final stopped] eqn:Efinal.
    exists final.
    destruct (send_documents fs final bd) as [bd1 sent]. cbn [fst snd].
    split; [reflexivity|]. split.
    + intros p h H. only_documents H; assumption.
    + intros p Hp. apply Hunder.
      pose proof (select_within_limits_subset (pdf :: pdfs) [] 0%Q p) as Hsub.
      rewrite Efinal in Hsub. destruct (Hsub Hp) as [H|H]; [inversion H|exact H].
Qed.

End SendingFacts.

Section HandleFacts.
Import PyStr Folder Sender Handlers.

Variables (cfg : config) (fs : filesystem).

(** X9. Every document sent can be asked about: for each document that
    [send_folder_contents] sends with a handle, pressing the button it is
    sent with puts the session in AI mode with that very document as the
    active one.  The handle is in the table, the file exists, and its path
    is not empty. *)
Theorem document_button_round_trip (with_update : option bool)
    (folder : string) (bd : bot_data) (p : string) (h : Z) (upd : update)
    (ud : user_data) :
  Document p h ∈ (send_folder_contents cfg fs with_update folder bd).2 →
  let bd' := (send_folder_contents cfg fs with_update folder bd).1 in
  let display_name :=
    replace_underscores (split_on_go "." (OsPath.basename p)).1 in
  button_body cfg fs ("ask_ai|" +:+ str h) upd (ud, bd')
  = ((set_mode MODE_AI (set_pdf_context_path (Some (Some p)) ud), bd'),
     [Answer Plain; Message (AiModeOn display_name)]).
Proof.
  intros Hsent bd' display_name. subst bd' display_name.
  destruct (send_folder_contents_table cfg fs with_update folder bd)
    as (files & -> & Hdocs & Hfiles).
  apply Hdocs in Hsent.
  pose proof (send_documents_sent fs files bd p h Hsent) as Hp.
  destruct (Hfiles p Hp) as (f & -> & _ & Hunder).
  destruct (send_documents_table fs files bd) as (_ & Htable & _).
  destruct (Htable _ _ Hsent) as (_ & Hmap & Hexists).
  rewrite button_body_ask_ai by apply startswith_prefix.
  unfold ask_ai.
  change ("ask_ai|" +:+ str h) with ("ask_ai" +:+ String "|" (str h)).
  rewrite after_first_app by reflexivity. cbn [mbind option_bind].
  rewrite int_of_str, Hmap, Hexists.
  now rewrite (join_truthy _ _ (under_truthy _ _ Hunder)).
Qed.

Lemma send_folder_contents_handles (with_update : option bool)
    (folder : string) (bd : bot_data) :
  handles_below_counter bd →
  let bd' := (send_folder_contents cfg fs with_update folder bd).1 in
  handles_below_counter bd' ∧ table_extends bd bd'.
Proof.
  intros Hbelow bd'. subst bd'.
  destruct (send_folder_contents_table cfg fs with_update folder bd)
    as (files & -> & _).
  destruct (send_documents_table fs files bd) as (H1 & H2 & H3 & _).
  cbn zeta in *. split; [|split; [exact H1|]].
  - intros h p Hh.
    destruct (Z.lt_ge_cases h (default 0 (id_counter (send_documents fs files bd).1)))
      as [|Hge]; [assumption|].
    rewrite H3 in Hh by now right. apply Hbelow in Hh. lia.
  - intros h p Hh. rewrite H3; [exact Hh|]. left. now apply (Hbelow h p).
Qed.

Lemma handle_text_body_data (ai : ai_service) (now : Q) (text : string)
    (upd : update) (ud : user_data) (bd : bot_data) :
  (handle_text_body cfg fs ai now text upd (ud, bd)).1.2 = bd
  ∨ ∃ folder,
      (handle_text_body cfg fs ai now text upd (ud, bd)).1.2
      = (send_folder_contents cfg fs None folder bd).1.
Proof.
  unfold handle_text_body.
  destruct (current_mode ud =? MODE_AI).
  { left. now destruct (Gemini.gemini_query _ _ _ _ _ _). }
  destruct (PERSON_FOLDERS cfg); [now left|].
  destruct (Matcher.find_folder_matches _ _) as [|folder [|]]; [now left|..].
  - right. exists folder. now destruct (send_folder_contents _ _ _ _ _).
  - left. now destruct (Pager.send_person_card _ _ _ _ _ _ _ _).
Qed.

Lemma button_body_data (data : string) (upd : update) (ud : user_data)
    (bd : bot_data) :
  (button_body cfg fs data upd (ud, bd)).1.2 = bd
  ∨ ∃ folder,
      (button_body cfg fs data upd (ud, bd)).1.2
      = (send_folder_contents cfg fs (Some true) folder bd).1.
Proof.
  unfold button_body.
  repeat match goal with
    | |- context [if ?b then _ else _] =>
        destruct b; [try (now left)|]
    end; try (now left).
  - unfold full_report. destruct (_ ≫= int); [|now left].
    destruct (_ !! _) as [fio_dr|]; [|now left].
    destruct (negb (truthy fio_dr)); [now left|].
    destruct (find_folder_by_fio_dr _ _) as [folder|]; [|now left].
    destruct (negb (truthy folder)); [now left|].
    right. exists folder. now destruct (send_folder_contents _ _ _ _ _).
  - unfold ask_ai. destruct (_ ≫= int); [|now left].
    destruct (_ !! _) as [path|]; [|now left].
    now destruct (_ || _); left.
  - unfold card_page. destruct (_ ≫= int); [|now left].
    destruct (current_matches ud) as [[|m ms]|]; try now left.
    left. now destruct (Pager.send_person_card _ _ _ _ _ _ _ _).
  - unfold select_folder. destruct (_ ≫= int); [|now left].
    destruct (negb _); [now left|].
    right.
    match goal with
    | |- context [send_folder_contents cfg fs (Some true) ?f bd] => exists f
    end.
    now destruct (send_folder_contents _ _ _ _ _).
Qed.

(** X10. A handle once given out stays valid.  If every handle of the
    document table lies below the counter, then [send_folder_contents]
    keeps it so, gives each document it sends a handle the table did not
    hold, never one handle to two documents, and leaves every handle of the
    table naming the document it named, the counter not moving back; and
    the same table invariant holds across a text message and across a
    button press, whatever they do. *)
Theorem handles_stay_valid (bd : bot_data) :
  handles_below_counter bd →
  (∀ with_update folder,
     let sent := send_folder_contents cfg fs with_update folder bd in
     handles_below_counter sent.1
     ∧ table_extends bd sent.1
     ∧ (∀ p h, Document p h ∈ sent.2 →
          default ∅ (pdf_map bd) !! h = None
          ∧ default ∅ (pdf_map sent.1) !! h = Some p)
     ∧ (∀ p p' h, Document p h ∈ sent.2 → Document p' h ∈ sent.2 → p = p'))
  ∧ (∀ ai now text upd ud,
       let bd' := (handle_text_body cfg fs ai now text upd (ud, bd)).1.2 in
       handles_below_counter bd' ∧ table_extends bd bd')
  ∧ (∀ data upd ud,
       let bd' := (button_body cfg fs data upd (ud, bd)).1.2 in
       handles_below_counter bd' ∧ table_extends bd bd').
Proof.
  intros Hbelow.
  assert (handles_below_counter bd ∧ table_extends bd bd) as Hsame
    by (split; [exact Hbelow|split; [lia|auto]]).
  split; [|split].
  - intros with_update folder sent.
    destruct (send_folder_contents_handles with_update folder bd Hbelow)
      as [H1 H2].
    split; [exact H1|]. split; [exact H2|].
    subst sent.
    destruct (send_folder_contents_table cfg fs with_update folder bd)
      as (files & E & Hdocs & _).
    destruct (send_documents_table fs files bd) as (_ & Htable & _).
    rewrite E in *.
    assert (∀ p h,
      Document p h ∈ (send_folder_contents cfg fs with_update folder bd).2 →
      default 0 (id_counter bd) <= h
      ∧ default ∅ (pdf_map (send_documents fs files bd).1) !! h = Some p)
      as Hsent.
    { intros p h H. apply Hdocs, Htable in H as (? & ? & _). split; [lia|easy]. }
    split.
    + intros p h H. apply Hsent in H as [Hge Hmap]. split; [|exact Hmap].
      destruct (default ∅ (pdf_map bd) !! h) as [q|] eqn:Eq; [|reflexivity].
      apply Hbelow in Eq. lia.
    + intros p p' h H H'. apply Hsent in H as [_ H], H' as [_ H']. congruence.
  - intros ai now text upd ud bd'. subst bd'.
    destruct (handle_text_body_data ai now text upd ud bd) as [->|[folder ->]];
      [exact Hsame|now apply send_folder_contents_handles].
  - intros data upd ud bd'. subst bd'.
    destruct (button_body_data data upd ud bd) as [->|[folder ->]];
      [exact Hsame|now apply send_folder_contents_handles].
Qed.

End HandleFacts.

(** The theorem at the first document of the folder [Ivanov_Petr_01.01],
    sent with handle 0 from an empty table. *)
Lemma document_button_round_trip_witness :
  let p := "/srv/bot/Base/Group/Ivanov_Petr_01.01/CV.pdf" in
  let bd' :=
    (Sender.send_folder_contents Fixtures.cfg Fixtures.fs None
       "Base/Group/Ivanov_Petr_01.01" Fixtures.bd).1 in
  Handlers.button_body Fixtures.cfg Fixtures.fs ("ask_ai|" +:+ PyStr.str 0)
    Fixtures.press (fresh_user_data, bd')
  = ((set_mode MODE_AI
        (set_pdf_context_path (Some (Some p)) fresh_user_data), bd'),
     [Answer Plain;
      Message
        (AiModeOn
           (PyStr.replace_underscores
              (PyStr.split_on_go "." (OsPath.basename p)).1))]).
Proof.
  intros p bd'.
  refine (document_button_round_trip Fixtures.cfg Fixtures.fs None
            "Base/Group/Ivanov_Petr_01.01" Fixtures.bd p 0 Fixtures.press
            fresh_user_data _).
  vm_compute. do 4 right. left.
Defined.

(** The theorem at the table that holds the one handle given out so far. *)
Lemma handles_stay_valid_witness :
  let sent :=
    Sender.send_folder_contents Fixtures.cfg Fixtures.fs None
      "Base/Group/Ivanov_Petr_01.01" Fixtures.bd_sent in
  handles_below_counter sent.1 ∧ table_extends Fixtures.bd_sent sent.1.
Proof.
  intros sent.
  assert (handles_below_counter Fixtures.bd_sent) as H.
  { intros h p. cbn. intros [<- _]%lookup_singleton_Some. lia. }
  destruct (proj1 (handles_stay_valid Fixtures.cfg Fixtures.fs
                     Fixtures.bd_sent H) None "Base/Group/Ivanov_Petr_01.01")
    as (H1 & H2 & _).
  now split.
Defined.

(** ** The catalog read at start-up *)

Section CatalogFacts.
Import Unicode.

Lemma index_spec (sub s : str) (i : nat) :
  index sub s = Some i → startswith sub (drop i s) = true.
Proof.
  revert i. induction s as [|c s IH]; intros i; cbn [index].
  - destruct (startswith sub []) eqn:E; [|easy]. now intros [= <-].
  - destruct (startswith sub (c :: s)) eqn:E; [now intros [= <-]|].
    destruct (index sub s) as [j|]; [|easy]. intros [= <-].
    now apply IH.
Qed.

(** Where neither U+0130 nor the capital sigma occurs, lower case is made
    code point by code point. *)
Lemma lower_from_plain (before s : str) :
  Forall (λ c, c ≠ 304%N ∧ c ≠ 931%N) s →
  lower_from before s = map to_lower s.
Proof.
  intros H. revert before.
  induction H as [|c s [Hdot Hsigma] _ IH]; intros before; [reflexivity|].
  cbn [lower_from map]. rewrite (proj2 (N.eqb_neq _ _) Hsigma).
  unfold to_lower_full. rewrite (proj2 (N.eqb_neq _ _) Hdot).
  cbn [List.app]. now rewrite IH.
Qed.

Lemma lower_drop_plain (n : nat) (s : str) :
  Forall (λ c, c ≠ 304%N ∧ c ≠ 931%N) s →
  lower (drop n s) = drop n (lower s).
Proof.
  intros H. unfold lower. rewrite !lower_from_plain.
  - symmetry. apply skipn_map.
  - exact H.
  - now apply Forall_drop.
Qed.

Lemma omap_shorter {A B : Type} (f : A → option B) (l : list A) :
  (length (omap f l) <= length l)%nat.
Proof.
  induction l as [|x l IH]; [easy|]. cbn. destruct (f x); simpl; lia.
Qed.

(** X11. The catalog is cut out of the lines of the list file: every entry
    that [load_file_paths] returns is the tail of the normalised form of a
    line that is not blank, cut where the name of the base folder, in lower
    case, first occurs in the lower-case path; lines in which it does not
    occur are left out, and a list file that cannot be read gives the empty
    catalog.  Where the path has neither U+0130 nor a capital sigma, lower
    case keeps every position and the entry begins with the name of the
    base folder, in whatever case.  It need not otherwise: the lower case
    of U+0130 is two code points, so behind one the cut falls late, and the
    line [/data/İstanbul/Base/G/x.pdf] gives [ase/G/x.pdf]. *)
Theorem load_file_paths_relative (script_dir base_folder_name : str)
    (fs : files) (file_path : str) :
  let catalog := load_file_paths script_dir base_folder_name fs file_path in
  let full_file_path := join script_dir file_path in
  (fs !! full_file_path = None → catalog = [])
  ∧ (∀ content,
       fs !! full_file_path = Some content →
       (length catalog <= length (lines content))%nat
       ∧ ∀ entry,
           entry ∈ catalog ↔
           ∃ line,
             line ∈ lines content ∧ strip line ≠ []
             ∧ relative_to (lower base_folder_name) (strip line) = Some entry)
  ∧ (∀ path entry,
       relative_to (lower base_folder_name) path = Some entry →
       ∃ base_index,
         index (lower base_folder_name) (lower (normpath path))
         = Some base_index
         ∧ entry = drop base_index (normpath path)
         ∧ normpath path = take base_index (normpath path) ++ entry
         ∧ (Forall (λ c, c ≠ 304%N ∧ c ≠ 931%N) (normpath path) →
            startswith (lower base_folder_name) (lower entry) = true))
  ∧ relative_to (lower (of_string "Base"))
      (of_string "/data/İstanbul/Base/G/x.pdf")
    = Some (of_string "ase/G/x.pdf").
Proof.
  intros catalog full_file_path. subst catalog. unfold load_file_paths.
  fold full_file_path.
  assert (∀ content entry,
    entry ∈ omap (relative_to (lower base_folder_name))
              (List.filter (λ line, negb (bool_decide (line = [])))
                 (map strip (lines content)))
    ↔ ∃ line, line ∈ lines content ∧ strip line ≠ []
              ∧ relative_to (lower base_folder_name) (strip line) = Some entry)
    as Hentry.
  { intros content entry. rewrite list_elem_of_omap. split.
    - intros (path & Hpath & Hrel).
      apply list_elem_of_In, filter_In in Hpath as [Hin Htruthy].
      apply list_elem_of_In, list_elem_of_fmap in Hin as (line & -> & Hline).
      exists line. repeat split; auto.
      now rewrite negb_true_iff, bool_decide_eq_false in Htruthy.
    - intros (line & Hline & Hne & Hrel). exists (strip line).
      split; [|exact Hrel].
      apply list_elem_of_In, filter_In. split.
      + apply list_elem_of_In, list_elem_of_fmap. eauto.
      + now rewrite negb_true_iff, bool_decide_eq_false. }
  split; [|split; [|split]].
  - now intros ->.
  - intros content ->. split; [|apply Hentry].
    etrans; [apply omap_shorter|].
    etrans; [apply List.filter_length_le|]. now rewrite length_map.
  - intros path entry. unfold relative_to.
    destruct (index _ _) as [i|] eqn:E; [|easy]. intros [= <-].
    exists i. split; [reflexivity|]. split; [reflexivity|].
    split; [now rewrite take_drop|].
    intros Hplain. rewrite lower_drop_plain by exact Hplain.
    now apply index_spec.
  - vm_compute. reflexivity.
Qed.

End CatalogFacts.

Section FolderListFacts.
Import PyStr Catalog.

Lemma before_trans (a b c : string) : before a b → before b c → before a c.
Proof.
  unfold before. intros H1 H2.
  apply (proj2 (OrderedTypeEx.String_as_OT.cmp_lt a c)).
  apply (OrderedTypeEx.String_as_OT.lt_trans a b c);
    now apply OrderedTypeEx.String_as_OT.cmp_lt.
Qed.

Lemma before_irrefl (a : string) : ¬ before a a.
Proof.
  unfold before. intros H. pose proof (String.compare_antisym a a) as E.
  rewrite H in E. discriminate.
Qed.

Lemma insert_sorted_elem (x z : string) (l : list string) :
  z ∈ insert_sorted x l ↔ z = x ∨ z ∈ l.
Proof.
  induction l as [|y l IH]; cbn [insert_sorted].
  - rewrite list_elem_of_singleton. split; [now left|].
    now intros [H|H%not_elem_of_nil].
  - destruct (String.compare x y) eqn:E.
    + apply String.compare_eq_iff in E as ->. rewrite elem_of_cons. tauto.
    + rewrite !elem_of_cons. tauto.
    + rewrite !elem_of_cons, IH. tauto.
Qed.

Lemma sorted_set_elem (z : string) (l : list string) :
  z ∈ sorted_set l ↔ z ∈ l.
Proof.
  induction l as [|x l IH]; [easy|].
  cbn [sorted_set foldr]. fold (sorted_set l).
  rewrite insert_sorted_elem, IH, elem_of_cons. tauto.
Qed.

Lemma increasing_cons (x : string) (l : list string) :
  increasing (x :: l) ↔ (∀ y, y ∈ l → before x y) ∧ increasing l.
Proof.
  split.
  - intros H. split.
    + intros y [j Hj]%list_elem_of_lookup.
      apply (H 0%nat (S j) x y); [lia|easy|easy].
    + intros i j a b Hij Hi Hj. apply (H (S i) (S j) a b); [lia|easy|easy].
  - intros [H1 H2] i j a b Hij Hi Hj. destruct j as [|j]; [lia|].
    destruct i as [|i].
    + injection Hi as <-. apply H1. eapply list_elem_of_lookup_2. exact Hj.
    + apply (H2 i j a b); [lia|easy|easy].
Qed.

Lemma insert_sorted_increasing (x : string) (l : list string) :
  increasing l → increasing (insert_sorted x l).
Proof.
  induction l as [|y l IH]; intros H; cbn [insert_sorted].
  - apply increasing_cons. split; [now intros y ?%not_elem_of_nil|].
    intros i j a b _ Hi. easy.
  - destruct (String.compare x y) eqn:E; [exact H| |].
    + apply increasing_cons. split; [|exact H].
      apply increasing_cons in H as [H1 H2].
      intros z [->|Hz]%elem_of_cons; [exact E|].
      apply (before_trans x y z); [exact E|now apply H1].
    + apply increasing_cons in H as [H1 H2].
      apply increasing_cons. split; [|now apply IH].
      intros z [->|Hz]%insert_sorted_elem; [|now apply H1].
      unfold before. rewrite String.compare_antisym, E. reflexivity.
Qed.

Lemma sorted_set_increasing (l : list string) : increasing (sorted_set l).
Proof.
  induction l as [|x l IH]; [intros i j a b _ Hi; easy|].
  cbn [sorted_set foldr]. now apply insert_sorted_increasing.
Qed.

Lemma head_part_basename (p : string) :
  p = OsPath.head_part p +:+ OsPath.basename p.
Proof.
  induction p as [|c r IH]; [easy|]. cbn [OsPath.head_part OsPath.basename].
  destruct (has_char "/" r); [now rewrite app_cons, <- IH|].
  destruct (Ascii.eqb_spec c "/") as [->|]; [easy|now rewrite app_nil_l].
Qed.

Lemma head_part_slash (r : string) :
  has_char "/" r = true → has_char "/" (OsPath.head_part r) = true.
Proof.
  induction r as [|c r IH]; [easy|]. cbn [has_char OsPath.head_part].
  destruct (has_char "/" r) eqn:E.
  - intros _. cbn [has_char]. rewrite IH by easy. apply orb_true_r.
  - rewrite orb_false_r. now destruct (Ascii.eqb_spec c "/") as [->|].
Qed.

Lemma basename_head_part (p : string) :
  OsPath.basename (OsPath.head_part p) = "".
Proof.
  induction p as [|c r IH]; [easy|]. cbn [OsPath.head_part].
  destruct (has_char "/" r) eqn:E.
  - cbn [OsPath.basename]. now rewrite head_part_slash.
  - now destruct (Ascii.eqb_spec c "/") as [->|].
Qed.

Lemma rstrip_sep_slashes (h : string) :
  ∃ k, h = OsPath.rstrip_sep h +:+ slashes k.
Proof.
  induction h as [|c h [k IH]]; [now exists 0%nat|]. cbn [OsPath.rstrip_sep].
  destruct (OsPath.rstrip_sep h) as [|d r'] eqn:E.
  - rewrite app_nil_l in IH. destruct (Ascii.eqb_spec c "/") as [->|].
    + exists (S k). now rewrite app_nil_l, IH at 1.
    + exists k. now rewrite app_cons, app_nil_l, IH at 1.
  - exists k. now rewrite app_cons, <- IH.
Qed.

Lemma basename_slashes (k : nat) : OsPath.basename (slashes k) = "".
Proof.
  induction k as [|k IH]; [easy|]. cbn [slashes OsPath.basename].
  destruct (has_char "/" (slashes k)) eqn:E; [exact IH|].
  now destruct k.
Qed.

(** A path lies under its directory, when the directory has a name. *)
Lemma dirname_under (p : string) :
  OsPath.basename (OsPath.dirname p) ≠ "" →
  Folder.under (OsPath.dirname p) p = true.
Proof.
  unfold OsPath.dirname. intros Hname.
  destruct (rstrip_sep_slashes (OsPath.head_part p)) as [k Hk].
  destruct (OsPath.rstrip_sep (OsPath.head_part p)) as [|d r'] eqn:E.
  - exfalso. apply Hname. apply basename_head_part.
  - apply under_spec. destruct k as [|k].
    + exfalso. apply Hname. cbn [slashes] in Hk.
      rewrite app_nil_r_string in Hk. rewrite <- Hk. apply basename_head_part.
    + exists (slashes k +:+ OsPath.basename p).
      rewrite (head_part_basename p) at 1. rewrite Hk at 1.
      cbn [slashes]. now rewrite app_assoc_string.
Qed.

Lemma person_folders_elem (base_folder_name : string) (paths : list string)
    (folder : string) :
  folder ∈ person_folders base_folder_name paths ↔
  ∃ entry,
    entry ∈ paths ∧ folder = OsPath.dirname entry
    ∧ lower folder ≠ lower base_folder_name
    ∧ OsPath.basename folder ≠ "".
Proof.
  unfold person_folders. rewrite sorted_set_elem.
  rewrite list_elem_of_In, filter_In, <- list_elem_of_In, list_elem_of_fmap.
  unfold is_person_folder, truthy.
  rewrite andb_true_iff, !negb_true_iff, !String.eqb_neq.
  split.
  - intros [(entry & -> & Hentry) [H1 H2]]. now exists entry.
  - intros (entry & Hentry & -> & H1 & H2). split; [now exists entry|easy].
Qed.

(** X12. The folders of persons that [load_and_extract_person_folders]
    returns are in increasing order of their paths, compared code point by
    code point, none twice; and a path is among them exactly when it is the
    directory of an entry of the catalog, differs from the name of the base
    folder whatever the case, and does not end in a separator or is empty. *)
Theorem person_folders_listing (base_folder_name : string)
    (paths : list string) :
  let folders := person_folders base_folder_name paths in
  increasing folders
  ∧ NoDup folders
  ∧ ∀ folder,
      folder ∈ folders ↔
      ∃ entry,
        entry ∈ paths ∧ folder = OsPath.dirname entry
        ∧ lower folder ≠ lower base_folder_name
        ∧ OsPath.basename folder ≠ "".
Proof.
  intros folders.
  assert (increasing folders) as Hinc by apply sorted_set_increasing.
  split; [exact Hinc|]. split; [|apply person_folders_elem].
  apply NoDup_alt. intros i j a Hi Hj.
  destruct (Nat.lt_trichotomy i j) as [H|[H|H]]; [|exact H|];
    exfalso; apply (before_irrefl a); eauto.
Qed.

(** X13. No folder of the list is empty in the catalog: each folder that
    [load_and_extract_person_folders] returns has an entry of the catalog
    under it, in the sense in which [get_summary_from_folder] and
    [send_folder_contents] look for the files of a folder. *)
Theorem person_folders_hold_entries (base_folder_name : string)
    (paths : list string) (folder : string) :
  folder ∈ person_folders base_folder_name paths →
  ∃ entry,
    entry ∈ paths ∧ OsPath.dirname entry = folder
    ∧ Folder.under folder entry = true.
Proof.
  intros (entry & Hentry & -> & _ & Hname)%person_folders_elem.
  exists entry. split; [exact Hentry|]. split; [reflexivity|].
  now apply dirname_under.
Qed.

End FolderListFacts.

(** The folders of the small catalog are those of the configuration it is
    run with. *)
Example person_folders_of_the_catalog :
  Catalog.person_folders "Base" Fixtures.catalog
  = PERSON_FOLDERS Fixtures.cfg.
Proof. vm_compute. reflexivity. Qed.

Lemma person_folders_hold_entries_witness :
  ∃ entry,
    entry ∈ Fixtures.catalog
    ∧ OsPath.dirname entry = "Base/Group/Ivanov/Archive"
    ∧ Folder.under "Base/Group/Ivanov/Archive" entry = true.
Proof.
  apply (person_folders_hold_entries "Base" Fixtures.catalog
           "Base/Group/Ivanov/Archive").
  vm_compute. right. left.
Defined.

(** ** The white list and the commands of the administrator *)

Section AdminFacts.
Import PyStr Handlers Admin.

Variable MAIN_ADMIN_ID : Z.

Lemma is_main_admin_other
    (command : update → application_data → application_data * list admin_reply)
    (upd : update) (app : application_data) :
  effective_user upd ≠ Some MAIN_ADMIN_ID →
  is_main_admin MAIN_ADMIN_ID command upd app
  = (app, if has_callback_query upd then [] else [NoRights]).
Proof.
  intros H. unfold is_main_admin, admin_refusal.
  destruct (effective_user upd) as [u|];
    [|now destruct (has_callback_query upd)].
  destruct (Z.eqb_spec u MAIN_ADMIN_ID) as [->|]; [easy|].
  now destruct (has_callback_query upd).
Qed.

Lemma is_main_admin_main
    (command : update → application_data → application_data * list admin_reply)
    (upd : update) (app : application_data) :
  effective_user upd = Some MAIN_ADMIN_ID →
  is_main_admin MAIN_ADMIN_ID command upd app = command upd app.
Proof.
  intros H. unfold is_main_admin, admin_refusal. now rewrite H, Z.eqb_refl.
Qed.

(** What a command of the administrator can do to the data: nothing, or
    replace the white list, keeping the main administrator if it was there;
    once the key is present it stays. *)
Lemma admin_step_data (request : update * admin_command)
    (app : application_data) :
  let app' := (admin_step MAIN_ADMIN_ID request app).1 in
  handlers_data app' = handlers_data app
  ∧ fio_id_counter app' = fio_id_counter app
  ∧ (∀ ids, whitelist app = Some ids → MAIN_ADMIN_ID ∈ ids →
       ∃ ids', whitelist app' = Some ids' ∧ MAIN_ADMIN_ID ∈ ids')
  ∧ (effective_user request.1 ≠ Some MAIN_ADMIN_ID → app' = app).
Proof.
  destruct request as [upd command]. cbn zeta. unfold admin_step. cbn [fst snd].
  destruct (decide (effective_user upd = Some MAIN_ADMIN_ID)) as [Hmain|Hother].
  2:{ destruct command;
        unfold add_admin_command, remove_admin_command, list_admins_command;
        rewrite is_main_admin_other by assumption; cbn [fst]; eauto 10. }
  destruct command as [args|args|];
    unfold add_admin_command, remove_admin_command, list_admins_command;
    rewrite is_main_admin_main by assumption.
  - unfold add_admin_body.
    destruct (whitelist app) as [ids0|] eqn:E.
    + destruct args as [|arg args]; [cbn [fst]; rewrite E; eauto 10|].
      destruct (int arg) as [u|]; [|cbn [fst]; rewrite E; eauto 10].
      cbn. rewrite E. cbn. repeat split; auto; try easy.
      intros ids [= <-] Hin. eexists. split; [reflexivity|].
      apply elem_of_union. now left.
    + destruct args as [|arg args]; [cbn; repeat split; easy|].
      destruct (int arg) as [u|]; cbn; repeat split; easy.
  - unfold remove_admin_body.
    destruct args as [|arg args]; [cbn [fst]; eauto 10|].
    destruct (int arg) as [u|]; [|cbn [fst]; eauto 10].
    destruct (Z.eqb_spec u MAIN_ADMIN_ID) as [->|Hne]; [cbn [fst]; eauto 10|].
    destruct (whitelist app) as [ids0|] eqn:E; [|cbn [fst]; rewrite E; eauto 10].
    cbn. repeat split; auto; try easy.
    intros ids [= <-] Hin. eexists. split; [reflexivity|].
    apply elem_of_difference. split; [exact Hin|].
    rewrite elem_of_singleton. congruence.
  - cbn [list_admins_body fst]. eauto 10.
Qed.

Lemma admin_run_data (requests : list (update * admin_command))
    (app : application_data) :
  let app' := (admin_run MAIN_ADMIN_ID requests app).1 in
  handlers_data app' = handlers_data app
  ∧ fio_id_counter app' = fio_id_counter app
  ∧ (∀ ids, whitelist app = Some ids → MAIN_ADMIN_ID ∈ ids →
       ∃ ids', whitelist app' = Some ids' ∧ MAIN_ADMIN_ID ∈ ids').
Proof.
  revert app. induction requests as [|request later IH]; intros app; cbn zeta.
  - cbn. eauto.
  - cbn [admin_run].
    destruct (admin_step_data request app) as (H1 & H2 & H3 & _).
    destruct (admin_step MAIN_ADMIN_ID request app) as [app1 replies].
    destruct (IH app1) as (I1 & I2 & I3).
    destruct (admin_run MAIN_ADMIN_ID later app1) as [app2 replies'].
    cbn [fst] in *. split; [congruence|]. split; [congruence|].
    intros ids Hids Hin. destruct (H3 ids Hids Hin) as (ids1 & Hids1 & Hin1).
    exact (I3 ids1 Hids1 Hin1).
Qed.

(** X14. The main administrator cannot be taken off the white list.
    Whoever sends the commands of the administrator and whatever their
    arguments, a set under ['whitelist'] that holds the main administrator
    still holds it after them; and [/remove_admin] with the identifier of
    the main administrator changes nothing, whoever sends it: sent by the
    main administrator in a message it is answered that this one cannot be
    removed. *)
Theorem main_admin_stays_listed (requests : list (update * admin_command))
    (app : application_data) (ids : gset Z) :
  whitelist app = Some ids →
  MAIN_ADMIN_ID ∈ ids →
  (∃ ids',
     whitelist (admin_run MAIN_ADMIN_ID requests app).1 = Some ids'
     ∧ MAIN_ADMIN_ID ∈ ids')
  ∧ ∀ upd more,
      let removed :=
        remove_admin_command MAIN_ADMIN_ID (str MAIN_ADMIN_ID :: more) upd
          app in
      removed.1 = app
      ∧ (effective_user upd = Some MAIN_ADMIN_ID →
         has_callback_query upd = false →
         removed.2 = [MainAdminStays]).
Proof.
  intros Hids Hin. split.
  - destruct (admin_run_data requests app) as (_ & _ & H).
    exact (H ids Hids Hin).
  - intros upd more. cbn zeta. unfold remove_admin_command.
    destruct (decide (effective_user upd = Some MAIN_ADMIN_ID)) as [Hm|Hm].
    + rewrite is_main_admin_main by exact Hm.
      unfold remove_admin_body. rewrite int_of_str, Z.eqb_refl. now split.
    + rewrite is_main_admin_other by exact Hm. now split.
Qed.

(** X15. Only the main administrator changes the data.  The check of
    [is_main_admin] lets the update of the main administrator pass and no
    other; an update it refuses is answered that the sender has no right to
    the command when it carries a message, and not at all when it carries
    none (an edited command).  A refused command is not run, so the data
    after any commands are those after the commands of the main
    administrator alone. *)
Theorem only_main_admin_changes_data
    (requests : list (update * admin_command)) (app : application_data) :
  (∀ user message,
     admin_refusal MAIN_ADMIN_ID user message
     = if bool_decide (user = Some MAIN_ADMIN_ID) then None
       else Some (if message then [NoRights] else []))
  ∧ (∀ request,
       effective_user request.1 ≠ Some MAIN_ADMIN_ID →
       admin_step MAIN_ADMIN_ID request app
       = (app, if has_callback_query request.1 then [] else [NoRights]))
  ∧ (admin_run MAIN_ADMIN_ID requests app).1
    = (admin_run MAIN_ADMIN_ID
         (List.filter (from_main_admin MAIN_ADMIN_ID) requests) app).1.
Proof.
  split; [|split].
  - intros [user_id|] message; unfold admin_refusal.
    + destruct (Z.eqb_spec user_id MAIN_ADMIN_ID) as [->|Hne].
      * now rewrite bool_decide_eq_true_2.
      * rewrite bool_decide_eq_false_2; [reflexivity|congruence].
    + now rewrite bool_decide_eq_false_2.
  - intros [upd command] H. unfold admin_step. cbn [fst snd] in *.
    destruct command;
      unfold add_admin_command, remove_admin_command, list_admins_command;
      now rewrite is_main_admin_other.
  - revert app. induction requests as [|request later IH]; intros app;
      [reflexivity|].
    cbn [admin_run List.filter]. unfold from_main_admin at 1.
    case_bool_decide as Hmain.
    + cbn [admin_run].
      destruct (admin_step MAIN_ADMIN_ID request app) as [app1 replies].
      specialize (IH app1).
      destruct (admin_run MAIN_ADMIN_ID later app1) as [app2 replies2].
      destruct (admin_run MAIN_ADMIN_ID (List.filter _ later) app1)
        as [app3 replies3].
      exact IH.
    + destruct (admin_step_data request app) as (_ & _ & _ & Hsame).
      specialize (Hsame Hmain).
      destruct (admin_step MAIN_ADMIN_ID request app) as [app1 replies].
      cbn [fst] in Hsame. subst app1. specialize (IH app).
      now destruct (admin_run MAIN_ADMIN_ID later app).
Qed.


(** X17. The access check does not read the white list the administrator
    edits.  [restricted_access] looks up the key ['WHITELISTED_USER_IDS'];
    start-up and the commands of the administrator write ['whitelist'] and
    leave that key as persistence gave it.  So who passes the check is the
    same after any commands as before start-up; and when persistence holds
    no such key, every update with a user passes, on or off the list. *)
Theorem access_check_ignores_whitelist
    (INITIAL_WHITELISTED_USER_IDS : gset Z) (stored : stored_whitelist)
    (bd : bot_data) (stored_counter : option Z)
    (requests : list (update * admin_command)) :
  let app :=
    (admin_run MAIN_ADMIN_ID requests
       (main_init MAIN_ADMIN_ID INITIAL_WHITELISTED_USER_IDS stored bd
          stored_counter)).1 in
  WHITELISTED_USER_IDS (handlers_data app) = WHITELISTED_USER_IDS bd
  ∧ (∀ upd, authorized upd (handlers_data app) ↔ authorized upd bd)
  ∧ (WHITELISTED_USER_IDS bd = None →
     ∀ (handler : update → state → state * list event) upd ud user_id,
       effective_user upd = Some user_id →
       restricted_access handler upd (ud, handlers_data app)
       = handler upd (ud, handlers_data app)).
Proof.
  intros app.
  assert (WHITELISTED_USER_IDS (handlers_data app) = WHITELISTED_USER_IDS bd)
    as Hkey.
  { subst app.
    destruct (admin_run_data requests
                (main_init MAIN_ADMIN_ID INITIAL_WHITELISTED_USER_IDS stored
                   bd stored_counter)) as (-> & _). reflexivity. }
  split; [exact Hkey|]. split.
  - intros upd. unfold authorized. now rewrite Hkey.
  - intros Hnone handler upd ud user_id Huser.
    apply restricted_access_authorized. exists user_id. split; [exact Huser|].
    left. now rewrite Hkey, Hnone.
Qed.

End AdminFacts.


(** The theorem at a white list with the main administrator 7 and the user
    12, after a command of each of them. *)
Lemma main_admin_stays_listed_witness :
  let app :=
    {| handlers_data := Fixtures.bd; fio_id_counter := None;
       whitelist := Some {[ 7; 12 ]} |} in
  let requests :=
    [({| effective_user := Some 12; has_callback_query := false |},
      Admin.RemoveAdmin [PyStr.str 7]);
     (Fixtures.user, Admin.RemoveAdmin [PyStr.str 12])] in
  ∃ ids',
    whitelist (Admin.admin_run 7 requests app).1 = Some ids' ∧ 7 ∈ ids'.
Proof.
  intros app requests.
  refine (proj1 (main_admin_stays_listed 7 requests app {[ 7; 12 ]}
                   eq_refl _)).
  apply elem_of_union. left. now apply elem_of_singleton.
Defined.

(** ** The birthday broadcast *)

Section BirthdayFacts.
Import PyStr Handlers Birthday.

Variables (raises : transport) (cfg : config).

Lemma send_for_folder (missing : string → option delivery) (chat_id : Z)
    (fio_dr : string) (app : application_data) (n : nat) :
  send_for raises cfg missing chat_id fio_dr app n
  = match folder_of cfg fio_dr with
    | Some person_folder_path =>
        send_birthday_message raises chat_id fio_dr person_folder_path app n
    | None => report_missing raises missing fio_dr app n
    end.
Proof.
  unfold send_for, folder_of.
  destruct (find_folder_by_fio_dr fio_dr _) as [path|]; [|reflexivity].
  now destruct (truthy path).
Qed.

(** One round of the loop over the birthdays, case by case. *)
Lemma send_birthdays_cons (missing : string → option delivery) (chat_id : Z)
    (fio_dr day : string) (rest : list (string * string))
    (app : application_data) (n : nat) :
  send_birthdays raises cfg missing chat_id ((fio_dr, day) :: rest) app n
  = match folder_of cfg fio_dr with
    | Some _ =>
        if raises n then (app, [Typing chat_id], S n, Raised)
        else
          let later :=
            send_birthdays raises cfg missing chat_id rest
              (store_name fio_dr app).1 (S (S n)) in
          (later.1.1.1,
           Typing chat_id
           :: BirthdayCard chat_id fio_dr (store_name fio_dr app).2
           :: later.1.1.2,
           later.1.2, later.2)
    | None =>
        match missing fio_dr with
        | Some d =>
            if raises n then (app, [d], S n, Raised)
            else
              let later :=
                send_birthdays raises cfg missing chat_id rest app (S n) in
              (later.1.1.1, d :: later.1.1.2, later.1.2, later.2)
        | None => send_birthdays raises cfg missing chat_id rest app n
        end
    end.
Proof.
  cbn [send_birthdays]. rewrite send_for_folder.
  destruct (folder_of cfg fio_dr) as [folder|].
  - unfold send_birthday_message. destruct (raises n); [reflexivity|].
    destruct (store_name fio_dr app) as [app1 cb]. cbn [fst snd].
    now destruct (send_birthdays _ _ _ _ _ _ _) as [[[app2 sent'] n2] o'].
  - unfold report_missing, call. destruct (missing fio_dr) as [d|].
    + destruct (raises n); [reflexivity|].
      now destruct (send_birthdays _ _ _ _ _ _ _) as [[[app2 sent'] n2] o'].
    + now destruct (send_birthdays _ _ _ _ _ _ _) as [[[app2 sent'] n2] o'].
Qed.

(** What storing a name changes. *)
Lemma store_name_spec (fio_dr : string) (app : application_data) :
  let counter := default 0 (fio_id_counter app) in
  let app' := (store_name fio_dr app).1 in
  (store_name fio_dr app).2 = "full_report" +:+ ":" +:+ str counter
  ∧ default 0 (fio_id_counter app') = counter + 1
  ∧ default ∅ (fio_map (handlers_data app')) !! counter = Some fio_dr
  ∧ (∀ k, k ≠ counter →
       default ∅ (fio_map (handlers_data app')) !! k
       = default ∅ (fio_map (handlers_data app)) !! k)
  ∧ id_counter (handlers_data app') = id_counter (handlers_data app)
  ∧ pdf_map (handlers_data app') = pdf_map (handlers_data app)
  ∧ WHITELISTED_USER_IDS (handlers_data app')
    = WHITELISTED_USER_IDS (handlers_data app)
  ∧ whitelist app' = whitelist app.
Proof.
  cbn. split; [reflexivity|]. split; [reflexivity|].
  split; [apply lookup_insert_eq|].
  split; [|easy]. intros k Hk. now apply lookup_insert_ne.
Qed.

(** The data and the messages of the loop over the birthdays. *)
Lemma send_birthdays_spec (missing : string → option delivery) (chat_id : Z)
    (birthdays : list (string * string)) (app : application_data) (n : nat) :
  (∀ fio_dr d, missing fio_dr = Some d →
     recipient d = chat_id ∧ ∀ c f cb, d ≠ BirthdayCard c f cb) →
  let r := send_birthdays raises cfg missing chat_id birthdays app n in
  let sent := r.1.1.2 in
  let counter := default 0 (fio_id_counter app) in
  let counter' := default 0 (fio_id_counter r.1.1.1) in
  counter <= counter'
  ∧ r.1.2 = (n + length sent)%nat
  ∧ (∀ d, d ∈ sent → recipient d = chat_id)
  ∧ (∀ c fio_dr cb, BirthdayCard c fio_dr cb ∈ sent →
       (∃ day, (fio_dr, day) ∈ birthdays)
       ∧ is_Some (folder_of cfg fio_dr)
       ∧ ∃ fio_id, cb = "full_report" +:+ ":" +:+ str fio_id
                   ∧ counter <= fio_id < counter'
                   ∧ default ∅ (fio_map (handlers_data r.1.1.1)) !! fio_id
                     = Some fio_dr)
  ∧ (∀ k, k < counter ∨ counter' <= k →
       default ∅ (fio_map (handlers_data r.1.1.1)) !! k
       = default ∅ (fio_map (handlers_data app)) !! k)
  ∧ id_counter (handlers_data r.1.1.1) = id_counter (handlers_data app)
  ∧ pdf_map (handlers_data r.1.1.1) = pdf_map (handlers_data app)
  ∧ WHITELISTED_USER_IDS (handlers_data r.1.1.1)
    = WHITELISTED_USER_IDS (handlers_data app)
  ∧ whitelist r.1.1.1 = whitelist app.
Proof.
  intros Hmissing. revert app n.
  induction birthdays as [|[fio day] rest IH]; intros app n; cbn zeta.
  - cbn [send_birthdays fst snd length]. split; [lia|]. split; [lia|].
    split; [now intros d ?%not_elem_of_nil|].
    split; [now intros c f cb ?%not_elem_of_nil|]. now repeat split.
  - rewrite send_birthdays_cons.
    destruct (folder_of cfg fio) as [folder|] eqn:Ef;
      [|destruct (missing fio) as [d0|] eqn:Em];
      [destruct (raises n) eqn:En|destruct (raises n) eqn:En|].
    + cbn [fst snd length]. split; [lia|]. split; [lia|].
      split; [now intros d ->%list_elem_of_singleton|].
      split; [now intros c f cb [=]%list_elem_of_singleton|].
      now repeat split.
    + destruct (store_name_spec fio app)
        as (Hcb & Hcnt & Hmap & Hother & N1 & N2 & N3 & N4).
      cbn zeta in *.
      destruct (IH (store_name fio app).1 (S (S n)))
        as (H1 & H2 & H3 & H4 & H5 & H6 & H7 & H8 & H9).
      cbn zeta. cbn [fst snd length].
      split; [lia|]. split; [lia|]. split; [|split; [|split]].
      * intros d [->|[->|Hd]%elem_of_cons]%elem_of_cons;
          [reflexivity..|now apply H3].
      * intros c f cb [[=]|[Hd|Hd]%elem_of_cons]%elem_of_cons.
        -- injection Hd as -> -> ->. split; [exists day; left|].
           rewrite Ef. split; [eauto|].
           eexists. split; [exact Hcb|]. split; [lia|].
           rewrite H5 by lia. exact Hmap.
        -- destruct (H4 c f cb Hd) as ([day' Hday] & Hf & id' & -> & Hid & Hm).
           split; [exists day'; now right|]. split; [exact Hf|].
           exists id'. split; [reflexivity|]. split; [lia|exact Hm].
      * intros k Hk. rewrite H5 by lia. apply Hother. lia.
      * repeat split; congruence.
    + cbn [fst snd length]. split; [lia|]. split; [lia|].
      split; [intros d ->%list_elem_of_singleton; now apply (Hmissing fio)|].
      split; [|now repeat split].
      intros c f cb Hd%list_elem_of_singleton.
      now destruct (proj2 (Hmissing fio _ Em) c f cb).
    + destruct (IH app (S n)) as (H1 & H2 & H3 & H4 & H5 & H6).
      cbn zeta. cbn [fst snd length].
      split; [exact H1|]. split; [lia|]. split; [|split; [|exact (conj H5 H6)]].
      * intros d [->|Hd]%elem_of_cons; [now apply (Hmissing fio)|now apply H3].
      * intros c f cb [Hd|Hd]%elem_of_cons.
        { now destruct (proj2 (Hmissing fio _ Em) c f cb). }
        destruct (H4 c f cb Hd) as ([day' Hday] & Hrest).
        split; [exists day'; now right|exact Hrest].
    + destruct (IH app n) as (H1 & H2 & H3 & H4 & H5 & H6).
      split; [exact H1|]. split; [exact H2|]. split; [exact H3|].
      split; [|exact (conj H5 H6)].
      intros c f cb Hd.
      destruct (H4 c f cb Hd) as ([day' Hday] & Hrest).
      split; [exists day'; now right|exact Hrest].
Qed.

(** Whom the loop over the birthdays reaches: each person of the list has
    the message that is due, unless the loop was left by an exception; and
    it is left only by a call that raised, the last one it made, which is
    the typing action or the message for a person without a folder. *)
Lemma send_birthdays_reach (missing : string → option delivery) (chat_id : Z)
    (birthdays : list (string * string)) (app : application_data) (n : nat) :
  let r := send_birthdays raises cfg missing chat_id birthdays app n in
  let sent := r.1.1.2 in
  (∀ fio_dr day,
     (fio_dr, day) ∈ birthdays →
     match folder_of cfg fio_dr with
     | Some _ => ∃ cb, BirthdayCard chat_id fio_dr cb ∈ sent
     | None => ∀ d, missing fio_dr = Some d → d ∈ sent
     end ∨ r.2 = Raised)
  ∧ (r.2 = Raised →
     ∃ i d, sent !! i = Some d ∧ length sent = S i
            ∧ raises (n + i)%nat = true
            ∧ (d = Typing chat_id ∨ ∃ fio_dr, missing fio_dr = Some d)).
Proof.
  revert app n.
  induction birthdays as [|[fio day] rest IH]; intros app n; cbn zeta.
  - cbn [send_birthdays fst snd]. split; [|discriminate].
    now intros f d ?%not_elem_of_nil.
  - rewrite send_birthdays_cons.
    destruct (folder_of cfg fio) as [folder|] eqn:Ef;
      [|destruct (missing fio) as [d0|] eqn:Em];
      [destruct (raises n) eqn:En|destruct (raises n) eqn:En|].
    + cbn [fst snd]. split; [now right|]. intros _.
      exists 0%nat, (Typing chat_id). rewrite Nat.add_0_r. auto.
    + destruct (IH (store_name fio app).1 (S (S n))) as [H1 H2].
      cbn zeta. cbn [fst snd]. split.
      * intros f d [[= -> ->]|Hin]%elem_of_cons.
        -- left. rewrite Ef. eexists. right. left.
        -- destruct (H1 f d Hin) as [H|H]; [left|now right].
           destruct (folder_of cfg f).
           ++ destruct H as [cb Hcb]. exists cb. now do 2 right.
           ++ intros d1 Hd1. do 2 right. now apply H.
      * intros Hr. destruct (H2 Hr) as (i & d & Hi & Hlen & Hraise & Hd).
        exists (S (S i)), d. cbn [lookup list_lookup length].
        split; [exact Hi|]. split; [now rewrite Hlen|].
        split; [|exact Hd]. rewrite <- Hraise. f_equal. lia.
    + cbn [fst snd]. split; [now right|]. intros _.
      exists 0%nat, d0. rewrite Nat.add_0_r. eauto 10.
    + destruct (IH app (S n)) as [H1 H2].
      cbn zeta. cbn [fst snd]. split.
      * intros f d [[= -> ->]|Hin]%elem_of_cons.
        -- left. rewrite Ef. intros d1 Hd1. rewrite Em in Hd1.
           injection Hd1 as <-. left.
        -- destruct (H1 f d Hin) as [H|H]; [left|now right].
           destruct (folder_of cfg f).
           ++ destruct H as [cb Hcb]. exists cb. now right.
           ++ intros d1 Hd1. right. now apply H.
      * intros Hr. destruct (H2 Hr) as (i & d & Hi & Hlen & Hraise & Hd).
        exists (S i), d. cbn [lookup list_lookup length].
        split; [exact Hi|]. split; [now rewrite Hlen|].
        split; [|exact Hd]. rewrite <- Hraise. f_equal. lia.
    + destruct (IH app n) as [H1 H2]. split; [|exact H2].
      intros f d [[= -> ->]|Hin]%elem_of_cons; [|now apply (H1 f d)].
      left. rewrite Ef. intros d1 Hd1. congruence.
Qed.

(** A call that raises ends the loop, unless it is the guarded sending of
    a message with a button; and the loop makes no other calls than the
    typing action, that message and the message for a missing folder. *)
Lemma send_birthdays_calls (missing : string → option delivery) (chat_id : Z)
    (birthdays : list (string * string)) (app : application_data) (n : nat) :
  let r := send_birthdays raises cfg missing chat_id birthdays app n in
  let sent := r.1.1.2 in
  (∀ i d, sent !! i = Some d → raises (n + i)%nat = true →
          (∀ c f cb, d ≠ BirthdayCard c f cb) → r.2 = Raised)
  ∧ (∀ d, d ∈ sent →
          d = Typing chat_id
          ∨ (∃ f cb, d = BirthdayCard chat_id f cb)
          ∨ ∃ f, missing f = Some d).
Proof.
  revert app n.
  induction birthdays as [|[fio day] rest IH]; intros app n; cbn zeta.
  - cbn [send_birthdays fst snd]. split; [now intros i d [=]|].
    now intros d ?%not_elem_of_nil.
  - rewrite send_birthdays_cons.
    destruct (folder_of cfg fio) as [folder|] eqn:Ef;
      [|destruct (missing fio) as [d0|] eqn:Em];
      [destruct (raises n) eqn:En|destruct (raises n) eqn:En|].
    + cbn [fst snd]. split; [reflexivity|].
      intros d ->%list_elem_of_singleton. now left.
    + destruct (IH (store_name fio app).1 (S (S n))) as [H1 H2].
      cbn zeta. cbn [fst snd]. split.
      * intros [|[|i]] d Hi Hraise Hd; cbn in Hi.
        -- rewrite Nat.add_0_r in Hraise. congruence.
        -- injection Hi as <-. now destruct (Hd chat_id fio (store_name fio app).2).
        -- apply (H1 i d Hi); [|exact Hd]. rewrite <- Hraise. f_equal. lia.
      * intros d [->|[->|Hd]%elem_of_cons]%elem_of_cons;
          [now left|right; left; eauto|now apply H2].
    + cbn [fst snd]. split; [reflexivity|].
      intros d ->%list_elem_of_singleton. right. right. eauto.
    + destruct (IH app (S n)) as [H1 H2].
      cbn zeta. cbn [fst snd]. split.
      * intros [|i] d Hi Hraise Hd; cbn in Hi.
        -- rewrite Nat.add_0_r in Hraise. congruence.
        -- apply (H1 i d Hi); [|exact Hd]. rewrite <- Hraise. f_equal. lia.
      * intros d [->|Hd]%elem_of_cons; [right; right; eauto|now apply H2].
    + apply IH.
Qed.

Lemma cards_of_app (chat_id : Z) (a b : list delivery) :
  cards_of chat_id (a ++ b) = cards_of chat_id a ++ cards_of chat_id b.
Proof. apply omap_app. Qed.

Lemma cards_of_other (chat_id : Z) (sent : list delivery) :
  (∀ d, d ∈ sent → recipient d ≠ chat_id) → cards_of chat_id sent = [].
Proof.
  induction sent as [|d sent IH]; intros H; [reflexivity|].
  unfold cards_of. cbn [omap list_omap]. fold (cards_of chat_id sent).
  rewrite IH by (intros d' Hd'; apply H; now right).
  destruct d as [c|c f cb|c|c k|c f|c]; try reflexivity.
  destruct (Z.eqb_spec c chat_id) as [->|Hne]; [|reflexivity].
  now destruct (H (BirthdayCard chat_id f cb)); [left|].
Qed.

Lemma cards_of_card (chat_id : Z) (fio_dr cb : string)
    (sent : list delivery) :
  cards_of chat_id (Typing chat_id :: BirthdayCard chat_id fio_dr cb :: sent)
  = fio_dr :: cards_of chat_id sent.
Proof. unfold cards_of. cbn [omap list_omap]. now rewrite Z.eqb_refl. Qed.

(** The messages with a button come in the order of the list, one for each
    person with a folder up to where the loop ended. *)
Lemma send_birthdays_cards (missing : string → option delivery) (chat_id : Z)
    (birthdays : list (string * string)) (app : application_data) (n : nat) :
  (∀ fio_dr d, missing fio_dr = Some d → ∀ c f cb, d ≠ BirthdayCard c f cb) →
  let r := send_birthdays raises cfg missing chat_id birthdays app n in
  (∃ k, cards_of chat_id r.1.1.2 = take k (with_folder cfg birthdays))
  ∧ (r.2 = Returned → cards_of chat_id r.1.1.2 = with_folder cfg birthdays).
Proof.
  intros Hmissing. revert app n.
  induction birthdays as [|[fio day] rest IH]; intros app n; cbn zeta.
  - cbn [send_birthdays fst snd]. split; [now exists 0%nat|reflexivity].
  - rewrite send_birthdays_cons. unfold with_folder.
    cbn [map fst List.filter]. fold (with_folder cfg rest).
    destruct (folder_of cfg fio) as [folder|] eqn:Ef;
      [|destruct (missing fio) as [d0|] eqn:Em];
      [destruct (raises n) eqn:En|destruct (raises n) eqn:En|].
    + cbn [fst snd]. split; [now exists 0%nat|discriminate].
    + destruct (IH (store_name fio app).1 (S (S n))) as [[k Hk] Hall].
      cbn zeta. cbn [fst snd]. rewrite cards_of_card.
      split; [exists (S k); cbn [take]; now rewrite Hk|].
      intros Hr. now rewrite Hall.
    + cbn [fst snd]. split; [|discriminate]. exists 0%nat.
      unfold cards_of. cbn [omap list_omap].
      destruct d0; try reflexivity.
      now destruct (Hmissing fio _ Em chat_id0 fio_dr callback_data).
    + destruct (IH app (S n)) as [[k Hk] Hall].
      cbn zeta. cbn [fst snd].
      assert (∀ l, cards_of chat_id (d0 :: l) = cards_of chat_id l) as Hd0.
      { intros l. unfold cards_of. cbn [omap list_omap].
        destruct d0; try reflexivity.
        now destruct (Hmissing fio _ Em chat_id0 fio_dr callback_data). }
      rewrite Hd0. split; [now exists k|exact Hall].
    + apply IH.
Qed.

Lemma broadcast_to_cons (users : gmap Z user_data)
    (birthdays : list (string * string)) (user_id : Z) (rest : list Z)
    (app : application_data) (n : nat) :
  broadcast_to raises cfg users birthdays (user_id :: rest) app n
  = if subscribed users user_id
    then
      let turn :=
        send_birthdays raises cfg (λ _, None) user_id birthdays app n in
      let later :=
        broadcast_to raises cfg users birthdays rest turn.1.1.1 turn.1.2 in
      (later.1.1, turn.1.1.2 ++ later.1.2, later.2)
    else broadcast_to raises cfg users birthdays rest app n.
Proof.
  cbn [broadcast_to]. fold (subscribed users user_id).
  destruct (subscribed users user_id); [|reflexivity]. cbn [negb].
  destruct (send_birthdays _ _ _ _ _ _ _) as [[[app1 sent] n1] o].
  cbn [fst snd]. now destruct (broadcast_to _ _ _ _ _ _ _) as [[app2 sent'] n2].
Qed.

Lemma broadcast_to_spec (users : gmap Z user_data)
    (birthdays : list (string * string)) (user_ids : list Z)
    (app : application_data) (n : nat) :
  let r := broadcast_to raises cfg users birthdays user_ids app n in
  let sent := r.1.2 in
  let counter := default 0 (fio_id_counter app) in
  let counter' := default 0 (fio_id_counter r.1.1) in
  counter <= counter'
  ∧ r.2 = (n + length sent)%nat
  ∧ (∀ d, d ∈ sent →
       recipient d ∈ user_ids ∧ subscribed users (recipient d) = true)
  ∧ (∀ c fio_dr cb, BirthdayCard c fio_dr cb ∈ sent →
       (∃ day, (fio_dr, day) ∈ birthdays)
       ∧ is_Some (folder_of cfg fio_dr)
       ∧ ∃ fio_id, cb = "full_report" +:+ ":" +:+ str fio_id
                   ∧ counter <= fio_id < counter'
                   ∧ default ∅ (fio_map (handlers_data r.1.1)) !! fio_id
                     = Some fio_dr)
  ∧ (∀ user_id fio_dr day,
       user_id ∈ user_ids → subscribed users user_id = true →
       (fio_dr, day) ∈ birthdays → is_Some (folder_of cfg fio_dr) →
       (∃ cb, BirthdayCard user_id fio_dr cb ∈ sent)
       ∨ ∃ i, sent !! i = Some (Typing user_id)
              ∧ raises (n + i)%nat = true)
  ∧ (∀ k, k < counter ∨ counter' <= k →
       default ∅ (fio_map (handlers_data r.1.1)) !! k
       = default ∅ (fio_map (handlers_data app)) !! k)
  ∧ id_counter (handlers_data r.1.1) = id_counter (handlers_data app)
  ∧ pdf_map (handlers_data r.1.1) = pdf_map (handlers_data app)
  ∧ WHITELISTED_USER_IDS (handlers_data r.1.1)
    = WHITELISTED_USER_IDS (handlers_data app)
  ∧ whitelist r.1.1 = whitelist app.
Proof.
  revert app n. induction user_ids as [|u rest IH]; intros app n; cbn zeta.
  - cbn [broadcast_to fst snd length]. split; [lia|]. split; [lia|].
    split; [now intros d ?%not_elem_of_nil|].
    split; [now intros c f cb ?%not_elem_of_nil|].
    split; [now intros x f d ?%not_elem_of_nil|]. now repeat split.
  - rewrite broadcast_to_cons. destruct (subscribed users u) eqn:Eu.
    + destruct (send_birthdays_spec (λ _, None) u birthdays app n)
        as (S1 & S2 & S3 & S4 & S5 & S6 & S7 & S8 & S9); [now intros|].
      destruct (send_birthdays_reach (λ _, None) u birthdays app n)
        as [R1 R2].
      cbn zeta in *.
      destruct (send_birthdays raises cfg _ u birthdays app n)
        as [[[app1 sent] n1] o].
      cbn [fst snd] in *.
      destruct (IH app1 n1) as (H1 & H2 & H3 & H4 & H5 & H6 & H7 & H8 & H9 & H10).
      cbn zeta in *.
      destruct (broadcast_to raises cfg users birthdays rest app1 n1)
        as [[app2 sent'] n2].
      cbn [fst snd] in *. subst n1 n2. rewrite length_app.
      split; [lia|]. split; [lia|].
      split; [|split; [|split; [|split]]].
      * intros d [Hd|Hd]%elem_of_app.
        -- rewrite (S3 d Hd). split; [left|exact Eu].
        -- destruct (H3 d Hd). split; [now right|easy].
      * intros c f cb [Hd|Hd]%elem_of_app.
        -- destruct (S4 c f cb Hd) as (Hday & Hf & id' & -> & Hid & Hmap).
           split; [exact Hday|]. split; [exact Hf|].
           exists id'. split; [reflexivity|]. split; [lia|].
           rewrite H6 by lia. exact Hmap.
        -- destruct (H4 c f cb Hd) as (Hday & Hf & id' & -> & Hid & Hmap).
           split; [exact Hday|]. split; [exact Hf|].
           exists id'. split; [reflexivity|]. split; [lia|exact Hmap].
      * intros x f d [->|Hx]%elem_of_cons Hsub Hin [folder Hf].
        -- destruct (R1 f d Hin) as [H|H].
           ++ rewrite Hf in H. destruct H as [cb Hcb]. left. exists cb.
              apply elem_of_app. now left.
           ++ destruct (R2 H) as (i & d' & Hi & _ & Hraise & [->|[? [=]]]).
              right. exists i. split; [|exact Hraise].
              now apply lookup_app_l_Some.
        -- destruct (H5 x f d Hx Hsub Hin (ex_intro _ folder Hf))
             as [[cb Hcb]|(i & Hi & Hraise)].
           ++ left. exists cb. apply elem_of_app. now right.
           ++ right. exists (length sent + i)%nat. split.
              ** rewrite lookup_app_r by lia.
                 now replace (length sent + i - length sent)%nat with i by lia.
              ** rewrite <- Hraise. f_equal. lia.
      * intros k Hk. rewrite H6 by lia. apply S5. lia.
      * repeat split; congruence.
    + destruct (IH app n) as (H1 & H2 & H3 & H4 & H5 & H6).
      split; [exact H1|]. split; [exact H2|].
      split; [|split; [exact H4|split; [|exact H6]]].
      * intros d Hd. destruct (H3 d Hd). split; [now right|easy].
      * intros x f d [->|Hx]%elem_of_cons Hsub Hin Hf; [congruence|].
        exact (H5 x f d Hx Hsub Hin Hf).
Qed.

(** Each member is served once, so the messages with a button that a
    member gets are those of the member's own turn. *)
Lemma broadcast_to_cards (users : gmap Z user_data)
    (birthdays : list (string * string)) (user_ids : list Z)
    (app : application_data) (n : nat) (user_id : Z) :
  NoDup user_ids →
  ∃ k, cards_of user_id
         (broadcast_to raises cfg users birthdays user_ids app n).1.2
       = take k (with_folder cfg birthdays).
Proof.
  intros Hnd. revert app n.
  induction Hnd as [|u rest Hu Hnd IH]; intros app n;
    [now exists 0%nat|].
  rewrite broadcast_to_cons. destruct (subscribed users u) eqn:Eu; [|apply IH].
  cbn zeta. cbn [fst snd]. rewrite cards_of_app.
  match goal with
  | |- context [broadcast_to raises cfg users birthdays rest ?a ?m] =>
      pose proof (broadcast_to_spec users birthdays rest a m)
        as (_ & _ & Hrest & _);
      specialize (IH a m)
  end.
  pose proof (send_birthdays_spec (λ _, None) u birthdays app n)
    as (_ & _ & Hturn & _); [now intros|].
  cbn zeta in *.
  destruct (decide (user_id = u)) as [->|Hne].
  - rewrite (cards_of_other u (broadcast_to _ _ _ _ _ _ _).1.2).
    + rewrite app_nil_r.
      destruct (send_birthdays_cards (λ _, None) u birthdays app n)
        as [Hk _]; [now intros|exact Hk].
    + intros d Hd Heq. destruct (Hrest d Hd) as [Hin _]. congruence.
  - rewrite (cards_of_other user_id (send_birthdays _ _ _ _ _ _ _).1.1.2).
    + exact IH.
    + intros d Hd. rewrite (Hturn d Hd). congruence.
Qed.

Lemma get_today_birthdays_elem (today : string)
    (BIRTHDAYS : list (string * string)) (fio_dr day : string) :
  (fio_dr, day) ∈ get_today_birthdays today BIRTHDAYS
  ↔ (fio_dr, day) ∈ BIRTHDAYS ∧ day = today.
Proof.
  unfold get_today_birthdays.
  rewrite list_elem_of_In, filter_In, <- list_elem_of_In. cbn [snd].
  now rewrite String.eqb_eq.
Qed.

(** X18. The daily broadcast reaches the subscribed members of the white
    list, and nobody else: every call of [birthday_broadcast] to the
    transport is for a member of ['whitelist'] who has not switched the
    broadcast off, and every message with a button is about a person of
    [BIRTHDAYS] whose date is today and for whom a folder is found.  Such a
    member gets a message with a button for every such person, unless a
    typing action for that very member raised: the exception ends the turn
    of the member and of nobody else.  The messages of a member come in the
    order of today's list, without gaps up to where the turn ended. *)
Theorem broadcast_reaches_the_subscribed (BIRTHDAYS : list (string * string))
    (today : string) (users : gmap Z user_data) (app : application_data) :
  let sent := (birthday_broadcast raises cfg BIRTHDAYS today users app).2 in
  let listed := default ∅ (whitelist app) in
  (∀ d, d ∈ sent →
     recipient d ∈ listed ∧ subscribed users (recipient d) = true)
  ∧ (∀ c fio_dr cb, BirthdayCard c fio_dr cb ∈ sent →
       (fio_dr, today) ∈ BIRTHDAYS ∧ is_Some (folder_of cfg fio_dr))
  ∧ (∀ user_id fio_dr,
       user_id ∈ listed → subscribed users user_id = true →
       (fio_dr, today) ∈ BIRTHDAYS → is_Some (folder_of cfg fio_dr) →
       (∃ cb, BirthdayCard user_id fio_dr cb ∈ sent)
       ∨ ∃ i, sent !! i = Some (Typing user_id) ∧ raises i = true)
  ∧ (∀ user_id,
       ∃ k, cards_of user_id sent
            = take k (with_folder cfg (get_today_birthdays today BIRTHDAYS))).
Proof.
  intros sent listed. subst sent listed. unfold birthday_broadcast.
  destruct (get_today_birthdays today BIRTHDAYS) as [|b bs] eqn:E.
  { split; [now intros d ?%not_elem_of_nil|].
    split; [now intros c f cb ?%not_elem_of_nil|].
    split; [|now exists 0%nat].
    intros u f _ _ Hin _.
    assert ((f, today) ∈ get_today_birthdays today BIRTHDAYS) as H
      by now apply get_today_birthdays_elem.
    rewrite E in H. now apply not_elem_of_nil in H. }
  case_bool_decide as Hempty.
  { rewrite Hempty. split; [now intros d ?%not_elem_of_nil|].
    split; [now intros c f cb ?%not_elem_of_nil|].
    split; [now intros u f ?%not_elem_of_empty|now exists 0%nat]. }
  rewrite <- E.
  destruct (broadcast_to_spec users (get_today_birthdays today BIRTHDAYS)
              (elements (default ∅ (whitelist app))) app 0%nat)
    as (_ & _ & H3 & H4 & H5 & _).
  cbn [fst snd]. split; [|split; [|split]].
  - intros d Hd. destruct (H3 d Hd) as [Hin Hsub].
    split; [now apply elem_of_elements|exact Hsub].
  - intros c f cb Hd. destruct (H4 c f cb Hd) as ([day Hday] & Hf & _).
    apply get_today_birthdays_elem in Hday as [Hday ->]. now split.
  - intros u f Hu Hsub Hin Hf. apply (H5 u f today); auto.
    + now apply elem_of_elements.
    + now apply get_today_birthdays_elem.
  - intros u. apply broadcast_to_cards, NoDup_elements.
Qed.

End BirthdayFacts.

Section ReportFacts.
Import PyStr Handlers Birthday.

Variables (raises : transport) (cfg : config) (fs : filesystem).

Lemma button_body_full_report (data : string) (upd : update) (st : state) :
  startswith "full_report" data = true →
  button_body cfg fs data upd st
  = ((full_report cfg fs data st).1,
     Answer Plain :: (full_report cfg fs data st).2).
Proof.
  intros H. apply startswith_app in H as [rest ->].
  unfold button_body. simpl. rewrite startswith_nil.
  now destruct (full_report _ _ _ _).
Qed.

(** Pressing the button of a birthday whose handle names [fio_dr]. *)
Lemma full_report_at (fio_id : Z) (fio_dr folder : string) (upd : update)
    (ud : user_data) (bd : bot_data) :
  default ∅ (fio_map bd) !! fio_id = Some fio_dr →
  fio_dr ≠ "" →
  folder_of cfg fio_dr = Some folder →
  button_body cfg fs ("full_report" +:+ ":" +:+ str fio_id) upd (ud, bd)
  = ((ud, (Sender.send_folder_contents cfg fs (Some true) folder bd).1),
     Answer Plain :: Answer (LoadingReport fio_dr)
     :: (Sender.send_folder_contents cfg fs (Some true) folder bd).2).
Proof.
  intros Hmap Hne Hfolder.
  rewrite button_body_full_report by apply startswith_prefix.
  unfold full_report.
  change ("full_report" +:+ ":" +:+ str fio_id)
    with ("full_report" +:+ String ":" (str fio_id)).
  rewrite after_first_app by reflexivity. cbn [mbind option_bind].
  rewrite int_of_str, Hmap.
  assert (truthy fio_dr = true) as ->
    by (unfold truthy; now rewrite (proj2 (String.eqb_neq _ _) Hne)).
  cbn [negb].
  unfold folder_of in Hfolder.
  destruct (find_folder_by_fio_dr fio_dr _) as [path|]; [|discriminate].
  destruct (truthy path); [|discriminate]. injection Hfolder as ->.
  cbn [negb]. now destruct (Sender.send_folder_contents _ _ _ _ _).
Qed.

(** X19. The button of a birthday message opens the folder of the person
    it names: for every message with a button that [birthday_broadcast]
    sends for a person whose name is not empty, pressing the button, with
    the data the broadcast left, announces the report of that person and
    sends the contents of the folder found for the name.  This holds
    whatever calls to the transport raise. *)
Theorem birthday_button_round_trip (BIRTHDAYS : list (string * string))
    (today : string) (users : gmap Z user_data) (app : application_data)
    (chat_id : Z) (fio_dr callback_data : string) (upd : update)
    (ud : user_data) :
  let r := birthday_broadcast raises cfg BIRTHDAYS today users app in
  BirthdayCard chat_id fio_dr callback_data ∈ r.2 →
  fio_dr ≠ "" →
  ∃ folder,
    folder_of cfg fio_dr = Some folder
    ∧ button_body cfg fs callback_data upd (ud, handlers_data r.1)
      = ((ud,
          (Sender.send_folder_contents cfg fs (Some true) folder
             (handlers_data r.1)).1),
         Answer Plain :: Answer (LoadingReport fio_dr)
         :: (Sender.send_folder_contents cfg fs (Some true) folder
               (handlers_data r.1)).2).
Proof.
  intros r. subst r. unfold birthday_broadcast.
  destruct (get_today_birthdays today BIRTHDAYS) as [|b bs];
    [now intros ?%not_elem_of_nil|].
  case_bool_decide; [now intros ?%not_elem_of_nil|].
  intros Hsent Hne.
  destruct (broadcast_to_spec raises cfg users (b :: bs)
              (elements (default ∅ (whitelist app))) app 0%nat)
    as (_ & _ & _ & H4 & _).
  cbn [fst snd] in *.
  destruct (H4 _ _ _ Hsent) as (_ & [folder Hfolder] & fio_id & -> & _ & Hmap).
  exists folder. split; [exact Hfolder|]. now apply full_report_at.
Qed.

(** X20. The switch of the settings menu: pressing [toggle_broadcast]
    turns the broadcast off for a user who had it on, by default or by
    choice, and on for one who had it off; it shows the settings menu and
    changes nothing else of the session or of the process data; and while
    the switch is off, [birthday_broadcast] makes no call for the user,
    whatever the white list and whatever the transport does. *)
Theorem toggle_broadcast_switches (upd : update) (ud : user_data)
    (bd : bot_data) :
  let pressed := button_body cfg fs "toggle_broadcast" upd (ud, bd) in
  pressed
  = ((set_send_birthday_broadcast (negb (get_user_broadcast_status ud)) ud,
      bd),
     [Answer Plain; Menu "settings"])
  ∧ get_user_broadcast_status pressed.1.1 = negb (get_user_broadcast_status ud)
  ∧ (∀ BIRTHDAYS today users app user_id d,
       users !! user_id = Some pressed.1.1 →
       get_user_broadcast_status ud = true →
       d ∈ (birthday_broadcast raises cfg BIRTHDAYS today users app).2 →
       recipient d ≠ user_id).
Proof.
  intros pressed. split; [reflexivity|]. split; [reflexivity|].
  intros BIRTHDAYS today users app user_id d Huser Hon Hd <-.
  unfold birthday_broadcast in Hd.
  destruct (get_today_birthdays today BIRTHDAYS) as [|b bs];
    [now apply not_elem_of_nil in Hd|].
  case_bool_decide; [now apply not_elem_of_nil in Hd|].
  destruct (broadcast_to_spec raises cfg users (b :: bs)
              (elements (default ∅ (whitelist app))) app 0%nat)
    as (_ & _ & Hto & _).
  cbn [fst snd] in *.
  destruct (Hto d Hd) as [_ Hsub]. unfold subscribed in Hsub.
  rewrite Huser in Hsub. cbn in Hsub. rewrite Hon in Hsub. discriminate.
Qed.

(** X21. The test of the broadcast goes to the one who asked for it, and
    to nobody else, whatever the white list and the settings: every call of
    [birthday_broadcast_test] is for the chat of the command; without a
    birthday today it is the one message that says so; otherwise the count
    of today's birthdays comes first, and each person of today gets a
    message with a button when a folder is found and a warning when none
    is, unless the run was cut short.  It is cut short exactly when a call
    raised that is not the guarded sending of a message with a button; the
    message of failure is then the last call. *)
Theorem test_broadcast_goes_to_the_caller (BIRTHDAYS : list (string * string))
    (today : string) (user_id : Z) (app : application_data) :
  let sent :=
    (birthday_broadcast_test raises cfg BIRTHDAYS today user_id app).2 in
  let birthdays_today := get_today_birthdays today BIRTHDAYS in
  (∀ d, d ∈ sent → recipient d = user_id)
  ∧ (birthdays_today = [] → sent = [TestNoBirthdays user_id])
  ∧ (birthdays_today ≠ [] →
     head sent = Some (TestFound user_id (length birthdays_today)))
  ∧ (∀ fio_dr,
       (fio_dr, today) ∈ BIRTHDAYS →
       match folder_of cfg fio_dr with
       | Some _ => ∃ cb, BirthdayCard user_id fio_dr cb ∈ sent
       | None => TestFolderMissing user_id fio_dr ∈ sent
       end
       ∨ TestFailed user_id ∈ sent)
  ∧ (birthdays_today ≠ [] →
     (TestFailed user_id ∈ sent
      ↔ ∃ i d, sent !! i = Some d ∧ raises i = true
               ∧ d ≠ TestFailed user_id
               ∧ ∀ c f cb, d ≠ BirthdayCard c f cb))
  ∧ (TestFailed user_id ∈ sent → last sent = Some (TestFailed user_id)).
Proof.
  intros sent birthdays_today. subst sent. unfold birthday_broadcast_test.
  fold birthdays_today.
  assert (∀ fio_dr, (fio_dr, today) ∈ BIRTHDAYS →
            (fio_dr, today) ∈ birthdays_today) as Htoday
    by (intros f Hf; now apply get_today_birthdays_elem).
  destruct birthdays_today as [|b bs] eqn:E.
  { cbn [snd]. split; [|split; [easy|split; [easy|split; [|split; [easy|]]]]].
    - now intros d ->%list_elem_of_singleton.
    - intros f Hf. now apply Htoday, not_elem_of_nil in Hf.
    - now intros [=]%list_elem_of_singleton. }
  set (missing := λ fio_dr : string, Some (TestFolderMissing user_id fio_dr)).
  assert (∀ f d, missing f = Some d →
            recipient d = user_id ∧ ∀ c g cb, d ≠ BirthdayCard c g cb)
    as Hmissing by (intros f d [= <-]; now split).
  unfold call. destruct (raises 0%nat) eqn:E0.
  { cbn [fst snd List.app]. split; [|split; [easy|split; [easy|split; [|split]]]].
    - intros d [->|Hd%list_elem_of_singleton]%elem_of_cons; [|subst d];
        reflexivity.
    - intros f _. right. right. left.
    - intros _. split; [|intros _; right; left].
      intros _. exists 0%nat, (TestFound user_id (length (b :: bs))).
      now repeat split.
    - reflexivity. }
  destruct (send_birthdays_spec raises cfg missing user_id (b :: bs) app 1%nat
              Hmissing) as (_ & _ & H3 & _).
  destruct (send_birthdays_reach raises cfg missing user_id (b :: bs) app 1%nat)
    as [R1 R2].
  destruct (send_birthdays_calls raises cfg missing user_id (b :: bs) app 1%nat)
    as [C1 C2].
  cbn zeta in *.
  destruct (send_birthdays raises cfg missing user_id (b :: bs) app 1%nat)
    as [[[app' out] n'] o'].
  cbn [fst snd List.app] in *.
  assert (TestFailed user_id ∉ out) as Hout.
  { intros Hd.
    destruct (C2 _ Hd) as [[=]|[(f & cb & [=])|[f [=]]]]. }
  split; [|split; [easy|split; [easy|split; [|split]]]].
  - intros d [->|[Hd|Hd]%elem_of_app]%elem_of_cons;
      [reflexivity|now apply H3|].
    destruct o'; [now apply not_elem_of_nil in Hd|].
    now apply list_elem_of_singleton in Hd as ->.
  - intros f Hf. apply Htoday in Hf.
    destruct (R1 f today Hf) as [H|Hr]; [|subst o'].
    + left. destruct (folder_of cfg f).
      * destruct H as [cb Hcb]. exists cb. right. apply elem_of_app. now left.
      * right. apply elem_of_app. left. now apply H.
    + right. right. apply elem_of_app. right. left.
  - intros _. split.
    + intros [[=]|[Hd|Hd]%elem_of_app]%elem_of_cons; [contradiction|].
      destruct o'; [now apply not_elem_of_nil in Hd|].
      destruct (R2 eq_refl) as (i & d & Hi & Hlen & Hraise & Hkind).
      exists (S i), d. cbn [lookup list_lookup].
      split; [now apply lookup_app_l_Some|]. split; [exact Hraise|].
      destruct Hkind as [->|[f [= <-]]]; now split.
    + intros ([|i] & d & Hi & Hraise & Hd & Hcard);
        rewrite lookup_cons in Hi; [congruence|].
      right. apply elem_of_app. right.
      destruct (decide (i < length out)%nat) as [Hlt|Hge].
      * rewrite lookup_app_l in Hi by exact Hlt.
        rewrite (C1 i d Hi Hraise Hcard). left.
      * rewrite lookup_app_r in Hi by lia.
        destruct o'; [now destruct (i - length out)%nat|left].
  - intros [[=]|[Hd|Hd]%elem_of_app]%elem_of_cons; [contradiction|].
    destruct o'; [now apply not_elem_of_nil in Hd|].
    change (TestFound user_id (length (b :: bs)) :: out ++ [TestFailed user_id])
      with ((TestFound user_id (length (b :: bs)) :: out)
            ++ [TestFailed user_id]).
    apply last_snoc.
Qed.

End ReportFacts.

(** The theorem at the birthday of the person of the folder
    [Ivanov_Petr_01.01], sent to the one member 7 of the white list by a
    transport whose second call, the sending of the message, raises. *)
Lemma birthday_button_round_trip_witness :
  let app :=
    {| handlers_data := Fixtures.bd; fio_id_counter := None;
       whitelist := Some {[ 7 ]} |} in
  let r :=
    Birthday.birthday_broadcast (Nat.eqb 1) Fixtures.cfg
      [("Ivanov_Petr_01.01", "01.01")] "01.01" ∅ app in
  ∃ folder,
    Birthday.folder_of Fixtures.cfg "Ivanov_Petr_01.01" = Some folder
    ∧ Handlers.button_body Fixtures.cfg Fixtures.fs "full_report:0"
        Fixtures.press (fresh_user_data, handlers_data r.1)
      = ((fresh_user_data,
          (Sender.send_folder_contents Fixtures.cfg Fixtures.fs (Some true)
             folder (handlers_data r.1)).1),
         Answer Plain :: Answer (LoadingReport "Ivanov_Petr_01.01")
         :: (Sender.send_folder_contents Fixtures.cfg Fixtures.fs (Some true)
               folder (handlers_data r.1)).2).
Proof.
  intros app r.
  refine (birthday_button_round_trip (Nat.eqb 1) Fixtures.cfg Fixtures.fs
            [("Ivanov_Petr_01.01", "01.01")] "01.01" ∅ app 7
            "Ivanov_Petr_01.01" "full_report:0" Fixtures.press
            fresh_user_data _ _); [|discriminate].
  vm_compute. right. left.
Defined.

(** A turn cut short: the typing action for the second of two persons
    raises, so the member 7 gets the message for the first only. *)
Example broadcast_turn_cut_short :
  let app :=
    {| handlers_data := Fixtures.bd; fio_id_counter := None;
       whitelist := Some {[ 7 ]} |} in
  (Birthday.birthday_broadcast (Nat.eqb 2) Fixtures.cfg
     [("Ivanov_Petr_01.01", "01.01"); ("Ivanov", "01.01")] "01.01" ∅ app).2
  = [Birthday.Typing 7;
     Birthday.BirthdayCard 7 "Ivanov_Petr_01.01" "full_report:0";
     Birthday.Typing 7].
Proof. vm_compute. reflexivity. Qed.

(** ** What a request to the assistant calls and leaves behind *)

Section ServiceFacts.
Import Gemini.

Variables (cfg : config) (fs : filesystem).
Variables (now : Q) (query : string) (ud : user_data).

(** The session a request leaves, whatever the service does. *)
Lemma gemini_query_session (ai : ai_service) :
  (gemini_query cfg fs ai now query ud).1
  = if negb (GEMINI_ENABLED cfg) then ud
    else
      let ud2 := (rate_limit cfg now ud).2 in
      if negb (rate_limit cfg now ud).1
      then set_mode MODE_SEARCH (set_pdf_context_path (Some None) ud2)
      else if over_budget cfg fs ud
      then pop_gemini_requests
             (set_mode MODE_SEARCH (set_pdf_context_path (Some None) ud2))
      else ud2.
Proof.
  unfold gemini_query, over_budget.
  destruct (GEMINI_ENABLED cfg); [|reflexivity]. cbn [negb].
  pose proof (rate_limit_frame cfg now ud) as (Hctx & _).
  destruct (rate_limit cfg now ud) as [allowed ud2]. cbn [fst snd] in *.
  destruct allowed; [|reflexivity]. cbn [negb].
  unfold get_context_path. rewrite Hctx.
  destruct (default None (pdf_context_path ud)) as [path|]; [|reflexivity].
  destruct (truthy path && exists_ fs path); [|reflexivity]. cbn [andb].
  destruct (getsize fs path) as [size|]; [|reflexivity].
  now destruct (Qgtb _ _).
Qed.

(** Splits [gemini_query] into its outcomes, the events of each written
    out. *)
Ltac outcomes :=
  unfold gemini_query, ask_with_file, ask_general, usable;
  repeat match goal with
    | |- context [if ?b then _ else _] => destruct b eqn:?
    | |- context [match ?x with _ => _ end] => destruct x eqn:?
    end.

Ltac member H :=
  repeat match type of H with
    | _ ∈ [] => exfalso; exact (not_elem_of_nil _ H)
    | _ ∈ _ :: _ => apply elem_of_cons in H as [H|H]
    end.

(** X22. The calls one request makes to the service.  [gemini_query]
    makes none, or one question without a document, or it uploads the
    active document of the session, which exists, and then either the upload
    fails and nothing else is called, or the question is asked once with
    that document and the upload is deleted, whether the question succeeds
    or not. *)
Theorem ai_calls_of_a_request (ai : ai_service) :
  let calls :=
    List.filter is_ai_call (gemini_query cfg fs ai now query ud).2 in
  calls = []
  ∨ calls = [AiGenerate None query]
  ∨ ∃ path,
      get_context_path ud = Some path ∧ exists_ fs path = true
      ∧ ((upload_ok ai = false ∧ calls = [AiUpload path])
         ∨ (upload_ok ai = true
            ∧ calls = [AiUpload path; AiGenerate (Some path) query; AiDelete])).
Proof.
  cbn zeta. unfold gemini_query.
  destruct (GEMINI_ENABLED cfg); [|now left]. cbn [negb].
  pose proof (rate_limit_frame cfg now ud) as (Hctx & _).
  destruct (rate_limit cfg now ud) as [allowed ud2]. cbn [fst snd] in *.
  destruct allowed; [|now left]. cbn [negb].
  unfold get_context_path in *. rewrite Hctx.
  assert (List.filter is_ai_call (ask_general ai query)
          = [AiGenerate None query]) as Hgeneral.
  { unfold ask_general, usable.
    destruct (generated ai) as [[t|]|]; [destruct (truthy t)|..]; reflexivity. }
  destruct (default None (pdf_context_path ud)) as [path|];
    [|right; left; exact Hgeneral].
  destruct (truthy path) eqn:Etruthy; [|right; left; exact Hgeneral].
  destruct (exists_ fs path) eqn:Eexists; [|right; left; exact Hgeneral].
  cbn [andb snd]. destruct (getsize fs path) as [size|]; [|now left].
  destruct (Qgtb _ _); [now left|].
  right. right. exists path. split; [reflexivity|]. split; [exact Eexists|].
  unfold ask_with_file, usable. destruct (upload_ok ai); [right|left; easy].
  split; [reflexivity|].
  destruct (generated ai) as [[t|]|]; [destruct (truthy t)|..]; reflexivity.
Qed.

(** X23. The session does not depend on the service.  What
    [gemini_query] leaves in the session is the same whatever the upload and
    the question do: success, failure and an empty answer all keep the mode
    and the active document.  What the user is told does depend on it: a
    chunk of an answer is sent only for a text of the service that is not
    empty, and when a call that was made failed, a failure is reported and no
    answer is sent. *)
Theorem session_does_not_depend_on_the_service (ai : ai_service) :
  let events := (gemini_query cfg fs ai now query ud).2 in
  (∀ ai', (gemini_query cfg fs ai now query ud).1
          = (gemini_query cfg fs ai' now query ud).1)
  ∧ (∀ e, e ∈ events → is_answer e = true →
       ∃ text, generated ai = Some (Some text) ∧ text ≠ ""
               ∧ e = Message (AnswerText text))
  ∧ (∀ path document question,
       (AiUpload path ∈ events ∧ upload_ok ai = false)
       ∨ (AiGenerate document question ∈ events ∧ generated ai = None) →
       (∃ e, e ∈ events ∧ is_failure e = true)
       ∧ ∀ e, e ∈ events → is_answer e = false).
Proof.
  cbn zeta. split; [|split].
  - intros ai'. now rewrite !gemini_query_session.
  - intros e. outcomes; cbn [snd]; intros H Hanswer; member H; subst;
      try discriminate; cbn [default from_option id].
    all: match goal with
         | Ht : match ?o with Some _ => _ | None => _ end = true |- _ =>
             destruct o as [text|]; [|discriminate];
             exists text; split; [reflexivity|]; split; [|reflexivity];
             unfold truthy in Ht; rewrite negb_true_iff in Ht;
             now apply String.eqb_neq
         end.
  - intros path document question.
    outcomes; cbn [snd]; intros [[H E]|[H E]]; member H; try discriminate;
      try congruence.
    all: split;
      [ first [ solve [ exists (Message AiFailedWithFile);
                        split; [repeat first [left | right]|reflexivity] ]
              | solve [ exists (Message AiFailedGeneral);
                        split; [repeat first [left | right]|reflexivity] ] ]
      | intros e He; member He; subst; reflexivity ].
Qed.

Lemma prune_all_recent (log : list Q) :
  Forall (λ t, (now - t < 60)%Q) (prune now log).
Proof.
  apply Forall_forall. intros t Ht. unfold prune in Ht.
  apply list_elem_of_In, filter_In in Ht as [_ Ht]. now apply Qltb_true.
Qed.

Lemma removelast_snoc {A : Type} (l : list A) (x : A) :
  removelast (l ++ [x]) = l.
Proof. apply removelast_last. Qed.

(** X24. The log of requests stays short and fresh.  After a call of
    [gemini_query] the log of the session is never longer than the larger of
    its length before and the limit per minute, so a log within the limit
    stays within it; and with the assistant enabled every time it holds lies
    within the 60 seconds before the call. *)
Theorem request_log_stays_bounded (ai : ai_service) :
  let log := default [] (gemini_requests ud) in
  let log' :=
    default [] (gemini_requests (gemini_query cfg fs ai now query ud).1) in
  Z.of_nat (length log')
  <= Z.max (Z.of_nat (length log)) (MAX_GEMINI_REQUESTS_PER_MINUTE cfg)
  ∧ (GEMINI_ENABLED cfg = true → Forall (λ t, (now - t < 60)%Q) log').
Proof.
  cbn zeta. rewrite gemini_query_session.
  destruct (GEMINI_ENABLED cfg); cbn [negb]; [|split; [lia|discriminate]].
  rewrite rate_limit_unfold. cbv zeta.
  pose proof (prune_length now (default [] (gemini_requests ud))) as Hlen.
  pose proof (prune_all_recent (default [] (gemini_requests ud))) as Hrecent.
  destruct (Z.leb_spec (MAX_GEMINI_REQUESTS_PER_MINUTE cfg)
              (Z.of_nat (length (prune now (default [] (gemini_requests ud))))))
    as [Hdenied|Hallowed]; cbn [fst snd negb].
  - cbn. split; [lia|now intros _].
  - destruct (over_budget cfg fs ud); cbn.
    + rewrite removelast_snoc. split; [lia|now intros _].
    + rewrite length_app. cbn. split; [lia|]. intros _.
      apply Forall_app. split; [exact Hrecent|].
      constructor; [|constructor]. unfold Qminus. rewrite Qplus_opp_r. reflexivity.
Qed.

End ServiceFacts.

(** ** Text messages in search mode, summaries and refusals *)

Section SearchFacts.
Import PyStr Folder Sender Pager Handlers.

Variables (cfg : config) (fs : filesystem).

Lemma send_documents_no_call (files : list string) (bd : bot_data) :
  Forall (λ e, is_ai_call e = false) (send_documents fs files bd).2.
Proof.
  revert bd. induction files as [|f files IH]; intros bd; [constructor|].
  cbn [send_documents].
  destruct (fs !! f) as [x|]; [destruct (file_opens x)|].
  - cbn [register_document].
    match goal with
    | |- context [send_documents fs files ?b] =>
        specialize (IH b); destruct (send_documents fs files b)
    end.
    now constructor.
  - specialize (IH bd). destruct (send_documents fs files bd). now constructor.
  - specialize (IH bd). destruct (send_documents fs files bd). now constructor.
Qed.

Lemma send_folder_contents_no_call (with_update : option bool)
    (folder : string) (bd : bot_data) :
  Forall (λ e, is_ai_call e = false)
    (send_folder_contents cfg fs with_update folder bd).2.
Proof.
  unfold send_folder_contents.
  destruct (collect _ _ _ _ _ _ _) as [txt pdfs].
  assert (∀ files b, Forall (λ e, is_ai_call e = false)
                       (send_documents fs files b).2) as Hsent
    by apply send_documents_no_call.
  destruct pdfs as [|pdf pdfs].
  - cbn [snd]. repeat apply Forall_app_2; try constructor;
      repeat match goal with
        | |- Forall _ (if ?b then _ else _) => destruct b
        | |- Forall _ (match ?x with _ => _ end) => destruct x
        | |- Forall _ [] => constructor
        | |- Forall _ (_ :: _) => constructor; [reflexivity|]
        end.
  - destruct (select_within_limits _ _ _ _ _) as [final stopped].
    specialize (Hsent final bd).
    destruct (send_documents fs final bd) as [bd1 sent]. cbn [snd] in *.
    repeat apply Forall_app_2; try constructor; try reflexivity;
      repeat match goal with
        | |- Forall _ (if ?b then _ else _) => destruct b
        | |- Forall _ (match ?x with _ => _ end) => destruct x
        | |- Forall _ [] => constructor
        | |- Forall _ (_ :: _) => constructor; [reflexivity|]
        | |- Forall _ (_ ++ _) => apply Forall_app_2
        | |- Forall _ (notice_events ?n) => destruct n; cbn [notice_events]
        end; try assumption.
Qed.

Lemma find_folder_matches_nil (query : string) :
  Matcher.find_folder_matches query [] = [].
Proof. unfold Matcher.find_folder_matches. now destruct (Matcher.query_words _). Qed.

(** X25. A text in search mode stays a search.  When the session is not in
    AI mode, [handle_text_message] makes no call to the AI service and
    leaves the mode, the active document, the log of requests and the
    broadcast setting as they are.  Its effect is fixed by the number of
    folders the matcher finds for the stripped text: none, and nothing
    changes; one, and the contents of that folder are sent, the session
    unchanged; several, and they become the match list of the session, with
    the cursor on the first and the text as the query, the process data
    unchanged. *)
Theorem text_in_search_mode (ai : ai_service) (now : Q) (text : string)
    (upd : update) (ud : user_data) (bd : bot_data) :
  current_mode ud ≠ MODE_AI →
  let query := strip text in
  let found := Matcher.find_folder_matches query (PERSON_FOLDERS cfg) in
  let r := handle_text_body cfg fs ai now text upd (ud, bd) in
  (∀ e, e ∈ r.2 → is_ai_call e = false)
  ∧ mode r.1.1 = mode ud
  ∧ pdf_context_path r.1.1 = pdf_context_path ud
  ∧ gemini_requests r.1.1 = gemini_requests ud
  ∧ send_birthday_broadcast r.1.1 = send_birthday_broadcast ud
  ∧ match found with
    | [] => r.1 = (ud, bd)
    | [folder] =>
        r = ((ud, (send_folder_contents cfg fs None folder bd).1),
             (send_folder_contents cfg fs None folder bd).2)
    | _ :: _ :: _ =>
        r.1.2 = bd
        ∧ current_matches r.1.1 = Some found
        ∧ current_match_index r.1.1 = Some 0
        ∧ last_query r.1.1 = Some query
    end.
Proof.
  intros Hmode query found r. subst r found query.
  unfold handle_text_body.
  rewrite (proj2 (Z.eqb_neq _ _) Hmode).
  destruct (PERSON_FOLDERS cfg) as [|p ps] eqn:Efolders.
  { rewrite find_folder_matches_nil. cbn [fst snd].
    repeat split; auto. intros e [->|H]%elem_of_cons; [reflexivity|].
    now apply not_elem_of_nil in H. }
  destruct (Matcher.find_folder_matches _ _) as [|folder [|second rest]].
  - cbn [fst snd]. repeat split; auto.
    intros e [->|H]%elem_of_cons; [reflexivity|].
    now apply not_elem_of_nil in H.
  - pose proof (send_folder_contents_no_call None folder bd) as Hno.
    destruct (send_folder_contents cfg fs None folder bd) as [bd' evs].
    cbn [fst snd] in *. repeat split; auto.
    intros e He. now apply (proj1 (Forall_forall _ _) Hno).
  - unfold send_person_card. cbn [length]. cbn [fst snd].
    assert ((0 <=? 0) && (0 <? Z.of_nat (S (S (length rest)))) = true) as ->
      by (apply andb_true_iff; split; [easy|apply Z.ltb_lt; lia]).
    cbn [negb andb fst snd]. repeat split; auto.
    intros e [->|H]%elem_of_cons; [reflexivity|].
    now apply not_elem_of_nil in H.
Qed.

(** X26. The summary of a card is short: what [get_summary_from_folder]
    reads from a file is at most 503 characters long, the three dots
    included; the dots are there only when the file has 500 characters or
    more, and a file of fewer characters is shown whole, stripped. *)
Theorem brief_is_short (content : string) :
  (String.length (brief content) <= 503)%nat
  ∧ ((String.length content < 500)%nat → brief content = strip content)
  ∧ (brief content ≠ strip (OsPath.take 500 content) →
     (500 <= String.length content)%nat
     ∧ brief content = strip (OsPath.take 500 content) +:+ "...")
  ∧ ∀ folder text,
      get_summary_from_folder cfg fs folder = Brief text →
      (String.length text <= 503)%nat.
Proof.
  assert (String.length (brief content) <= 503)%nat as Hshort.
  { unfold brief. cbv zeta.
    pose proof (length_strip (OsPath.take 500 content)) as H.
    rewrite string_length_take in H.
    destruct (Nat.eqb_spec (String.length (strip (OsPath.take 500 content))) 500)
      as [E|E]; [|lia].
    rewrite string_length_app, E. simpl. lia. }
  assert (∀ c, (String.length (brief c) <= 503)%nat) as Hall.
  { intros c. unfold brief. cbv zeta.
    pose proof (length_strip (OsPath.take 500 c)) as H.
    rewrite string_length_take in H.
    destruct (Nat.eqb_spec (String.length (strip (OsPath.take 500 c))) 500)
      as [E|E]; [|lia].
    rewrite string_length_app, E. simpl. lia. }
  split; [exact Hshort|]. split; [|split].
  - intros Hlen. unfold brief. cbv zeta.
    assert (OsPath.take 500 content = content) as ->.
    { rewrite <- (string_take_drop 500 content) at 2.
      assert (OsPath.drop 500 content = "") as ->.
      { pose proof (string_length_drop 500 content) as H.
        destruct (OsPath.drop 500 content); [easy|simpl in H; lia]. }
      now rewrite app_nil_r_string. }
    pose proof (length_strip content) as H.
    destruct (Nat.eqb_spec (String.length (strip content)) 500); [lia|easy].
  - unfold brief. cbv zeta.
    pose proof (length_strip (OsPath.take 500 content)) as H.
    rewrite string_length_take in H.
    destruct (Nat.eqb_spec (String.length (strip (OsPath.take 500 content))) 500)
      as [E|E]; [|easy].
    intros _. split; [lia|reflexivity].
  - intros folder text. unfold get_summary_from_folder.
    destruct (find_txt _ _ _ _) as [p|]; [|discriminate].
    destruct (truthy p && exists_ fs p); [|discriminate].
    destruct (read_text fs p) as [c|]; [|discriminate].
    intros [= <-]. apply Hall.
Qed.

(** X27. An update that does not pass the access check changes nothing.
    The check of [restricted_access] lets an update pass exactly when it has
    a user and the list of the process is empty or holds the user.  An
    update it refuses is answered with the refusal that names the user: as
    an alert when the update carries a callback query, as a reply when it
    carries a message, and not at all when it carries neither (an edited
    message) or has no user.  Whatever the handler, a refused update does
    not run it: the session and the process data stay as they are. *)
Theorem unauthorized_update_is_refused :
  (∀ user callback_query message bd,
     access_refusal user callback_query message bd = None
     ↔ ∃ user_id, user = Some user_id ∧
         (default ∅ (WHITELISTED_USER_IDS bd) = ∅
          ∨ user_id ∈ default ∅ (WHITELISTED_USER_IDS bd)))
  ∧ (∀ user callback_query message bd sent,
       access_refusal user callback_query message bd = Some sent →
       sent = match user with
              | None => []
              | Some user_id =>
                  if callback_query then [Answer (AccessDeniedAlert user_id)]
                  else if message then [Message (AccessDenied user_id)]
                  else []
              end)
  ∧ (∀ (handler : update → state → state * list event) upd ud bd,
       ¬ authorized upd bd →
       restricted_access handler upd (ud, bd)
       = ((ud, bd),
          match effective_user upd with
          | None => []
          | Some user_id =>
              if has_callback_query upd
              then [Answer (AccessDeniedAlert user_id)]
              else [Message (AccessDenied user_id)]
          end)).
Proof.
  assert (∀ user callback_query message bd,
     access_refusal user callback_query message bd = None
     ↔ ∃ user_id, user = Some user_id ∧
         (default ∅ (WHITELISTED_USER_IDS bd) = ∅
          ∨ user_id ∈ default ∅ (WHITELISTED_USER_IDS bd))) as Hpass.
  { intros [user_id|] cq msg bd; unfold access_refusal.
    2:{ split; [discriminate|]. now intros (u & [=] & _). }
    case_bool_decide as Hempty.
    { split; [|reflexivity]. intros _. exists user_id. split; [reflexivity|].
      now left. }
    case_bool_decide as Hin.
    { split; [|reflexivity]. intros _. exists user_id. split; [reflexivity|].
      now right. }
    split; [discriminate|]. intros (u & [= <-] & [H|H]); contradiction. }
  split; [exact Hpass|]. split.
  - intros [user_id|] cq msg bd sent; unfold access_refusal;
      [|now intros [= <-]].
    case_bool_decide; [discriminate|]. case_bool_decide; [discriminate|].
    now intros [= <-].
  - intros handler upd ud bd Hno. unfold restricted_access. cbn [snd].
    destruct (access_refusal _ _ _ _) as [sent|] eqn:E.
    + unfold access_refusal in E.
      destruct (effective_user upd) as [user_id|]; [|now injection E as <-].
      case_bool_decide; [discriminate|]. case_bool_decide; [discriminate|].
      injection E as <-. now destruct (has_callback_query upd).
    + exfalso. apply Hno. now apply Hpass in E.
Qed.

(** The refusals of the user 8, who is not on the list of the process, for
    the three kinds of update. *)
Example refusals_by_kind :
  access_refusal (Some 8) true false Fixtures.bd_sent
  = Some [Answer (AccessDeniedAlert 8)]
  ∧ access_refusal (Some 8) false true Fixtures.bd_sent
    = Some [Message (AccessDenied 8)]
  ∧ access_refusal (Some 8) false false Fixtures.bd_sent = Some []
  ∧ access_refusal (Some 7) false false Fixtures.bd_sent = None.
Proof.
  unfold access_refusal. cbn [Fixtures.bd_sent WHITELISTED_USER_IDS default
                              from_option id].
  assert (({[ 7 ]} : gset Z) ≠ ∅) as Hne.
  { intros H. apply (not_elem_of_empty (C := gset Z) 7). rewrite <- H.
    now apply elem_of_singleton. }
  rewrite (bool_decide_eq_false_2 _ Hne).
  rewrite (bool_decide_eq_false_2 (8 ∈ ({[ 7 ]} : gset Z)))
    by (rewrite elem_of_singleton; discriminate).
  rewrite (bool_decide_eq_true_2 (7 ∈ ({[ 7 ]} : gset Z)))
    by now apply elem_of_singleton.
  repeat split.
Qed.

End SearchFacts.

(** The theorem at the query [ivanov], which finds two folders of the small
    catalog. *)
Lemma text_in_search_mode_witness :
  let r :=
    Handlers.handle_text_body Fixtures.cfg Fixtures.fs Fixtures.ai_silent 0
      "ivanov" Fixtures.user (fresh_user_data, Fixtures.bd) in
  (∀ e, e ∈ r.2 → is_ai_call e = false)
  ∧ mode r.1.1 = None
  ∧ pdf_context_path r.1.1 = None
  ∧ gemini_requests r.1.1 = None
  ∧ send_birthday_broadcast r.1.1 = None
  ∧ r.1.2 = Fixtures.bd
  ∧ current_matches r.1.1
    = Some ["Base/Group/Ivanov"; "Base/Group/Ivanov_Petr_01.01"]
  ∧ current_match_index r.1.1 = Some 0
  ∧ last_query r.1.1 = Some "ivanov".
Proof.
  intros r.
  pose proof (text_in_search_mode Fixtures.cfg Fixtures.fs Fixtures.ai_silent
                0 "ivanov" Fixtures.user fresh_user_data Fixtures.bd
                ltac:(discriminate)) as H.
  cbv zeta in H.
  change (PyStr.strip "ivanov") with "ivanov" in H.
  change (Matcher.find_folder_matches "ivanov" (PERSON_FOLDERS Fixtures.cfg))
    with ["Base/Group/Ivanov"; "Base/Group/Ivanov_Petr_01.01"] in H.
  exact H.
Defined.

(** ** Queries with the same words *)

Section QueryFacts.
Import Unicode.

Lemma matches_same_words (q q' folder : str) :
  (∀ w, w ∈ query_words q' → w ∈ query_words q) →
  MatcherSpec.Matches q folder → MatcherSpec.Matches q' folder.
Proof.
  unfold MatcherSpec.Matches. rewrite <- !query_words_normalize. auto.
Qed.

Lemma query_words_lower (q : str) : query_words (lower q) = query_words q.
Proof. unfold query_words. now rewrite lower_idemp. Qed.

Lemma query_words_underscores (q : str) :
  query_words (replace_underscores q) = query_words q.
Proof.
  unfold query_words. rewrite !collapse_lower. unfold collapse.
  now rewrite collapse_from_underscores.
Qed.

(** X28. The matcher sees a query through its words only.  Two queries
    with the same words, in whatever order and however often, find the same
    folders; so do a query and its lower-case form, and a query and the one
    with spaces for its underscores.  And a query that has all the words of
    another, which has at least one, finds among the folders that one found
    what it finds among all: narrowing a search never brings a folder
    back.  Queries are strings of any code points, and lower case is that
    of the interpreter. *)
Theorem matches_depend_on_the_words (q q' : str) (folders : list str) :
  ((∀ w, w ∈ query_words q ↔ w ∈ query_words q') →
   find_folder_matches q folders = find_folder_matches q' folders)
  ∧ find_folder_matches (lower q) folders = find_folder_matches q folders
  ∧ find_folder_matches (replace_underscores q) folders
    = find_folder_matches q folders
  ∧ (query_words q ≠ [] →
     (∀ w, w ∈ query_words q → w ∈ query_words q') →
     find_folder_matches q' (find_folder_matches q folders)
     = find_folder_matches q' folders).
Proof.
  split; [|split; [|split]].
  - intros Hsame.
    destruct (decide (query_words q = [])) as [E|Hne].
    + assert (query_words q' = []) as E'.
      { destruct (query_words q') as [|w' ws'] eqn:E'; [easy|].
        assert (w' ∈ query_words q) as H by (apply Hsame; left).
        rewrite E in H. now apply not_elem_of_nil in H. }
      unfold find_folder_matches. now rewrite E, E'.
    + assert (query_words q' ≠ []) as Hne'.
      { intros E'. destruct (query_words q) as [|w ws] eqn:E; [easy|].
        assert (w ∈ query_words q') as H by (apply Hsame; left).
        rewrite E' in H. now apply not_elem_of_nil in H. }
      rewrite !find_folder_matches_filter
        by (rewrite <- query_words_normalize; assumption).
      apply list_filter_iff. intros folder.
      split; apply matches_same_words; intros x Hx; now apply Hsame.
  - unfold find_folder_matches. now rewrite query_words_lower.
  - unfold find_folder_matches. now rewrite query_words_underscores.
  - intros Hne Hsub.
    destruct (query_words q') as [|w' ws'] eqn:E'.
    { unfold find_folder_matches. now rewrite E'. }
    rewrite !(find_folder_matches_filter q')
      by (rewrite <- query_words_normalize; congruence).
    rewrite (find_folder_matches_filter q)
      by (now rewrite <- query_words_normalize).
    rewrite list_filter_filter. apply list_filter_iff. intros folder.
    split; [tauto|]. intros H. split; [exact H|].
    apply (matches_same_words q' q); [|exact H].
    intros x Hx. rewrite E'. now apply Hsub.
Qed.

End QueryFacts.

(** ** A folder answered with nothing *)

Section SilenceFacts.
Import PyStr Folder Sender.

Variables (cfg : config) (fs : filesystem).

Lemma candidate_path_truthy (folder entry : string) :
  entry ∈ SummarySpec.candidates cfg folder →
  truthy (OsPath.join (SCRIPT_DIR cfg) entry) = true.
Proof.
  unfold SummarySpec.candidates, SummarySpec.qualifies.
  intros [_ H]%list_elem_of_In%filter_In.
  rewrite !andb_true_iff in H. destruct H as [[H _] _].
  now apply join_truthy, (under_truthy folder).
Qed.

(** X29. When a folder is answered with nothing.  [send_folder_contents]
    sends nothing at all in exactly one case: it was called for a button
    press, the folder has no document to attach, and its summary file, the
    last entry of the catalog that qualifies, can be read and holds white
    space only.  Then the process data are unchanged too.  Called for a text
    message it always sends something, the typing action at least. *)
Theorem silent_folder (with_update : option bool) (folder : string)
    (bd : bot_data) :
  let sent := send_folder_contents cfg fs with_update folder bd in
  (sent.2 = [] ↔
   with_update = Some true
   ∧ SelectorSpec.attachable cfg fs folder = []
   ∧ ∃ entry content,
       last (SummarySpec.candidates cfg folder) = Some entry
       ∧ read_text fs (OsPath.join (SCRIPT_DIR cfg) entry) = Some content
       ∧ strip content = "")
  ∧ (sent.2 = [] → sent.1 = bd)
  ∧ (with_update ≠ Some true → head sent.2 = Some (ChatAction TYPING)).
Proof.
  cbn zeta. unfold send_folder_contents.
  pose proof (collect_fst cfg fs folder (RELATIVE_FILE_PATHS cfg) None [])
    as Htxt.
  pose proof (collect_snd cfg fs folder (clean_lower (OsPath.basename folder))
                (RELATIVE_FILE_PATHS cfg) None []) as Hpdfs.
  destruct (collect _ _ _ _ _ _ _) as [txt pdfs]. cbn [fst snd app] in *.
  fold (SummarySpec.candidates cfg folder) in Htxt.
  fold (SelectorSpec.attachable cfg fs folder) in Hpdfs. subst pdfs.
  assert (∀ entry, last (SummarySpec.candidates cfg folder) = Some entry →
            truthy (OsPath.join (SCRIPT_DIR cfg) entry) = true) as Htruthy.
  { intros entry H. apply (candidate_path_truthy folder).
    now apply last_Some_elem_of. }
  assert (∀ p, is_Some (read_text fs p) → exists_ fs p = true) as Hexists.
  { intros p [c Hc]. unfold read_text, exists_ in *.
    destruct (fs !! p); [now apply bool_decide_eq_true_2|discriminate]. }
  destruct (SelectorSpec.attachable cfg fs folder) as [|pdf pdfs].
  2:{ destruct (select_within_limits _ _ _ _ _) as [final stopped].
      destruct (send_documents fs final bd) as [bd1 out]. cbn [fst snd].
      split; [|split].
      - split; [|now intros (_ & ? & _)].
        intros H. apply (f_equal (@length event)) in H.
        rewrite !length_app in H. cbn in H. lia.
      - intros H. apply (f_equal (@length event)) in H.
        rewrite !length_app in H. cbn in H. lia.
      - intros H. destruct with_update as [[|]|]; [congruence|reflexivity..]. }
  destruct with_update as [[|]|]; cbn [default from_option id].
  2,3: cbn [fst snd app]; split; [|split; [|reflexivity]];
       [split; [discriminate|now intros [? _]]|discriminate].
  cbn [fst snd app]. rewrite ?app_nil_r.
  split; [|split; [reflexivity|easy]].
  destruct (last (SummarySpec.candidates cfg folder)) as [entry|] eqn:Elast;
    subst txt.
  2:{ cbn. split; [discriminate|]. now intros (_ & _ & e & c & ? & _). }
  rewrite (Htruthy entry eq_refl). cbn [andb].
  destruct (read_text fs (OsPath.join (SCRIPT_DIR cfg) entry)) as [content|]
    eqn:Eread.
  - rewrite (Hexists _ (ex_intro _ content Eread)).
    unfold truthy at 1.
    destruct (String.eqb_spec (strip content) "") as [Estrip|Hne]; cbn [negb].
    + split; [|reflexivity]. intros _. split; [reflexivity|].
      split; [reflexivity|]. now exists entry, content.
    + split; [discriminate|].
      intros (_ & _ & e & c & [= <-] & Hc & Hs). congruence.
  - destruct (exists_ fs _); cbn.
    + split; [discriminate|].
      intros (_ & _ & e & c & [= <-] & Hc & _). congruence.
    + split; [discriminate|].
      intros (_ & _ & e & c & [= <-] & Hc & _). congruence.
Qed.

End SilenceFacts.

(** ** A name looked up and a name searched for *)

Section NameFacts.
Import Unicode.

Lemma cons_word_elem (w x : str) (ws : list str) :
  w ∈ cons_word x ws → w = x ∨ w ∈ ws.
Proof.
  destruct x; cbn [cons_word]; [now right|].
  intros [->|H]%elem_of_cons; [now left|now right].
Qed.

Lemma split_go_space (c : N) (s : str) :
  isspace c = true → split_go (c :: s) = ([], split s).
Proof.
  intros Hc. unfold split. cbn [split_go].
  destruct (split_go s) as [w ws]. now rewrite Hc.
Qed.

Lemma split_go_char (c : N) (s : str) :
  isspace c = false →
  split_go (c :: s) = (c :: (split_go s).1, (split_go s).2).
Proof.
  intros Hc. cbn [split_go]. destruct (split_go s) as [w ws]. now rewrite Hc.
Qed.

Lemma split_space (c : N) (s : str) :
  isspace c = true → split (c :: s) = split s.
Proof.
  intros Hc. unfold split at 1. rewrite split_go_space by exact Hc.
  reflexivity.
Qed.

Lemma split_lstrip (s : str) : split (lstrip s) = split s.
Proof.
  induction s as [|c s IH]; [reflexivity|].
  cbn [lstrip]. destruct (isspace c) eqn:Hc; [|reflexivity].
  now rewrite IH, split_space.
Qed.

Lemma split_go_rstrip (s : str) : split_go (rstrip s) = split_go s.
Proof.
  induction s as [|c s IH]; [reflexivity|].
  cbn [rstrip split_go]. rewrite <- IH.
  destruct (rstrip s) as [|d r'] eqn:E.
  - destruct (isspace c) eqn:Hc; cbn [split_go]; now rewrite ?Hc.
  - reflexivity.
Qed.

Lemma split_strip (s : str) : split (strip s) = split s.
Proof.
  transitivity (split (lstrip s)); [|apply split_lstrip].
  unfold strip, split. now rewrite split_go_rstrip.
Qed.

(** The words of a text are the same whether its underscores become
    spaces one by one or run by run. *)
Lemma split_collapse (s : str) :
  split_go (collapse_from false s) = split_go (replace_underscores s)
  ∧ split (collapse_from true s) = split (replace_underscores s).
Proof.
  unfold replace_underscores.
  induction s as [|c s [IH1 IH2]]; [easy|].
  cbn [collapse_from map]. unfold isdelim.
  destruct (N.eqb_spec c 95) as [->|Hc].
  - change (isspace 95 || true) with true. cbn iota.
    rewrite (split_space 32) by reflexivity.
    rewrite !(split_go_space 32) by reflexivity.
    now rewrite IH2.
  - rewrite orb_false_r. destruct (isspace c) eqn:Hs.
    + rewrite (split_space c) by exact Hs.
      rewrite !(split_go_space) by first [exact Hs|reflexivity].
      now rewrite IH2.
    + unfold split. rewrite !(split_go_char c) by exact Hs.
      now rewrite IH1.
Qed.

Lemma split_cleaned (s : str) :
  split (strip (collapse s)) = split (strip (replace_underscores s)).
Proof.
  rewrite !split_strip. unfold split, collapse.
  now rewrite (proj1 (split_collapse s)).
Qed.

Lemma split_go_parts (s : str) :
  startswith (split_go s).1 s = true
  ∧ ∀ w, w ∈ (split_go s).2 → contains w s = true.
Proof.
  induction s as [|c s [IHp IHw]];
    [split; [easy|now intros w ?%not_elem_of_nil]|].
  cbn [split_go]. destruct (split_go s) as [w0 ws]. cbn [fst snd] in *.
  destruct (isspace c); cbn [fst snd].
  - split; [reflexivity|]. intros w Hw. cbn [contains].
    apply orb_true_iff. right.
    apply cons_word_elem in Hw as [->|Hw]; [|now apply IHw].
    destruct s; cbn [contains]; now rewrite IHp.
  - split.
    + cbn [startswith]. now rewrite N.eqb_refl.
    + intros w Hw. cbn [contains]. rewrite (IHw w Hw). apply orb_true_r.
Qed.

(** A word of a text occurs in it. *)
Lemma split_contains (w s : str) : w ∈ split s → contains w s = true.
Proof.
  unfold split. pose proof (split_go_parts s) as [Hp Hw].
  destruct (split_go s) as [w0 ws]. cbn [fst snd] in *.
  intros [->|H]%cons_word_elem; [|now apply Hw].
  destruct s; cbn [contains]; now rewrite Hp.
Qed.

Lemma find_folder_by_fio_dr_elem (fio_dr folder : str) (folders : list str) :
  find_folder_by_fio_dr fio_dr folders = Some folder →
  folder ∈ folders
  ∧ strip (replace_underscores (lower (sherlock_sub (basename folder))))
    = strip (replace_underscores (lower (sherlock_sub fio_dr))).
Proof.
  unfold find_folder_by_fio_dr. intros [Hin Heq]%find_some.
  split; [now apply list_elem_of_In|]. now apply bool_decide_eq_true_1 in Heq.
Qed.

(** X30. The folder of a birthday is found by a search for the name
    without its prefix.  When [find_folder_by_fio_dr] finds a folder for a
    name, the words of the folder's cleaned name are exactly the words of
    the name with the Sherlock prefix taken off; so, unless that leaves no
    word at all, [find_folder_matches] asked for the name without the
    prefix lists the folder among its results, and asked for the name as
    it is when the name has no such prefix.  A name with the prefix need
    not be found by the search: its first word is the prefix, which the
    names of the folders are matched without. *)
Theorem named_folder_is_found (fio_dr folder : str) (folders : list str) :
  find_folder_by_fio_dr fio_dr folders = Some folder →
  split (folder_name_lower_cleaned folder) = query_words (sherlock_sub fio_dr)
  ∧ (query_words (sherlock_sub fio_dr) ≠ [] →
     folder ∈ find_folder_matches (sherlock_sub fio_dr) folders)
  ∧ (sherlock_sub fio_dr = fio_dr → query_words fio_dr ≠ [] →
     folder ∈ find_folder_matches fio_dr folders)
  ∧ ∃ name others,
      is_Some (find_folder_by_fio_dr name others)
      ∧ find_folder_matches name others = [].
Proof.
  intros [Hin Heq]%find_folder_by_fio_dr_elem.
  assert (split (folder_name_lower_cleaned folder)
          = query_words (sherlock_sub fio_dr)) as Hwords.
  { unfold folder_name_lower_cleaned, query_words.
    rewrite !split_cleaned. now rewrite Heq. }
  assert (query_words (sherlock_sub fio_dr) ≠ [] →
          folder ∈ find_folder_matches (sherlock_sub fio_dr) folders) as Hfound.
  { intros Hne.
    rewrite find_folder_matches_filter by now rewrite <- query_words_normalize.
    apply list_elem_of_filter. split; [|exact Hin].
    apply all_words_in_name_spec. rewrite <- query_words_normalize, <- Hwords.
    apply forallb_forall. intros w Hw%list_elem_of_In.
    now apply split_contains. }
  split; [exact Hwords|]. split; [exact Hfound|]. split.
  - intros Hsame. rewrite Hsame in Hfound. exact Hfound.
  - exists (of_string "Sherlock_Иванов_Пётр_01.01"),
      [of_string "Base/Group/Иванов_Пётр_01.01"].
    split; [|vm_compute; reflexivity].
    exists (of_string "Base/Group/Иванов_Пётр_01.01").
    vm_compute. reflexivity.
Qed.

End NameFacts.

(** The theorem at a name with the prefix and the folder of that person. *)
Lemma named_folder_is_found_witness :
  let name := Unicode.of_string "Sherlock — Иванов_Пётр_01.01" in
  let folders :=
    [Unicode.of_string "Base/Group/Петров_Иван_02.02";
     Unicode.of_string "Base/Group/ИВАНОВ_Пётр_01.01"] in
  Unicode.find_folder_by_fio_dr name folders
  = Some (Unicode.of_string "Base/Group/ИВАНОВ_Пётр_01.01")
  ∧ Unicode.of_string "Base/Group/ИВАНОВ_Пётр_01.01"
    ∈ Unicode.find_folder_matches (Unicode.sherlock_sub name) folders.
Proof.
  intros name folders. split; [vm_compute; reflexivity|].
  refine (proj1 (proj2 (named_folder_is_found name
                          (Unicode.of_string "Base/Group/ИВАНОВ_Пётр_01.01")
                          folders _)) _).
  - vm_compute. reflexivity.
  - vm_compute. discriminate.
Defined.

(** ** The strings of the handlers are those of Unicode below 256 *)

Section Latin1Facts.
Import Unicode.

Ltac each_char c :=
  destruct c as [[] [] [] [] [] [] [] []]; vm_compute; reflexivity.

Lemma of_latin1_cons (c : ascii) (s : string) :
  of_latin1 (String c s) = N_of_ascii c :: of_latin1 s.
Proof. reflexivity. Qed.

Lemma of_latin1_app (a b : string) :
  of_latin1 (a +:+ b) = of_latin1 a ++ of_latin1 b.
Proof.
  induction a as [|c a IH]; [reflexivity|].
  change (String c a +:+ b) with (String c (a +:+ b)).
  rewrite !of_latin1_cons, IH. reflexivity.
Qed.

Lemma of_latin1_inj (a b : string) : of_latin1 a = of_latin1 b → a = b.
Proof.
  revert b. induction a as [|c a IH]; intros [|d b]; try easy.
  rewrite !of_latin1_cons. intros [= Hc Hs].
  f_equal; [|now apply IH].
  rewrite <- (ascii_N_embedding c), <- (ascii_N_embedding d). now f_equal.
Qed.

Lemma isspace_latin1 (c : ascii) :
  isspace (N_of_ascii c) = PyStr.isspace c.
Proof. each_char c. Qed.

Lemma to_lower_latin1 (c : ascii) :
  to_lower (N_of_ascii c) = N_of_ascii (PyStr.lower_char c).
Proof. each_char c. Qed.

Lemma plain_latin1 (s : string) :
  Forall (λ c, (c =? 931)%N = false ∧ (c =? 304)%N = false) (of_latin1 s).
Proof.
  induction s as [|c s IH]; [constructor|].
  rewrite of_latin1_cons. constructor; [|exact IH].
  clear. split; each_char c.
Qed.

Lemma lower_from_latin1 (before : str) (s : string) :
  lower_from before (of_latin1 s) = of_latin1 (PyStr.lower s).
Proof.
  revert before. induction s as [|c s IH]; intros before; [reflexivity|].
  unfold PyStr.lower in *. cbn [PyStr.map_chars].
  rewrite !of_latin1_cons. cbn [lower_from].
  pose proof (plain_latin1 (String c s)) as H.
  rewrite of_latin1_cons in H. apply Forall_cons in H as [[Hsigma Hdot] _].
  rewrite Hsigma. unfold to_lower_full. rewrite Hdot.
  cbn [List.app]. now rewrite IH, to_lower_latin1.
Qed.

Lemma lower_latin1 (s : string) :
  lower (of_latin1 s) = of_latin1 (PyStr.lower s).
Proof. apply lower_from_latin1. Qed.

Lemma replace_underscores_latin1 (s : string) :
  replace_underscores (of_latin1 s) = of_latin1 (PyStr.replace_underscores s).
Proof.
  unfold replace_underscores, PyStr.replace_underscores.
  induction s as [|c s IH]; [reflexivity|].
  cbn [PyStr.map_chars]. rewrite !of_latin1_cons. cbn [map]. rewrite IH.
  f_equal. clear. each_char c.
Qed.

Lemma lstrip_latin1 (s : string) :
  lstrip (of_latin1 s) = of_latin1 (PyStr.lstrip s).
Proof.
  unfold PyStr.lstrip. induction s as [|c s IH]; [reflexivity|].
  cbn [PyStr.lstrip_by]. rewrite of_latin1_cons. cbn [lstrip].
  rewrite isspace_latin1. now destruct (PyStr.isspace c).
Qed.

Lemma rstrip_latin1 (s : string) :
  rstrip (of_latin1 s) = of_latin1 (PyStr.rstrip s).
Proof.
  unfold PyStr.rstrip. induction s as [|c s IH]; [reflexivity|].
  cbn [PyStr.rstrip_by]. rewrite of_latin1_cons. cbn [rstrip].
  rewrite IH, isspace_latin1.
  destruct (PyStr.rstrip_by PyStr.isspace s) as [|d r]; [|reflexivity].
  now destruct (PyStr.isspace c).
Qed.

Lemma strip_latin1 (s : string) :
  strip (of_latin1 s) = of_latin1 (PyStr.strip s).
Proof. unfold strip, PyStr.strip. now rewrite lstrip_latin1, rstrip_latin1. Qed.

Lemma cons_word_latin1 (w : string) (ws : list string) :
  cons_word (of_latin1 w) (map of_latin1 ws)
  = map of_latin1 (PyStr.cons_word w ws).
Proof. now destruct w. Qed.

Lemma split_go_latin1 (s : string) :
  split_go (of_latin1 s)
  = (of_latin1 (PyStr.split_go s).1, map of_latin1 (PyStr.split_go s).2).
Proof.
  induction s as [|c s IH]; [reflexivity|].
  rewrite of_latin1_cons. cbn [split_go PyStr.split_go]. rewrite IH.
  rewrite isspace_latin1. destruct (PyStr.split_go s) as [w ws].
  cbn [fst snd]. destruct (PyStr.isspace c); cbn [fst snd]; [|reflexivity].
  now rewrite cons_word_latin1.
Qed.

Lemma split_latin1 (s : string) :
  split (of_latin1 s) = map of_latin1 (PyStr.split s).
Proof.
  unfold split, PyStr.split. rewrite split_go_latin1.
  destruct (PyStr.split_go s) as [w ws]. apply cons_word_latin1.
Qed.

Lemma isdelim_latin1 (c : ascii) :
  isdelim (N_of_ascii c) = PyStr.isdelim c.
Proof. each_char c. Qed.

Lemma collapse_from_latin1 (in_run : bool) (s : string) :
  collapse_from in_run (of_latin1 s)
  = of_latin1 (PyStr.collapse_from in_run s).
Proof.
  revert in_run. induction s as [|c s IH]; intros in_run; [reflexivity|].
  rewrite of_latin1_cons. cbn [collapse_from PyStr.collapse_from].
  rewrite isdelim_latin1. destruct (PyStr.isdelim c).
  - destruct in_run; rewrite IH; reflexivity.
  - now rewrite IH.
Qed.

Lemma startswith_latin1 (p s : string) :
  startswith (of_latin1 p) (of_latin1 s) = PyStr.startswith p s.
Proof.
  unfold PyStr.startswith. revert s.
  induction p as [|a p IH]; intros [|b s]; try reflexivity.
  rewrite !of_latin1_cons. cbn [startswith String.prefix]. rewrite IH.
  destruct (ascii_dec a b) as [->|Hne]; [now rewrite N.eqb_refl|].
  destruct (N.eqb_spec (N_of_ascii a) (N_of_ascii b)) as [E|_]; [|reflexivity].
  exfalso. apply Hne.
  rewrite <- (ascii_N_embedding a), <- (ascii_N_embedding b). now f_equal.
Qed.

Lemma contains_latin1 (w s : string) :
  contains (of_latin1 w) (of_latin1 s) = PyStr.contains w s.
Proof.
  induction s as [|c s IH].
  - change (of_latin1 "") with (@nil N) at 1. cbn [contains PyStr.contains].
    change (@nil N) with (of_latin1 ""). rewrite startswith_latin1.
    reflexivity.
  - rewrite of_latin1_cons. cbn [contains PyStr.contains].
    rewrite IH, <- of_latin1_cons. now rewrite startswith_latin1.
Qed.

(** The letters of the pattern match below 256 what they match after
    lower case. *)
Lemma matches_letter_latin1 (a b : ascii) :
  a ∈ list_ascii_of_string "sherlock" →
  matches_letter (N_of_ascii a) (N_of_ascii b)
  = Ascii.eqb (PyStr.lower_char a) (PyStr.lower_char b).
Proof.
  intros H. repeat (apply elem_of_cons in H as [->|H]; [clear; each_char b|]).
  now apply not_elem_of_nil in H.
Qed.

Lemma drop_prefix_ci_latin1 (p s : string) :
  Forall (λ a, a ∈ list_ascii_of_string "sherlock") (list_ascii_of_string p) →
  drop_prefix_ci (of_latin1 p) (of_latin1 s)
  = of_latin1 <$> PyStr.drop_prefix_ci p s.
Proof.
  revert s. induction p as [|a p IH]; intros s Hp; [now destruct s|].
  cbn [list_ascii_of_string] in Hp. apply Forall_cons in Hp as [Ha Hp].
  destruct s as [|b s]; [reflexivity|].
  rewrite !of_latin1_cons. cbn [drop_prefix_ci PyStr.drop_prefix_ci].
  rewrite (matches_letter_latin1 a b Ha).
  destruct (Ascii.eqb _ _); [now apply IH|reflexivity].
Qed.

Lemma sherlock_sub_latin1 (s : string) :
  sherlock_sub (of_latin1 s) = of_latin1 (PyStr.sherlock_sub s).
Proof.
  unfold sherlock_sub, PyStr.sherlock_sub.
  change (of_string "sherlock") with (of_latin1 "sherlock").
  rewrite lstrip_latin1, drop_prefix_ci_latin1
    by (repeat constructor).
  destruct (PyStr.drop_prefix_ci "sherlock" (PyStr.lstrip s)) as [s2|];
    [|reflexivity].
  cbn [fmap option_fmap option_map]. rewrite lstrip_latin1.
  destruct (PyStr.lstrip s2) as [|c r]; [reflexivity|].
  rewrite of_latin1_cons.
  assert (((N_of_ascii c =? 8212) || (N_of_ascii c =? 95)
           || (N_of_ascii c =? 45))%N
          = (Ascii.eqb c "_" || Ascii.eqb c "-")) as -> by (clear; each_char c).
  destruct (Ascii.eqb c "_" || Ascii.eqb c "-").
  - apply lstrip_latin1.
  - rewrite <- of_latin1_cons. apply lstrip_latin1.
Qed.

Lemma has_separator_latin1 (s : string) :
  existsb (N.eqb 47) (of_latin1 s) = PyStr.has_char "/" s.
Proof.
  induction s as [|c s IH]; [reflexivity|].
  rewrite of_latin1_cons. cbn [existsb PyStr.has_char]. rewrite IH.
  f_equal. clear. each_char c.
Qed.

Lemma basename_latin1 (p : string) :
  basename (of_latin1 p) = of_latin1 (OsPath.basename p).
Proof.
  induction p as [|c p IH]; [reflexivity|].
  rewrite of_latin1_cons. cbn [basename OsPath.basename].
  rewrite has_separator_latin1. destruct (PyStr.has_char "/" p); [exact IH|].
  assert ((N_of_ascii c =? 47)%N = Ascii.eqb c "/") as ->
    by (clear; each_char c).
  now destruct (Ascii.eqb c "/").
Qed.

Lemma query_words_latin1 (query : string) :
  query_words (of_latin1 query) = map of_latin1 (Matcher.query_words query).
Proof.
  unfold query_words, Matcher.query_words, collapse, PyStr.collapse.
  now rewrite lower_latin1, collapse_from_latin1, strip_latin1, split_latin1.
Qed.

Lemma folder_name_latin1 (folder_path : string) :
  folder_name_lower_cleaned (of_latin1 folder_path)
  = of_latin1 (Matcher.folder_name_lower_cleaned folder_path).
Proof.
  unfold folder_name_lower_cleaned, Matcher.folder_name_lower_cleaned,
    collapse, PyStr.collapse.
  now rewrite basename_latin1, sherlock_sub_latin1, lower_latin1,
    collapse_from_latin1, strip_latin1.
Qed.

Lemma all_words_latin1 (words : list string) (name : string) :
  forallb (λ word, contains word (of_latin1 name)) (map of_latin1 words)
  = forallb (λ word, PyStr.contains word name) words.
Proof.
  induction words as [|w words IH]; [reflexivity|].
  cbn [map forallb]. now rewrite contains_latin1, IH.
Qed.

Lemma scan_folders_latin1 (words folders matches : list string) :
  scan_folders (map of_latin1 words) (map of_latin1 folders)
    (map of_latin1 matches)
  = map of_latin1 (Matcher.scan_folders words folders matches).
Proof.
  revert matches. induction folders as [|f folders IH]; intros matches;
    [reflexivity|].
  cbn [map scan_folders Matcher.scan_folders].
  rewrite folder_name_latin1, all_words_latin1.
  destruct (forallb _ words); [|apply IH].
  rewrite <- IH. now rewrite map_app.
Qed.

(** The matcher of the handlers is the matcher over Unicode, on the texts
    below 256. *)
Lemma find_folder_matches_latin1 (query : string) (folders : list string) :
  find_folder_matches (of_latin1 query) (map of_latin1 folders)
  = map of_latin1 (Matcher.find_folder_matches query folders).
Proof.
  unfold find_folder_matches, Matcher.find_folder_matches.
  rewrite query_words_latin1.
  destruct (Matcher.query_words query) as [|w ws] eqn:E; [reflexivity|].
  cbn [map]. change (of_latin1 w :: map of_latin1 ws)
    with (map of_latin1 (w :: ws)).
  apply (scan_folders_latin1 (w :: ws) folders []).
Qed.

(** So is the lookup of a name. *)
Lemma find_folder_by_fio_dr_latin1 (fio_dr : string) (folders : list string) :
  find_folder_by_fio_dr (of_latin1 fio_dr) (map of_latin1 folders)
  = of_latin1 <$> Handlers.find_folder_by_fio_dr fio_dr folders.
Proof.
  unfold find_folder_by_fio_dr, Handlers.find_folder_by_fio_dr.
  rewrite sherlock_sub_latin1, lower_latin1, replace_underscores_latin1,
    strip_latin1.
  induction folders as [|f folders IH]; [reflexivity|].
  cbn [map List.find].
  rewrite basename_latin1, sherlock_sub_latin1, lower_latin1,
    replace_underscores_latin1, strip_latin1.
  destruct (String.eqb_spec
              (PyStr.strip (PyStr.replace_underscores
                 (PyStr.lower (PyStr.sherlock_sub (OsPath.basename f)))))
              (PyStr.strip (PyStr.replace_underscores
                 (PyStr.lower (PyStr.sherlock_sub fio_dr))))) as [E|Hne].
  - rewrite E. now rewrite bool_decide_eq_true_2.
  - rewrite bool_decide_eq_false_2; [exact IH|].
    intros H. now apply Hne, of_latin1_inj.
Qed.

End Latin1Facts.
